(** * Isles: a shallow embedding of the packet runtime and its socket framing

    The development follows [isles/isles.py] and [isles/isleExpansions.py].
    Python objects become records, raised exceptions become the [Raise]
    branch of [result], queues become lists (head = next packet to leave),
    and loops that poll a queue or a clock run over an explicit schedule. *)

From Stdlib Require Import String Ascii List ZArith Lia Bool PeanoNat.
From Stdlib Require DecimalString DecimalPos DecimalFacts.
Import ListNotations.

Local Open Scope string_scope.
Local Open Scope list_scope.
Local Set Warnings "-register-all".

(** ** Exceptions and results *)

Inductive exc_kind : Type :=
| AssertionError
| IndexError
| KeyError
| TypeError
| ValueError
| AttributeError
| ZeroDivisionError
| TimeoutError
| PlainException.

Record exc : Type := mkExc { exc_kind_of : exc_kind; exc_msg : string }.

Inductive result (A : Type) : Type :=
| Ok (a : A)
| Raise (e : exc).

Arguments Ok {A} a.
Arguments Raise {A} e.

Definition bind {A B : Type} (r : result A) (k : A -> result B) : result B :=
  match r with
  | Ok a => k a
  | Raise e => Raise e
  end.

Notation "x <- r ;; k" := (bind r (fun x => k))
  (at level 61, r at next level, right associativity).

(** ** Byte strings and slices

    A [bytes] object is a list of integers; Python's [bytes(l)] refuses
    any element outside [0, 256). *)

Definition py_bytes := list Z.

Definition is_byte (b : Z) : bool := ((0 <=? b) && (b <? 256))%Z.

Definition bytes_of_list (l : list Z) : result py_bytes :=
  if forallb is_byte l then Ok l
  else Raise (mkExc ValueError "bytes must be in range(0, 256)").

(** [l[a:b]] for [0 <= a], [0 <= b]: empty when [b <= a]. *)
Definition slice {A : Type} (l : list A) (a b : nat) : list A :=
  firstn (b - a) (skipn a l).

(** [l[-1]]: raises IndexError on the empty sequence. *)
Definition last_item (l : list Z) : result Z :=
  match rev l with
  | [] => Raise (mkExc IndexError "index out of range")
  | x :: _ => Ok x
  end.

(** ** Consistent Overhead Byte Stuffing (Peer.COBS_encode / COBS_decode) *)

Module COBS.

Local Open Scope Z_scope.

Definition assert_null_terminated (raw_packet : py_bytes) : result unit :=
  x <- last_item raw_packet ;;
  if x =? 0 then Ok tt else Raise (mkExc AssertionError "Not null terminated!").

(** The body of [while index < len(raw_list)]; one unit of fuel per
    iteration.  [None] stands for fuel exhausted. *)
Fixpoint encode_loop (fuel : nat) (raw_list : list Z) (index offset : nat)
    (coby_list : list Z) : option (list Z) :=
  match fuel with
  | O => None
  | S fuel' =>
    if (index <? length raw_list)%nat then
      if nth index raw_list 0 =? 0 then
        encode_loop fuel' raw_list (S index) (S index)
          ((coby_list ++ [Z.of_nat (index - offset) + 1])
             ++ slice raw_list offset index)
      else if (index - offset =? 254)%nat then
        encode_loop fuel' raw_list index index
          ((coby_list ++ [255]) ++ slice raw_list offset index)
      else
        encode_loop fuel' raw_list (S index) offset coby_list
    else Some coby_list
  end.

(** Every iteration either advances [index] or moves [offset] up to
    [index], so [2 * len + 1] iterations always suffice. *)
Definition encode_fuel (raw_list : list Z) : nat := 2 * length raw_list + 1.

Definition COBS_encode (raw_packet : py_bytes) : option (result py_bytes) :=
  match assert_null_terminated raw_packet with
  | Raise e => Some (Raise e)
  | Ok _ =>
    match encode_loop (encode_fuel raw_packet) raw_packet 0 0 [] with
    | None => None
    | Some coby_list =>
      Some (b <- bytes_of_list coby_list ;; Ok (b ++ [0]))
    end
  end.

(** [COBS_decode]: [index] runs from 1 to [len - 1]; [todo] counts the
    iterations left, so the loop is structural. *)
Fixpoint decode_loop (todo : nat) (raw_packet : py_bytes)
    (pointer : Z) (index offset : nat) (new_packet : py_bytes) : py_bytes :=
  match todo with
  | O => new_packet
  | S todo' =>
    if Z.of_nat index =? pointer then
      let chunk :=
        if (pointer <? 255) || (pointer =? Z.of_nat (length raw_packet) - 1)
        then slice raw_packet offset index ++ [0]
        else slice raw_packet offset index in
      decode_loop todo' raw_packet (pointer + nth index raw_packet 0)
        (S index) (S index) (new_packet ++ chunk)
    else
      decode_loop todo' raw_packet pointer (S index) offset new_packet
  end.

Definition COBS_decode (raw_packet : py_bytes) : result py_bytes :=
  _ <- assert_null_terminated raw_packet ;;
  Ok (decode_loop (length raw_packet - 1) raw_packet
        (nth 0 raw_packet 0) 1 1 []).

(** The byte string [bytes(range(a, b))]. *)
Definition byte_range (a b : nat) : py_bytes :=
  map Z.of_nat (seq a (b - a)).

End COBS.

(** ** Python values carried by packets

    The payload of a packet is free-form.  The model keeps the shapes the
    program builds and inspects: [None], booleans, integers, strings, lists,
    tuples (what [*args] collects), dictionaries with string keys (kept as
    association lists in insertion order, keys unique), and exception
    objects (carried by [{"exception": e}] replies).  Of the floating-point
    numbers the model keeps the three that JSON text spells by name,
    [nan], [inf] and [-inf]; the finite ones are left out.  A character of
    a [string] stands for the code point of the same number. *)

Inductive pyfloat : Type :=
| Fnan
| Finf
| Fneginf.

Inductive value : Type :=
| VNone
| VBool (b : bool)
| VInt (z : Z)
| VStr (s : string)
| VList (l : list value)
| VTuple (l : list value)
| VDict (d : list (string * value))
| VExc (e : exc)
| VFloat (f : pyfloat).

Fixpoint dict_get (d : list (string * value)) (k : string) : option value :=
  match d with
  | [] => None
  | (k', v) :: d' => if String.eqb k' k then Some v else dict_get d' k
  end.

Definition dict_has (d : list (string * value)) (k : string) : bool :=
  match dict_get d k with Some _ => true | None => false end.

Fixpoint is_substring (needle hay : string) : bool :=
  String.prefix needle hay ||
  match hay with
  | EmptyString => false
  | String _ hay' => is_substring needle hay'
  end.

Definition is_str (s : string) (v : value) : bool :=
  match v with VStr s' => String.eqb s' s | _ => false end.

(** [key in v] for a string [key]. *)
Definition py_contains (key : string) (v : value) : result bool :=
  match v with
  | VDict d => Ok (dict_has d key)
  | VStr s => Ok (is_substring key s)
  | VList l | VTuple l => Ok (existsb (is_str key) l)
  | VNone | VBool _ | VInt _ | VExc _ | VFloat _ =>
      Raise (mkExc TypeError "argument is not iterable")
  end.

(** [v[key]] for a string [key]. *)
Definition py_getitem (v : value) (key : string) : result value :=
  match v with
  | VDict d =>
      match dict_get d key with
      | Some x => Ok x
      | None => Raise (mkExc KeyError key)
      end
  | VStr _ | VList _ | VTuple _ =>
      Raise (mkExc TypeError "indices must be integers or slices, not str")
  | VNone | VBool _ | VInt _ | VExc _ | VFloat _ =>
      Raise (mkExc TypeError "object is not subscriptable")
  end.

Definition chars_of (s : string) : list value :=
  map (fun c => VStr (String c EmptyString)) (list_ascii_of_string s).

(** [len(v)] *)
Definition py_len (v : value) : result nat :=
  match v with
  | VList l | VTuple l => Ok (length l)
  | VStr s => Ok (String.length s)
  | VDict d => Ok (length d)
  | VNone | VBool _ | VInt _ | VExc _ | VFloat _ =>
      Raise (mkExc TypeError "object has no len()")
  end.

(** [v[-k]] for [k >= 1]. *)
Definition py_item_from_end (v : value) (k : nat) : result value :=
  let pick (l : list value) :=
    if (k <=? length l)%nat then Ok (nth (length l - k) l VNone)
    else Raise (mkExc IndexError "index out of range") in
  match v with
  | VList l | VTuple l => pick l
  | VStr s => pick (chars_of s)
  | VDict _ => Raise (mkExc KeyError "negative index")
  | VNone | VBool _ | VInt _ | VExc _ | VFloat _ =>
      Raise (mkExc TypeError "object is not subscriptable")
  end.

(** The positional arguments [*v] unpacks: the items of an iterable. *)
Definition py_unpack_args (v : value) : result (list value) :=
  match v with
  | VList l | VTuple l => Ok l
  | VStr s => Ok (chars_of s)
  | VDict d => Ok (map (fun kv => VStr (fst kv)) d)
  | VNone | VBool _ | VInt _ | VExc _ | VFloat _ =>
      Raise (mkExc TypeError "argument after * must be an iterable")
  end.

(** The keyword arguments [**v] unpacks: [v] must be a mapping. *)
Definition py_unpack_kwargs (v : value) : result (list (string * value)) :=
  match v with
  | VDict d => Ok d
  | _ => Raise (mkExc TypeError "argument after ** must be a mapping")
  end.




(** ** JSON text and UTF-8 ([json.dumps], [json.loads], [str.encode],
    [bytes.decode])

    The library calls the packet code makes, on the values of the model.
    An answer [None] means the text leaves the model (a finite
    floating-point number, a code point above 255) or, for the parser,
    that fuel ran out; [Some (Raise _)] is the library raising. *)

Module JSON.

Local Open Scope char_scope.

Definition dquote : ascii := "034".
Definition backslash : ascii := "\".

Definition chars (s : string) : list ascii := list_ascii_of_string s.

Definition decode_error (msg : string) : exc := mkExc ValueError msg.

(** *** Printing, as [json.dumps(obj, separators=(',', ':'))] *)

Definition hex_digit (n : nat) : ascii :=
  nth n ["0"; "1"; "2"; "3"; "4"; "5"; "6"; "7"; "8"; "9";
         "a"; "b"; "c"; "d"; "e"; "f"] "0".

(** [ensure_ascii]: everything outside [' '..'~'] is escaped. *)
Definition escape_char (c : ascii) : list ascii :=
  let n := nat_of_ascii c in
  if (n =? 34)%nat then [backslash; dquote]
  else if (n =? 92)%nat then [backslash; backslash]
  else if (n =? 10)%nat then [backslash; "n"]
  else if (n =? 13)%nat then [backslash; "r"]
  else if (n =? 9)%nat then [backslash; "t"]
  else if (n =? 12)%nat then [backslash; "f"]
  else if (n =? 8)%nat then [backslash; "b"]
  else if ((32 <=? n) && (n <=? 126))%nat then [c]
  else [backslash; "u"; "0"; "0"; hex_digit (n / 16); hex_digit (n mod 16)].

Definition encode_string (s : string) : list ascii :=
  dquote :: flat_map escape_char (chars s) ++ [dquote].

Definition encode_int (z : Z) : list ascii :=
  match z with
  | Z0 => ["0"]
  | Zpos p => chars (DecimalString.NilEmpty.string_of_uint (Pos.to_uint p))
  | Zneg p => "-" :: chars (DecimalString.NilEmpty.string_of_uint (Pos.to_uint p))
  end.

(** [allow_nan] is on: the three floats print as the names JavaScript
    gives them. *)
Definition encode_float (f : pyfloat) : list ascii :=
  match f with
  | Fnan => chars "NaN"
  | Finf => chars "Infinity"
  | Fneginf => chars "-Infinity"
  end.

Definition not_serializable : exc :=
  mkExc TypeError "Object is not JSON serializable".

(** The items of a list, comma separated, each printed by [enc]. *)
Fixpoint encode_items (enc : value -> result (list ascii)) (l : list value)
    : result (list ascii) :=
  match l with
  | [] => Ok []
  | x :: l' =>
      a <- enc x ;;
      b <- encode_items enc l' ;;
      Ok (match l' with [] => a | _ => a ++ "," :: b end)
  end.

Fixpoint encode_members (enc : value -> result (list ascii)) (d : list (string * value))
    : result (list ascii) :=
  match d with
  | [] => Ok []
  | kx :: d' =>
      a <- enc (snd kx) ;;
      b <- encode_members enc d' ;;
      Ok (match d' with
          | [] => encode_string (fst kx) ++ ":" :: a
          | _ => encode_string (fst kx) ++ ":" :: a ++ "," :: b
          end)
  end.

(** Lists and tuples print alike; an exception object does not print. *)
Fixpoint encode (v : value) : result (list ascii) :=
  match v with
  | VNone => Ok (chars "null")
  | VBool true => Ok (chars "true")
  | VBool false => Ok (chars "false")
  | VInt z => Ok (encode_int z)
  | VStr s => Ok (encode_string s)
  | VList l | VTuple l =>
      body <- encode_items encode l ;;
      Ok ("[" :: body ++ ["]"])
  | VDict d =>
      body <- encode_members encode d ;;
      Ok ("{" :: body ++ ["}"])
  | VExc _ => Raise not_serializable
  | VFloat f => Ok (encode_float f)
  end.

Definition dumps (v : value) : result string :=
  t <- encode v ;; Ok (string_of_list_ascii t).

(** *** Parsing, as [json.loads] *)

Definition is_ws (c : ascii) : bool :=
  let n := nat_of_ascii c in
  ((n =? 32) || (n =? 9) || (n =? 10) || (n =? 13))%nat.

Fixpoint skip_ws (s : list ascii) : list ascii :=
  match s with
  | c :: s' => if is_ws c then skip_ws s' else s
  | [] => []
  end.

Definition is_digit (c : ascii) : bool :=
  let n := nat_of_ascii c in ((48 <=? n) && (n <=? 57))%nat.

Definition hex_value (c : ascii) : option nat :=
  let n := nat_of_ascii c in
  if ((48 <=? n) && (n <=? 57))%nat then Some (n - 48)%nat
  else if ((97 <=? n) && (n <=? 102))%nat then Some (n - 87)%nat
  else if ((65 <=? n) && (n <=? 70))%nat then Some (n - 55)%nat
  else None.

Definition hex4 (a b c d : ascii) : option nat :=
  match hex_value a, hex_value b, hex_value c, hex_value d with
  | Some x, Some y, Some z, Some w => Some (((x * 16 + y) * 16 + z) * 16 + w)%nat
  | _, _, _, _ => None
  end.

Definition unescape (c : ascii) : option ascii :=
  let n := nat_of_ascii c in
  if (n =? 34)%nat then Some dquote
  else if (n =? 92)%nat then Some backslash
  else if (n =? 47)%nat then Some "/"
  else if (n =? 98)%nat then Some "008"
  else if (n =? 102)%nat then Some "012"
  else if (n =? 110)%nat then Some "010"
  else if (n =? 114)%nat then Some "013"
  else if (n =? 116)%nat then Some "009"
  else None.

(** The body of a string literal, after the opening quote; [acc] holds the
    characters read so far, last first. *)
Fixpoint scan_string (s : list ascii) (acc : list ascii)
    : option (result (string * list ascii)) :=
  match s with
  | [] => Some (Raise (decode_error "Unterminated string"))
  | c :: s' =>
    if Ascii.eqb c dquote then Some (Ok (string_of_list_ascii (rev acc), s'))
    else if Ascii.eqb c backslash then
      match s' with
      | [] => Some (Raise (decode_error "Unterminated string"))
      | e :: s'' =>
        if Ascii.eqb e "u" then
          match s'' with
          | h1 :: h2 :: h3 :: h4 :: s3 =>
            match hex4 h1 h2 h3 h4 with
            | Some n =>
                if (n <? 256)%nat then scan_string s3 (ascii_of_nat n :: acc)
                else None
            | None => Some (Raise (decode_error "Invalid \uXXXX escape"))
            end
          | _ => Some (Raise (decode_error "Invalid \uXXXX escape"))
          end
        else
          match unescape e with
          | Some c' => scan_string s'' (c' :: acc)
          | None => Some (Raise (decode_error "Invalid \escape"))
          end
      end
    else if (nat_of_ascii c <? 32)%nat then
      Some (Raise (decode_error "Invalid control character"))
    else scan_string s' (c :: acc)
  end.

Definition digit_of (c : ascii) : option (Decimal.uint -> Decimal.uint) :=
  match nat_of_ascii c with
  | 48 => Some Decimal.D0 | 49 => Some Decimal.D1 | 50 => Some Decimal.D2
  | 51 => Some Decimal.D3 | 52 => Some Decimal.D4 | 53 => Some Decimal.D5
  | 54 => Some Decimal.D6 | 55 => Some Decimal.D7 | 56 => Some Decimal.D8
  | 57 => Some Decimal.D9
  | _ => None
  end%nat.

(** The longest run of digits at the head of [s]. *)
Fixpoint read_digits (s : list ascii) : Decimal.uint * list ascii :=
  match s with
  | [] => (Decimal.Nil, [])
  | c :: s' =>
    match digit_of c with
    | Some D => let '(d, rest) := read_digits s' in (D d, rest)
    | None => (Decimal.Nil, s)
    end
  end.

(** What follows the integer part of a floating-point literal: a dot and
    a digit, or an exponent mark, an optional sign and a digit. *)
Definition float_suffix (rest : list ascii) : bool :=
  match rest with
  | e :: rest' =>
    if Ascii.eqb e "." then
      match rest' with
      | c :: _ => is_digit c
      | [] => false
      end
    else if Ascii.eqb e "e" || Ascii.eqb e "E" then
      match rest' with
      | sign :: c :: _ =>
          is_digit sign || ((Ascii.eqb sign "+" || Ascii.eqb sign "-") && is_digit c)
      | [c] => is_digit c
      | [] => false
      end
    else false
  | [] => false
  end.

(** The integer part: a lone zero, or the run of digits at the head. *)
Definition read_integer (s : list ascii) : Decimal.uint * list ascii :=
  match s with
  | c :: r => if Ascii.eqb c "0" then (Decimal.D0 Decimal.Nil, r) else read_digits s
  | [] => (Decimal.Nil, [])
  end.

(** [s] with the literal [lit] taken off its head. *)
Fixpoint strip_prefix (lit s : list ascii) : option (list ascii) :=
  match lit, s with
  | [], _ => Some s
  | a :: lit', b :: s' => if Ascii.eqb a b then strip_prefix lit' s' else None
  | _ :: _, [] => None
  end.

(** An optional minus sign, the integer part, and neither fraction nor
    exponent after it; a minus sign that no digit follows starts
    [-Infinity] or nothing. *)
Definition parse_number (s : list ascii) : option (result (value * list ascii)) :=
  let '(negative, s1) :=
    match s with
    | c :: s' => if Ascii.eqb c "-" then (true, s') else (false, s)
    | [] => (false, s)
    end in
  let '(d, rest) := read_integer s1 in
  match d with
  | Decimal.Nil =>
      if negative then
        match strip_prefix (chars "Infinity") s1 with
        | Some rest' => Some (Ok (VFloat Fneginf, rest'))
        | None => Some (Raise (decode_error "Expecting value"))
        end
      else Some (Raise (decode_error "Expecting value"))
  | _ =>
      if float_suffix rest then None
      else Some (Ok (VInt (if negative then - Z.of_uint d else Z.of_uint d)%Z, rest))
  end.

Definition parse_literal (lit : string) (v : value) (s : list ascii)
    : option (result (value * list ascii)) :=
  match strip_prefix (chars lit) s with
  | Some rest => Some (Ok (v, rest))
  | None => Some (Raise (decode_error "Expecting value"))
  end.

(** [dict(pairs)]: a repeated key keeps its first position and takes the
    last value. *)
Fixpoint dict_set (d : list (string * value)) (k : string) (v : value)
    : list (string * value) :=
  match d with
  | [] => [(k, v)]
  | (k', v') :: d' =>
      if String.eqb k' k then (k', v) :: d' else (k', v') :: dict_set d' k v
  end.

Definition dict_of_pairs (pairs : list (string * value)) : list (string * value) :=
  fold_left (fun d kv => dict_set d (fst kv) (snd kv)) pairs [].

(** What stands between two items, and what a missing comma raises. *)
Definition expecting_comma : exc := decode_error "Expecting ',' delimiter".
Definition expecting_colon : exc := decode_error "Expecting ':' delimiter".
Definition expecting_name : exc :=
  decode_error "Expecting property name enclosed in double quotes".
Definition expecting_value : exc := decode_error "Expecting value".

Fixpoint parse_value (fuel : nat) (s : list ascii) {struct fuel}
    : option (result (value * list ascii)) :=
  match fuel with
  | O => None
  | S fuel' =>
    match s with
    | [] => Some (Raise expecting_value)
    | c :: s' =>
      if Ascii.eqb c dquote then
        match scan_string s' [] with
        | Some (Ok (str, rest)) => Some (Ok (VStr str, rest))
        | Some (Raise e) => Some (Raise e)
        | None => None
        end
      else if Ascii.eqb c "[" then
        match skip_ws s' with
        | c1 :: rest =>
            if Ascii.eqb c1 "]" then Some (Ok (VList [], rest))
            else parse_elems fuel' (c1 :: rest) []
        | [] => parse_elems fuel' [] []
        end
      else if Ascii.eqb c "{" then
        match skip_ws s' with
        | c1 :: rest =>
            if Ascii.eqb c1 "}" then Some (Ok (VDict [], rest))
            else parse_members fuel' (c1 :: rest) []
        | [] => parse_members fuel' [] []
        end
      else if Ascii.eqb c "n" then parse_literal "null" VNone s
      else if Ascii.eqb c "t" then parse_literal "true" (VBool true) s
      else if Ascii.eqb c "f" then parse_literal "false" (VBool false) s
      else if Ascii.eqb c "N" then parse_literal "NaN" (VFloat Fnan) s
      else if Ascii.eqb c "I" then parse_literal "Infinity" (VFloat Finf) s
      else if Ascii.eqb c "-" || is_digit c then parse_number s
      else Some (Raise expecting_value)
    end
  end

with parse_elems (fuel : nat) (s : list ascii) (acc : list value) {struct fuel}
    : option (result (value * list ascii)) :=
  match fuel with
  | O => None
  | S fuel' =>
    match parse_value fuel' s with
    | Some (Ok (v, rest)) =>
      match skip_ws rest with
      | c :: rest' =>
          if Ascii.eqb c "]" then Some (Ok (VList (rev (v :: acc)), rest'))
          else if Ascii.eqb c "," then parse_elems fuel' (skip_ws rest') (v :: acc)
          else Some (Raise expecting_comma)
      | [] => Some (Raise expecting_comma)
      end
    | other => other
    end
  end

with parse_members (fuel : nat) (s : list ascii) (acc : list (string * value))
    {struct fuel} : option (result (value * list ascii)) :=
  match fuel with
  | O => None
  | S fuel' =>
    match s with
    | q :: s' =>
      if Ascii.eqb q dquote then
        match scan_string s' [] with
        | Some (Ok (key, rest)) =>
          match skip_ws rest with
          | colon :: rest1 =>
            if Ascii.eqb colon ":" then
              match parse_value fuel' (skip_ws rest1) with
              | Some (Ok (v, rest2)) =>
                match skip_ws rest2 with
                | c :: rest3 =>
                    if Ascii.eqb c "}" then
                      Some (Ok (VDict (dict_of_pairs (rev ((key, v) :: acc))), rest3))
                    else if Ascii.eqb c "," then
                      parse_members fuel' (skip_ws rest3) ((key, v) :: acc)
                    else Some (Raise expecting_comma)
                | [] => Some (Raise expecting_comma)
                end
              | other => other
              end
            else Some (Raise expecting_colon)
          | [] => Some (Raise expecting_colon)
          end
        | Some (Raise e) => Some (Raise e)
        | None => None
        end
      else Some (Raise expecting_name)
    | [] => Some (Raise expecting_name)
    end
  end.

(** Every call of the parser reads at least one character before the
    next but one, so twice the length of the text is fuel enough. *)
Definition loads (text : string) : option (result value) :=
  let s := chars text in
  match parse_value (2 * length s + 2) (skip_ws s) with
  | Some (Ok (v, rest)) =>
      match skip_ws rest with
      | [] => Some (Ok v)
      | _ => Some (Raise (decode_error "Extra data"))
      end
  | Some (Raise e) => Some (Raise e)
  | None => None
  end.

(** *** UTF-8, for code points below 256 *)

Local Open Scope Z_scope.

Definition code (c : ascii) : Z := Z.of_nat (nat_of_ascii c).

Definition encode_char (c : ascii) : py_bytes :=
  if code c <? 128 then [code c]
  else [Z.lor 192 (Z.shiftr (code c) 6); Z.lor 128 (Z.land (code c) 63)].

(** [str.encode()] *)
Definition str_encode (s : string) : py_bytes := flat_map encode_char (chars s).

Definition utf8_error : exc := mkExc ValueError "invalid utf-8".

(** [bytes.decode()]: one- and two-byte sequences. *)
Fixpoint decode_chars (b : py_bytes) : option (result (list ascii)) :=
  match b with
  | [] => Some (Ok [])
  | x :: b' =>
    if x <? 128 then
      match decode_chars b' with
      | Some (Ok r) => Some (Ok (ascii_of_nat (Z.to_nat x) :: r))
      | other => other
      end
    else if (194 <=? x) && (x <=? 223) then
      match b' with
      | y :: b'' =>
        if (128 <=? y) && (y <=? 191) then
          if x <=? 195 then
            match decode_chars b'' with
            | Some (Ok r) =>
                Some (Ok (ascii_of_nat
                            (Z.to_nat (Z.lor (Z.shiftl (Z.land x 31) 6) (Z.land y 63)))
                          :: r))
            | other => other
            end
          else None
        else Some (Raise utf8_error)
      | [] => Some (Raise utf8_error)
      end
    else if (224 <=? x) && (x <=? 244) then None
    else Some (Raise utf8_error)
  end.

Definition bytes_decode (b : py_bytes) : option (result string) :=
  match decode_chars b with
  | Some (Ok r) => Some (Ok (string_of_list_ascii r))
  | Some (Raise e) => Some (Raise e)
  | None => None
  end.

End JSON.

(** ** Packet *)

Record Packet : Type := mkPacket {
  identifier : string;
  sender : value;
  receiver : value;
  data : value
}.

Module PacketOps.

(** [Packet.__init__]: [fresh] is what [uuid.uuid4().hex] returns when the
    identifier is absent. *)
Definition init (fresh : string) (sender receiver data : value)
    (identifier : option string) : Packet :=
  match identifier with
  | None => mkPacket fresh sender receiver data
  | Some i => mkPacket i sender receiver data
  end.

Definition toDict (self : Packet) : value :=
  VDict [ ("identifier", VStr (identifier self));
          ("sender", sender self);
          ("receiver", receiver self);
          ("data", data self) ].

(** [createReply]: sender and receiver swapped, identifier inherited. *)
Definition createReply (self : Packet) (data : value) : Packet :=
  init EmptyString (receiver self) (sender self) data (Some (identifier self)).

(** [json.dumps(self.toDict(), separators=(',', ':'))] *)
Definition toJSON (self : Packet) : result string :=
  JSON.dumps (toDict self).

Definition toBytes (self : Packet) : result py_bytes :=
  t <- toJSON self ;; Ok (JSON.str_encode t).

(** [createFromDict]: the four subscripts are evaluated in the order
    sender, receiver, data, identifier.  The identifier of a packet is a
    string; a representation whose identifier is neither a string nor
    [None] leaves the model ([None]). *)
Definition createFromDict (fresh : string) (packetRepresentation : value)
    : option (result Packet) :=
  match (s <- py_getitem packetRepresentation "sender" ;;
         r <- py_getitem packetRepresentation "receiver" ;;
         d <- py_getitem packetRepresentation "data" ;;
         i <- py_getitem packetRepresentation "identifier" ;;
         Ok (s, r, d, i)) with
  | Raise e => Some (Raise e)
  | Ok (s, r, d, VStr i) => Some (Ok (init fresh s r d (Some i)))
  | Ok (s, r, d, VNone) => Some (Ok (init fresh s r d None))
  | Ok _ => None
  end.

Definition createFromJSON (fresh : string) (packetJSON : string)
    : option (result Packet) :=
  match JSON.loads packetJSON with
  | Some (Ok rep) => createFromDict fresh rep
  | Some (Raise e) => Some (Raise e)
  | None => None
  end.

Definition createFromBytes (fresh : string) (packetBytes : py_bytes)
    : option (result Packet) :=
  match JSON.bytes_decode packetBytes with
  | Some (Ok text) => createFromJSON fresh text
  | Some (Raise e) => Some (Raise e)
  | None => None
  end.

End PacketOps.

(** ** Connection: the two queues between an isle and the manager *)

Record Connection : Type := mkConnection {
  toRouter : list Packet;
  toOwner : list Packet
}.

Module ConnectionOps.

Definition init : Connection := mkConnection [] [].

Definition ownerSend (self : Connection) (packet : Packet) : Connection :=
  mkConnection (toRouter self ++ [packet]) (toOwner self).

(** [get_nowait]: [None] when the queue is empty. *)
Definition ownerReceive (self : Connection) : option Packet * Connection :=
  match toOwner self with
  | [] => (None, self)
  | packet :: rest => (Some packet, mkConnection (toRouter self) rest)
  end.

Definition routerSend (self : Connection) (packet : Packet) : Connection :=
  mkConnection (toRouter self) (toOwner self ++ [packet]).

Definition routerReceive (self : Connection) : option Packet * Connection :=
  match toRouter self with
  | [] => (None, self)
  | packet :: rest => (Some packet, mkConnection rest (toOwner self))
  end.

End ConnectionOps.

(** ** Isle *)

(** A callable attribute: applied to the unpacked positional and keyword
    arguments it returns a value or raises.  A call whose arguments do not
    fit the signature raises TypeError, like any TypeError of the body. *)
Definition handler : Type := list value -> list (string * value) -> result value.

(** One entry of [dir(self)]: the value of its [_route] attribute, if it
    has one, and what calling it does. *)
Record attribute : Type := mkAttribute {
  attr_route : option value;
  attr_call : handler
}.

(** The decorator [@route]: a wrapper forwarding to [func], stamped with
    [_route = True]. *)
Definition route (func : handler) : attribute :=
  mkAttribute (Some (VBool true)) (fun args kwargs => func args kwargs).

(** An undecorated method. *)
Definition plain_method (func : handler) : attribute :=
  mkAttribute None func.

(** The record of one call made through the route table: handler name,
    positional and keyword arguments.  [calls] is a trace kept by the model;
    the program has no such field. *)
Definition call_record : Type := (string * list value * list (string * value))%type.

Record Isle : Type := mkIsle {
  isle_identifier : string;
  connection : Connection;
  routes : list (string * handler);
  running : bool;
  calls : list call_record
}.

Definition with_connection (self : Isle) (c : Connection) : Isle :=
  mkIsle (isle_identifier self) c (routes self) (running self) (calls self).

Definition with_running (self : Isle) (r : bool) : Isle :=
  mkIsle (isle_identifier self) (connection self) (routes self) r (calls self).

Definition log_call (self : Isle) (c : call_record) : Isle :=
  mkIsle (isle_identifier self) (connection self) (routes self) (running self)
         (calls self ++ [c]).

Fixpoint routes_get (routes : list (string * handler)) (k : string) : option handler :=
  match routes with
  | [] => None
  | (k', f) :: routes' => if String.eqb k' k then Some f else routes_get routes' k
  end.

(** [self.routes[key]]: only a string can name a route; lists and
    dictionaries are not hashable. *)
Definition routes_lookup (routes : list (string * handler)) (key : value) : result handler :=
  match key with
  | VStr name =>
      match routes_get routes name with
      | Some f => Ok f
      | None => Raise (mkExc KeyError name)
      end
  | VList _ | VDict _ => Raise (mkExc TypeError "unhashable type")
  | VNone | VBool _ | VInt _ | VTuple _ | VExc _ | VFloat _ => Raise (mkExc KeyError "")
  end.

Module IsleOps.

(** [getattr(attributeref, '_route', None) is True] *)
Definition is_route (a : attribute) : bool :=
  match attr_route a with
  | Some (VBool true) => true
  | _ => false
  end.

(** [_getRoutes]: [surface] lists the attributes [dir(self)] enumerates. *)
Fixpoint _getRoutes (surface : list (string * attribute)) : list (string * handler) :=
  match surface with
  | [] => []
  | (attributename, attributeref) :: rest =>
      if is_route attributeref
      then (attributename, attr_call attributeref) :: _getRoutes rest
      else _getRoutes rest
  end.

(** [Isle.__init__]; [fresh] is the identifier [uuid4] would draw. *)
Definition init (surface : list (string * attribute)) (fresh : string)
    (identifier : option string) : Isle :=
  mkIsle (match identifier with None => fresh | Some i => i end)
         ConnectionOps.init (_getRoutes surface) false [].

(** [createPacket]: the sender is the one-hop path of this isle. *)
Definition createPacket (self : Isle) (fresh : string) (receiver data : value)
    : result Packet :=
  match receiver with
  | VList _ =>
      Ok (PacketOps.init fresh (VList [VStr (isle_identifier self)]) receiver data None)
  | _ => Raise (mkExc AssertionError "createPacket: receiver should be a list!")
  end.

Definition sendPacket (self : Isle) (packet : Packet) : string * Isle :=
  (identifier packet,
   with_connection self (ConnectionOps.ownerSend (connection self) packet)).

(** [__handleTooLate] *)
Definition handleTooLate (self : Isle) (packet : Packet) : result bool :=
  b <- py_contains "return" (data packet) ;;
  if b then Ok true else Ok false.

(** The expression [func( *packet.data["args"], **packet.data["kwargs"])]:
    both subscripts are evaluated, left to right; the call then unpacks the
    mapping and the iterable, and is recorded once it is made. *)
Definition call_islet (self : Isle) (name : string) (func : handler)
    (packet : Packet) : result value * Isle :=
  match (a <- py_getitem (data packet) "args" ;;
         k <- py_getitem (data packet) "kwargs" ;;
         kwargs <- py_unpack_kwargs k ;;
         args <- py_unpack_args a ;;
         Ok (args, kwargs)) with
  | Raise e => (Raise e, self)
  | Ok (args, kwargs) => (func args kwargs, log_call self (name, args, kwargs))
  end.

Definition route_name (key : value) : string :=
  match key with VStr name => name | _ => EmptyString end.

(** [__handleIslet].  Only TypeError is caught; the except branch first
    prints [packet.data["args"]] and [packet.data["kwargs"]], which raises
    again when either subscript was the cause. *)
Definition handleIslet (self : Isle) (packet : Packet) : result bool * Isle :=
  match py_len (receiver packet) with
  | Raise e => (Raise e, self)
  | Ok n =>
    if (n =? 2)%nat then
      match (key <- py_item_from_end (receiver packet) 2 ;;
             func <- routes_lookup (routes self) key ;;
             Ok (route_name key, func)) with
      | Raise e => (Raise e, self)
      | Ok (name, func) =>
        match call_islet self name func packet with
        | (Ok response, self1) =>
            let reply := PacketOps.createReply packet (VDict [("return", response)]) in
            (Ok true, snd (sendPacket self1 reply))
        | (Raise e, self1) =>
            match exc_kind_of e with
            | TypeError =>
                match (_ <- py_getitem (data packet) "args" ;;
                       py_getitem (data packet) "kwargs") with
                | Raise e' => (Raise e', self1)
                | Ok _ =>
                    let reply := PacketOps.createReply packet (VDict [("exception", VExc e)]) in
                    (Ok true, snd (sendPacket self1 reply))
                end
            | _ => (Raise e, self1)
            end
        end
      end
    else (Ok false, self)
  end.

(** [__handleShutdown]: [packet.data == 'shutdown'] *)
Definition handleShutdown (self : Isle) (packet : Packet) : bool * Isle :=
  if is_str "shutdown" (data packet)
  then (true, with_running self false)
  else (false, self).

(** One packet through the chain
    [__handleTooLate(p) or __handleIslet(p) or __handleShutdown(p)].
    In the else branch the reply is built and dropped: nothing is sent. *)
Definition handle_one (self : Isle) (packet : Packet) : result unit * Isle :=
  match handleTooLate self packet with
  | Raise e => (Raise e, self)
  | Ok true => (Ok tt, self)
  | Ok false =>
    match handleIslet self packet with
    | (Raise e, self1) => (Raise e, self1)
    | (Ok true, self1) => (Ok tt, self1)
    | (Ok false, self1) =>
      match handleShutdown self1 packet with
      | (true, self2) => (Ok tt, self2)
      | (false, self2) =>
          let reply := PacketOps.createReply packet
            (VDict [("exception", VExc (mkExc PlainException "Packet dropped: No takers."))]) in
          (Ok tt, self2)
      end
    end
  end.

(** The loop of [__handleIncomingPackets]: poll, handle, repeat until the
    queue is empty.  [None] stands for fuel exhausted. *)
Fixpoint incoming_loop (fuel : nat) (self : Isle) : option (result unit * Isle) :=
  match fuel with
  | O => None
  | S fuel' =>
    match ConnectionOps.ownerReceive (connection self) with
    | (None, _) => Some (Ok tt, self)
    | (Some packet, conn') =>
      match handle_one (with_connection self conn') packet with
      | (Raise e, self1) => Some (Raise e, self1)
      | (Ok _, self1) => incoming_loop fuel' self1
      end
    end
  end.

(** No handler puts anything on the inbound queue, so one iteration per
    queued packet and a last empty poll are enough. *)
Definition handleIncomingPackets (self : Isle) : option (result unit * Isle) :=
  incoming_loop (S (length (toOwner (connection self)))) self.

End IsleOps.

(** ** The event loop and request/response

    The isle shares its inbound queue with the manager thread.  Between two
    polls the isle sleeps ([threadContextSwitch]); the packets the manager
    delivers meanwhile are the [arrivals] of that iteration.  Clock readings
    are integers in the unit of the timeout. *)

Record tick : Type := mkTick {
  now : Z;
  arrivals : list Packet
}.

Definition deliver (self : Isle) (ps : list Packet) : Isle :=
  with_connection self
    (mkConnection (toRouter (connection self)) (toOwner (connection self) ++ ps)).

Module EventLoop.

(** A task of the event loop: a method of the isle, run on its state.
    [None]: the call does not return. *)
Definition task : Type := Isle -> option (result unit * Isle).

(** What a subclass puts around the handling of packets: its [loop], the
    tasks it appends to [eventlooptasks], which then stand behind the sleep
    (a Peer appends its [peerloop]), and its [shutdown]. *)
Record hooks : Type := mkHooks {
  hook_loop : task;
  hook_appended : list task;
  hook_shutdown : task
}.

(** The methods of [Isle] itself: [pass]. *)
Definition pass : task := fun self => Some (Ok tt, self).

Definition plain : hooks := mkHooks pass [] pass.

(** Tasks run in order; a task that raises ends the run. *)
Fixpoint run_tasks (tasks : list task) (self : Isle) : option (result unit * Isle) :=
  match tasks with
  | [] => Some (Ok tt, self)
  | t :: tasks' =>
      match t self with
      | Some (Ok _, self1) => run_tasks tasks' self1
      | other => other
      end
  end.

(** [while self.running: for task in self.eventlooptasks: task()], then
    [self.shutdown()].  The tasks of a pass are [loop],
    [__handleIncomingPackets], the sleep, during which the packets of the
    schedule arrive, and the appended tasks.  An error raised by a task
    leaves the loop, and [shutdown] is not called.  [None]: still running
    when the schedule ends, or a task did not return. *)
Fixpoint eventloop_from (h : hooks) (sched : list (list Packet)) (self : Isle)
    : option (result unit * Isle) :=
  if running self then
    match sched with
    | [] => None
    | arrived :: sched' =>
      match hook_loop h self with
      | None => None
      | Some (Raise e, self1) => Some (Raise e, self1)
      | Some (Ok _, self1) =>
        match IsleOps.handleIncomingPackets self1 with
        | None => None
        | Some (Raise e, self2) => Some (Raise e, self2)
        | Some (Ok _, self2) =>
          match run_tasks (hook_appended h) (deliver self2 arrived) with
          | None => None
          | Some (Raise e, self3) => Some (Raise e, self3)
          | Some (Ok _, self3) => eventloop_from h sched' self3
          end
        end
      end
    end
  else hook_shutdown h self.

(** [eventloop] of an isle whose class has the hooks [h]. *)
Definition eventloop_with (h : hooks) (sched : list (list Packet)) (self : Isle)
    : option (result unit * Isle) :=
  eventloop_from h sched (with_running self true).

(** [eventloop] of an isle that overrides neither [loop] nor [shutdown]
    and appends no task, like the isles of the test suite. *)
Definition eventloop (sched : list (list Packet)) (self : Isle)
    : option (result unit * Isle) :=
  eventloop_with plain sched self.

End EventLoop.

Section Rendering.

(** [str(v)] as an f-string renders it; a built-in of the language, taken
    as given. *)
Variable py_str : value -> string.

Definition timeout_message (self : Isle) (ident : string) (receiver : value) : string :=
  ("Packet timeout: isle " ++ isle_identifier self ++ ", identifier " ++ ident
     ++ ", to " ++ py_str receiver)%string.

(** What a matching reply does to the caller. *)
Definition reply_outcome (receivedPacket : Packet) : result value :=
  has_return <- py_contains "return" (data receivedPacket) ;;
  if has_return then py_getitem (data receivedPacket) "return"
  else
    has_exception <- py_contains "exception" (data receivedPacket) ;;
    if has_exception then
      e <- py_getitem (data receivedPacket) "exception" ;;
      match e with
      | VExc e' => Raise e'
      | _ => Raise (mkExc TypeError "exceptions must derive from BaseException")
      end
    else Raise (mkExc PlainException "Malformed packet received!").

(** The [while True] loop of [requestResponse].  The answer [None] says
    the schedule ended while the caller was still waiting. *)
Fixpoint rr_loop (sched : list tick) (self : Isle) (ident : string)
    (receiver : value) (deadline : Z) : option (result value) * Isle :=
  match sched with
  | [] => (None, self)
  | t :: sched' =>
    if (deadline <? now t)%Z then
      (Some (Raise (mkExc TimeoutError (timeout_message self ident receiver))), self)
    else
      match ConnectionOps.ownerReceive (connection self) with
      | (Some receivedPacket, conn') =>
        if String.eqb (identifier receivedPacket) ident then
          (Some (reply_outcome receivedPacket), with_connection self conn')
        else
          rr_loop sched'
            (deliver (with_connection self (ConnectionOps.routerSend conn' receivedPacket))
                     (arrivals t))
            ident receiver deadline
      | (None, _) =>
          rr_loop sched' (deliver self (arrivals t)) ident receiver deadline
      end
  end.

(** [Isle.requestResponse]; [timestamp] is the clock reading taken right
    after the packet is sent. *)
Definition requestResponse (self : Isle) (packet : Packet) (timeout : Z)
    (timestamp : Z) (sched : list tick) : option (result value) * Isle :=
  let receiver := receiver packet in
  let '(ident, self1) := IsleOps.sendPacket self packet in
  rr_loop sched self1 ident receiver (timestamp + timeout)%Z.

Definition default_timeout : Z := 3.

(** ** SugarCall: the call proxy

    [owner] is a reference to the isle; its state is passed in where the
    proxy is finally called. *)

Record SugarCall : Type := mkSugarCall { sugar_route : list string }.

(** [__getattr__]: [[route] + self.route] *)
Definition sugar_getattr (self : SugarCall) (name : string) : SugarCall :=
  mkSugarCall ([name] ++ sugar_route self).




(** [__call__]; positional arguments arrive as a tuple. *)
Definition sugar_call (self : SugarCall) (owner : Isle) (fresh : string)
    (args : list value) (kwargs : list (string * value))
    (timestamp : Z) (sched : list tick) : option (result value) * Isle :=
  match IsleOps.createPacket owner fresh (VList (map VStr (sugar_route self)))
          (VDict [("args", VTuple args); ("kwargs", VDict kwargs)]) with
  | Raise e => (Some (Raise e), owner)
  | Ok packet => requestResponse owner packet default_timeout timestamp sched
  end.

End Rendering.

(** The proxy every isle starts with: [SugarCall([], self)]. *)
Definition call : SugarCall := mkSugarCall [].

(** ** IsleManager: membership and the shutdown sequence *)

(** A thread, as [Thread(target=isleInstance.eventloop, name=...)] makes
    it, known by the isle whose event loop it runs.  The name it is given
    (the identifier, or a name the threading module generates when the
    identifier is empty) is read nowhere in the program and is left out. *)
Record Thread : Type := mkThread { thread_target : string }.

(** One value of [self.isles]: [{"connection": ..., "thread": ...}]. *)
Record entry : Type := mkEntry {
  entry_connection : Connection;
  entry_thread : option Thread
}.

(** [joined] is the trace of the threads [join] was called on and returned
    from, in order; [logfile] is what has been appended to log.txt.
    [open_fails] is the file system as the manager meets it: one entry for
    each coming call of [open("log.txt", 'a')], [true] when that call raises
    PermissionError; when no entry is left the call succeeds. *)
Record IsleManager : Type := mkIsleManager {
  mgr_identifier : string;
  isles : list (string * entry);
  mgr_running : bool;
  islesToBeAdded : list Isle;
  logbuffer : list Packet;
  logfile : list Packet;
  joined : list string;
  open_fails : list bool
}.

(** [d[k] = v] on an insertion-ordered dictionary. *)
Fixpoint isles_set (d : list (string * entry)) (k : string) (v : entry) : list (string * entry) :=
  match d with
  | [] => [(k, v)]
  | (k', v') :: d' =>
      if String.eqb k' k then (k', v) :: d' else (k', v') :: isles_set d' k v
  end.

Fixpoint isles_get (d : list (string * entry)) (k : string) : option entry :=
  match d with
  | [] => None
  | (k', v) :: d' => if String.eqb k' k then Some v else isles_get d' k
  end.

(** [del d[k]] *)
Fixpoint isles_del (d : list (string * entry)) (k : string) : result (list (string * entry)) :=
  match d with
  | [] => Raise (mkExc KeyError k)
  | (k', v') :: d' =>
      if String.eqb k' k then Ok d'
      else d'' <- isles_del d' k ;; Ok ((k', v') :: d'')
  end.

Module ManagerOps.

Definition with_isles (self : IsleManager) (d : list (string * entry)) : IsleManager :=
  mkIsleManager (mgr_identifier self) d (mgr_running self) (islesToBeAdded self)
                (logbuffer self) (logfile self) (joined self) (open_fails self).

Definition init : IsleManager :=
  mkIsleManager "islemanager" [] false [] [] [] [] [].

(** [addIsle]: the isle is registered with a started thread that runs its
    event loop. *)
Definition addIsle (self : IsleManager) (isleInstance : Isle) : IsleManager :=
  let thread := mkThread (isle_identifier isleInstance) in
  with_isles self
    (isles_set (isles self) (isle_identifier isleInstance)
       (mkEntry (connection isleInstance) (Some thread))).

(** [IsleManager.createPacket]: the sender is the bare identifier string. *)
Definition createPacket (self : IsleManager) (fresh : string) (receiver data : value) : Packet :=
  PacketOps.init fresh (VStr (mgr_identifier self)) receiver data None.

Definition writeToLogBuffer (self : IsleManager) (packet : Packet) : IsleManager :=
  mkIsleManager (mgr_identifier self) (isles self) (mgr_running self) (islesToBeAdded self)
                (logbuffer self ++ [packet]) (logfile self) (joined self) (open_fails self).

(** [writeLogBufferToFile]: when the file opens, the buffer is appended to
    it and emptied; when [open] raises PermissionError the error is caught,
    and buffer and file stay as they are. *)
Definition writeLogBufferToFile (self : IsleManager) : IsleManager :=
  match open_fails self with
  | true :: later =>
      mkIsleManager (mgr_identifier self) (isles self) (mgr_running self)
                    (islesToBeAdded self) (logbuffer self) (logfile self) (joined self) later
  | _ =>
      mkIsleManager (mgr_identifier self) (isles self) (mgr_running self)
                    (islesToBeAdded self) [] (logfile self ++ logbuffer self) (joined self)
                    (tl (open_fails self))
  end.

(** First loop of [stop]: one shutdown packet per key of [self.isles];
    [fresh n] is the identifier drawn for the [n]-th packet. *)
Fixpoint send_shutdowns (keys : list string) (n : nat) (fresh : nat -> string)
    (self : IsleManager) : IsleManager :=
  match keys with
  | [] => self
  | isle :: keys' =>
      let packet := createPacket self (fresh n) (VStr isle) (VStr "shutdown") in
      let self1 := writeToLogBuffer self packet in
      let self2 :=
        match isles_get (isles self1) isle with
        | Some e =>
            with_isles self1
              (isles_set (isles self1) isle
                 (mkEntry (ConnectionOps.routerSend (entry_connection e) packet)
                          (entry_thread e)))
        | None => self1
        end in
      send_shutdowns keys' (S n) fresh self2
  end.

Section Joining.

(** Whether the thread ends: a call of [join] on it returns when it has
    ended, and never if it does not end. *)
Variable ends : Thread -> bool.

(** [self.isles[isle]["thread"].join()]: [None] has no attribute [join].
    The answer [None] says the call does not return. *)
Definition join_thread (self : IsleManager) (isle : string) : option (result IsleManager) :=
  match isles_get (isles self) isle with
  | None => Some (Raise (mkExc KeyError isle))
  | Some e =>
      match entry_thread e with
      | None =>
          Some (Raise (mkExc AttributeError "'NoneType' object has no attribute 'join'"))
      | Some t =>
          if ends t then
            Some (Ok (mkIsleManager (mgr_identifier self) (isles self) (mgr_running self)
                        (islesToBeAdded self) (logbuffer self) (logfile self)
                        (joined self ++ [thread_target t]) (open_fails self)))
          else None
      end
  end.

(** Second loop of [stop].  The state reached when [join] raises, or does
    not return, is kept. *)
Fixpoint join_all (keys : list string) (self : IsleManager)
    : option (result unit) * IsleManager :=
  match keys with
  | [] => (Some (Ok tt), self)
  | isle :: keys' =>
      match join_thread self isle with
      | None => (None, self)
      | Some (Raise e) => (Some (Raise e), self)
      | Some (Ok self1) => join_all keys' self1
      end
  end.

(** [stop]; [None]: the sequence waits for a thread that does not end. *)
Definition stop (fresh : nat -> string) (self : IsleManager)
    : option (result unit) * IsleManager :=
  let self1 := writeLogBufferToFile self in
  let self2 := send_shutdowns (map fst (isles self1)) 0 fresh self1 in
  let self3 := writeLogBufferToFile self2 in
  join_all (map fst (isles self3)) self3.

End Joining.

(** [TempIsle]: an isle with a drawn identifier that registers itself with
    no thread.  The lock it takes serialises it with the routing loop and
    does not show in a sequential run. *)
Definition TempIsle_init (fresh : string) : Isle := IsleOps.init [] fresh None.

Definition TempIsle_enter (temp : Isle) (self : IsleManager) : IsleManager :=
  with_isles self
    (isles_set (isles self) (isle_identifier temp) (mkEntry (connection temp) None)).

Definition TempIsle_exit (temp : Isle) (self : IsleManager) : result IsleManager :=
  d <- isles_del (isles self) (isle_identifier temp) ;;
  Ok (with_isles self d).

(** The membership maps a manager can hold: built from the empty one by
    [addIsle] and by temporary isles entering and leaving. *)
Inductive reachable : IsleManager -> Prop :=
| reach_init : reachable init
| reach_add self isleInstance :
    reachable self -> reachable (addIsle self isleInstance)
| reach_enter self fresh :
    reachable self -> reachable (TempIsle_enter (TempIsle_init fresh) self)
| reach_exit self temp self' :
    reachable self -> TempIsle_exit temp self = Ok self' -> reachable self'.

End ManagerOps.

(** ** Server: the listening socket *)

Record Socket : Type := mkSocket {
  bound_to : option (string * Z);
  listening : bool
}.

Record Server : Type := mkServer {
  server_isle : Isle;
  host : string;
  port : Z;
  server_socket : Socket
}.

Module ServerOps.

Definition socket_new : Socket := mkSocket None false.
Definition socket_bind (s : Socket) (address : string * Z) : Socket :=
  mkSocket (Some address) (listening s).
Definition socket_listen (s : Socket) : Socket :=
  mkSocket (bound_to s) true.

(** [Server.__init__(identifier, host='127.0.0.1', port=44168, peer=Peer)];
    an omitted argument is [None] here.  The body stores [44168] in
    [self.port] whatever [port] is. *)
Definition init (surface : list (string * attribute)) (identifier : string)
    (host_arg : option string) (port_arg : option Z) : Server :=
  let host := match host_arg with Some h => h | None => "127.0.0.1" end in
  let port := match port_arg with Some p => p | None => 44168%Z end in
  let self_host := host in
  let self_port := 44168%Z in
  let s := socket_listen (socket_bind socket_new (self_host, self_port)) in
  mkServer (IsleOps.init surface EmptyString (Some identifier)) self_host self_port s.

End ServerOps.

(** ** Fixtures

    The isle of tests/test_Isle.py, with one more exposed handler that
    divides, and the packets used below. *)

Module Fixtures.

Local Open Scope Z_scope.

Definition arity_error : exc := mkExc TypeError "wrong arguments".

Definition add : handler := fun args kwargs =>
  match args, kwargs with
  | [VInt a; VInt b], [] => Ok (VInt (a + b))
  | _, _ => Raise arity_error
  end.

Definition sub : handler := fun args kwargs =>
  match args, kwargs with
  | [VInt a; VInt b], [] => Ok (VInt (a - b))
  | _, _ => Raise arity_error
  end.

(** [return a // b]: dividing by zero raises ZeroDivisionError. *)
Definition div : handler := fun args kwargs =>
  match args, kwargs with
  | [VInt a; VInt b], [] =>
      if b =? 0 then Raise (mkExc ZeroDivisionError "integer division or modulo by zero")
      else Ok (VInt (a / b))
  | _, _ => Raise arity_error
  end.

(** An undecorated method of the same class. *)
Definition secret : handler := fun _ _ => Ok (VStr "hidden").

Definition MyIsle_surface : list (string * attribute) :=
  [ ("add", route add); ("div", route div);
    ("secret", plain_method secret); ("sub", route sub) ].

Definition MyIsle : Isle := IsleOps.init MyIsle_surface "0f0f" (Some "eiland").

Definition request (ident : string) (path : list string) (args : list value) : Packet :=
  mkPacket ident (VList [VStr "Santa"]) (VList (map VStr path))
           (VDict [("args", VTuple args); ("kwargs", VDict [])]).

(** The packet of [TestIsle.setUp]. *)
Definition test_packet : Packet :=
  mkPacket "packetidentifier" (VList [VStr "eiland"]) (VList [VStr "Santa"])
           (VDict [("abc", VInt 123)]).

(** A packet addressed to the exposed handler [add] of the isle eiland,
    with the data of [test_packet]. *)
Definition shapeless : Packet :=
  mkPacket "r2" (VList [VStr "Santa"]) (VList [VStr "add"; VStr "eiland"])
           (VDict [("abc", VInt 123)]).

(** [packetA] of tests/test_Packet.py. *)
Definition packetA : Packet :=
  mkPacket "Spam" (VList [VStr "Alice"]) (VList [VStr "Bob"])
           (VDict [("a", VInt 1); ("b", VInt 2);
                   ("c", VList [VInt 3; VInt 4; VInt 5])]).


Definition show_path (v : value) : string :=
  match v with
  | VList [VStr a] => ("['" ++ a ++ "']")%string
  | _ => "<path>"
  end.

(** The isle of example_tempisles.py and the membership while a foreign
    thread is inside its [with] block. *)
Definition gibson : Isle := IsleOps.init [] "a1" (Some "gibson").

Definition with_temp : IsleManager :=
  ManagerOps.TempIsle_enter (ManagerOps.TempIsle_init "7c9e")
    (ManagerOps.addIsle ManagerOps.init gibson).

(** An isle with packets waiting in its inbound queue, and what a run
    left in its outbound queue. *)
Definition inbox (self : Isle) (ps : list Packet) : Isle := deliver self ps.

Definition sent (r : option (result unit * Isle)) : option (list Packet) :=
  option_map (fun x => toRouter (connection (snd x))) r.

End Fixtures.

(** ** Vocabulary of the statements *)

(** A payload the JSON text carries back with the same shape: no tuple,
    no exception object; the keys of a dictionary are pairwise distinct, as
    those of any dictionary are. *)
Fixpoint distinct (keys : list string) : bool :=
  match keys with
  | [] => true
  | k :: keys' => negb (existsb (String.eqb k) keys') && distinct keys'
  end.

Fixpoint json_typed (v : value) : bool :=
  match v with
  | VNone | VBool _ | VInt _ | VStr _ | VFloat _ => true
  | VList l => forallb json_typed l
  | VDict d => distinct (map fst d) && forallb (fun kv => json_typed (snd kv)) d
  | VTuple _ | VExc _ => false
  end.





(** A plaintext cut at its zeros: [plain] puts the zero back after each
    block, [frame] puts the length byte in front of each block. *)
Fixpoint blocks_of (cur : list Z) (s : list Z) : list (list Z) :=
  match s with
  | [] => []
  | x :: s' =>
      if (x =? 0)%Z then cur :: blocks_of [] s'
      else blocks_of (cur ++ [x]) s'
  end.

Definition zero_free (b : list Z) : Prop := Forall (fun x => x <> 0%Z) b.

Definition plain (blocks : list (list Z)) : list Z :=
  concat (map (fun b => b ++ [0%Z]) blocks).

Definition frame (blocks : list (list Z)) : list Z :=
  concat (map (fun b => (Z.of_nat (length b) + 1)%Z :: b) blocks).

(** The first character of a printed value: never white space, a
    closing bracket, a closing brace or a comma. *)
Definition value_start (c : ascii) : bool :=
  Ascii.eqb c JSON.dquote || Ascii.eqb c "[" || Ascii.eqb c "{" || Ascii.eqb c "n"
  || Ascii.eqb c "t" || Ascii.eqb c "f" || Ascii.eqb c "N" || Ascii.eqb c "I"
  || Ascii.eqb c "-" || JSON.is_digit c.

Definition head_ok (t : list ascii) : Prop :=
  match t with
  | c :: _ => value_start c = true
  | [] => False
  end.

(** What may follow a printed value: the end of the text, a comma, a
    closing bracket or a closing brace. *)
Definition ends_value (rest : list ascii) : Prop :=
  match rest with
  | [] => True
  | c :: _ => (c = "," \/ c = "]" \/ c = "}")%char
  end.

Definition no_digit_head (rest : list ascii) : Prop :=
  match rest with
  | [] => True
  | c :: _ => JSON.digit_of c = None
  end.

(** The text [t] of [v] is read back as [v], whatever follows it. *)
Definition parses_back (v : value) (t : list ascii) : Prop :=
  head_ok t /\
  forall fuel rest,
    (length t <= fuel)%nat -> ends_value rest ->
    JSON.parse_value fuel (t ++ rest) = Some (Ok (v, rest)).

(** A typed value has a text, and the text is read back as the value. *)
Definition reads_back (v : value) : Prop :=
  json_typed v = true -> exists t, JSON.encode v = Ok t /\ parses_back v t.

(** [__handleIslet] called a handler: the trace grew by one call. *)
Definition dispatched (self : Isle) (packet : Packet) : Prop :=
  exists c, calls (snd (IsleOps.handleIslet self packet)) = calls self ++ [c].







Definition within (deadline : Z) (ticks : list tick) : Prop :=
  Forall (fun t => (now t <= deadline)%Z) ticks.

Definition unrelated (ident : string) (ps : list Packet) : Prop :=
  Forall (fun p => identifier p <> ident) ps.

(** * Further models: wire format, peers, membership and routing *)

(** The bytes [0x20 .. 0x7e]: printable ASCII. *)
Definition printable (b : Z) : bool := ((32 <=? b) && (b <=? 126))%Z.

Definition printable_char (c : ascii) : bool := printable (JSON.code c).

(** An exception object sits somewhere inside [v]. *)
Fixpoint has_exception (v : value) : bool :=
  match v with
  | VExc _ => true
  | VList l | VTuple l => existsb has_exception l
  | VDict d => existsb (fun kv => has_exception (snd kv)) d
  | VNone | VBool _ | VInt _ | VStr _ | VFloat _ => false
  end.

(** [v] with every tuple replaced by the list of its items. *)
Fixpoint listify (v : value) : value :=
  match v with
  | VList l | VTuple l => VList (map listify l)
  | VDict d => VDict (map (fun kv => (fst kv, listify (snd kv))) d)
  | VNone | VBool _ | VInt _ | VStr _ | VExc _ | VFloat _ => v
  end.

(** The keys of every dictionary inside [v] are pairwise distinct. *)
Fixpoint keys_distinct (v : value) : bool :=
  match v with
  | VList l | VTuple l => forallb keys_distinct l
  | VDict d => distinct (map fst d) && forallb (fun kv => keys_distinct (snd kv)) d
  | VNone | VBool _ | VInt _ | VStr _ | VExc _ | VFloat _ => true
  end.

(** What the JSON text carries: no exception object, and dictionaries
    whose keys are pairwise distinct. *)
Definition portable (v : value) : bool := negb (has_exception v) && keys_distinct v.

Definition portable_packet (p : Packet) : bool :=
  portable (sender p) && portable (receiver p) && portable (data p).

Definition listify_packet (p : Packet) : Packet :=
  mkPacket (identifier p) (listify (sender p)) (listify (receiver p)) (listify (data p)).

(** ** Peer: the buffers between packets and the socket *)

Record Peer : Type := mkPeer {
  peer_isle : Isle;
  rxBuffer : py_bytes;
  txBuffer : py_bytes
}.

Module PeerOps.

Local Open Scope Z_scope.

(** [self.txBuffer += self.COBS_encode(packet.toBytes() + b'\x00')] *)
Definition addPacketToTXBuffer (self : Peer) (packet : Packet) : option (result Peer) :=
  match PacketOps.toBytes packet with
  | Raise e => Some (Raise e)
  | Ok bytes =>
      match COBS.COBS_encode (bytes ++ [0]) with
      | Some (Ok coded) =>
          Some (Ok (mkPeer (peer_isle self) (rxBuffer self) (txBuffer self ++ coded)))
      | Some (Raise e) => Some (Raise e)
      | None => None
      end
  end.

(** [socketSend]: the socket is offered the first 4096 bytes of the buffer
    at most and takes [accepted] of them at most; the answer is the number
    of bytes taken, with the bytes that went out. *)
Definition socketSend (self : Peer) (accepted : nat) : nat * py_bytes * Peer :=
  let offered := firstn (Nat.min (length (txBuffer self)) 4096) (txBuffer self) in
  let sent := Nat.min accepted (length offered) in
  (sent, firstn sent offered,
   mkPeer (peer_isle self) (rxBuffer self) (skipn sent (txBuffer self))).

(** [socketReceive]: [recv(4096)] hands over at most 4096 of the bytes
    that [arrived]. *)
Definition socketReceive (self : Peer) (arrived : py_bytes) : nat * Peer :=
  let data := firstn 4096 arrived in
  (length data, mkPeer (peer_isle self) (rxBuffer self ++ data) (txBuffer self)).

(** [b.split(b'\x00', maxsplit=1)] for a [b] that holds a zero: what
    stands before the first zero, and what stands after it. *)
Fixpoint split_at_zero (b : py_bytes) : option (py_bytes * py_bytes) :=
  match b with
  | [] => None
  | x :: b' =>
      if x =? 0 then Some ([], b')
      else match split_at_zero b' with
           | Some (head, tail) => Some (x :: head, tail)
           | None => None
           end
  end.

(** [readPacketFromRXBuffer].  The buffer is cut before the frame is
    decoded; the literal the code appends is [b'x\00'], the letter x and a
    zero byte, and [[:-1]] drops the last byte of what the decoder returns. *)
Definition readPacketFromRXBuffer (fresh : string) (self : Peer)
    : option (result (option Packet)) * Peer :=
  match split_at_zero (rxBuffer self) with
  | Some (rawPacket, rest) =>
      let self1 := mkPeer (peer_isle self) rest (txBuffer self) in
      match COBS.COBS_decode (rawPacket ++ [120; 0]) with
      | Raise e => (Some (Raise e), self1)
      | Ok decoded =>
          match PacketOps.createFromBytes fresh (removelast decoded) with
          | Some (Ok packet) => (Some (Ok (Some packet)), self1)
          | Some (Raise e) => (Some (Raise e), self1)
          | None => (None, self1)
          end
      end
  | None => (Some (Ok None), self)
  end.

End PeerOps.

(** Two peers joined by a socket: at each step the sending side calls
    [socketSend], the socket takes the number of bytes listed for that step,
    and the receiving side calls [socketReceive] on what went out. *)
Fixpoint transfer (accepts : list nat) (sending receiving : Peer) : Peer * Peer :=
  match accepts with
  | [] => (sending, receiving)
  | accepted :: accepts' =>
      let '(_, out, sending1) := PeerOps.socketSend sending accepted in
      let '(_, receiving1) := PeerOps.socketReceive receiving out in
      transfer accepts' sending1 receiving1
  end.

(** The packet [stop] sends to the member [isle]: the receiver is the bare
    key, the sender the bare identifier of the manager. *)
Definition shutdown_packet (self : IsleManager) (ident isle : string) : Packet :=
  mkPacket ident (VStr (mgr_identifier self)) (VStr isle) (VStr "shutdown").

(** The entry [after] is the entry [before] with one more packet in the
    queue towards its owner. *)
Definition got_packet (packet : Packet) (before after : entry) : Prop :=
  entry_thread after = entry_thread before /\
  toRouter (entry_connection after) = toRouter (entry_connection before) /\
  toOwner (entry_connection after) = toOwner (entry_connection before) ++ [packet].

(** A member [join] returns from: it has a thread, and the thread ends. *)
Definition joinable (ends : Thread -> bool) (kv : string * entry) : Prop :=
  exists t, entry_thread (snd kv) = Some t /\ ends t = true.

(** Going through the members in order, a thread that does not end is
    met before any member without a thread. *)
Fixpoint waits_for_ever (ends : Thread -> bool) (d : list (string * entry)) : Prop :=
  match d with
  | [] => False
  | kv :: d' =>
      match entry_thread (snd kv) with
      | None => False
      | Some t => if ends t then waits_for_ever ends d' else True
      end
  end.

(** The threads of a membership map, each by the isle it runs, in the
    order of the keys. *)
Definition thread_names (d : list (string * entry)) : list string :=
  flat_map (fun kv => match entry_thread (snd kv) with
                      | Some t => [thread_target t]
                      | None => []
                      end) d.

(** [reply] is what [__handleIslet] owes the request [p] on an isle with
    the route table [rs]: the packet with the identifier of [p] and its two
    paths swapped, carrying what the handler returned, or the TypeError it
    raised. *)
Definition answers (rs : list (string * handler)) (p reply : Packet) : Prop :=
  py_contains "return" (data p) = Ok false /\
  exists name f a args k kwargs,
    py_len (receiver p) = Ok 2%nat /\
    py_item_from_end (receiver p) 2 = Ok (VStr name) /\
    routes_get rs name = Some f /\
    py_getitem (data p) "args" = Ok a /\ py_unpack_args a = Ok args /\
    py_getitem (data p) "kwargs" = Ok k /\ py_unpack_kwargs k = Ok kwargs /\
    ((exists v, f args kwargs = Ok v /\
                reply = mkPacket (identifier p) (receiver p) (sender p)
                                 (VDict [("return", v)])) \/
     (exists e, f args kwargs = Raise e /\ exc_kind_of e = TypeError /\
                reply = mkPacket (identifier p) (receiver p) (sender p)
                                 (VDict [("exception", VExc e)]))).

(** ** IsleManager: the routing loop *)

(** Whether [v] can be hashed, as a key looked up in a dictionary must be:
    lists and dictionaries cannot, a tuple can when its items can.  The
    TypeError of a failed lookup is kept with the start of its message
    only; Python goes on to name the type. *)
Fixpoint hashable (v : value) : bool :=
  match v with
  | VList _ | VDict _ => false
  | VTuple l => forallb hashable l
  | VNone | VBool _ | VInt _ | VStr _ | VExc _ | VFloat _ => true
  end.

Module RouterOps.

Section Routing.

(** [str(v)], as the f-string of the KeyError message renders the last hop. *)
Variable py_str : value -> string.

Definition with_mgr_running (self : IsleManager) (r : bool) : IsleManager :=
  mkIsleManager (mgr_identifier self) (isles self) r (islesToBeAdded self)
                (logbuffer self) (logfile self) (joined self) (open_fails self).

(** [handlePacket].  The isle of an [addIsle] command is a live object,
    which no value of the model stands for: such a command leaves the model
    ([None]) once its ["isle"] key is found. *)
Definition handlePacket (self : IsleManager) (packet : Packet)
    : option (result unit) * IsleManager :=
  match py_contains "command" (data packet) with
  | Raise e => (Some (Raise e), self)
  | Ok false => (Some (Ok tt), self)
  | Ok true =>
      match py_getitem (data packet) "command" with
      | Raise e => (Some (Raise e), self)
      | Ok command =>
          if is_str "shutdown" command then (Some (Ok tt), with_mgr_running self false)
          else if is_str "addIsle" command then
            match py_getitem (data packet) "isle" with
            | Raise e => (Some (Raise e), self)
            | Ok _ => (None, self)
            end
          else (Some (Ok tt), self)
      end
  end.

(** [self.isles[key]["connection"].routerSend(packet)] *)
Definition router_send (self : IsleManager) (key : string) (packet : Packet) : IsleManager :=
  match isles_get (isles self) key with
  | Some e =>
      ManagerOps.with_isles self
        (isles_set (isles self) key
           (mkEntry (ConnectionOps.routerSend (entry_connection e) packet) (entry_thread e)))
  | None => self
  end.

(** The reply to a packet nobody can take: [createReply] with a KeyError,
    then [reply.sender = [self.identifier]]. *)
Definition unknown_receiver (self : IsleManager) (packet : Packet) (last : value) : Packet :=
  let reply :=
    PacketOps.createReply packet
      (VDict [("exception",
               VExc (mkExc KeyError (py_str last ++ " does not exist (anymore)")))]) in
  mkPacket (identifier reply) (VList [VStr (mgr_identifier self)]) (receiver reply) (data reply).

(** The body of the [while] loop of [eventloop], for a [packet] taken from
    the connection of [isle]. *)
Definition route_packet (self : IsleManager) (isle : string) (packet : Packet)
    : option (result unit) * IsleManager :=
  let self1 := ManagerOps.writeToLogBuffer self packet in
  match py_contains "exception" (data packet) with
  | Raise e => (Some (Raise e), self1)
  | Ok has_exception =>
    let self2 := if has_exception then ManagerOps.writeLogBufferToFile self1 else self1 in
    match py_item_from_end (receiver packet) 1 with
    | Raise e => (Some (Raise e), self2)
    | Ok last =>
      if is_str (mgr_identifier self2) last then handlePacket self2 packet
      else
        let bounce :=
          let reply := unknown_receiver self2 packet last in
          (Some (Ok tt), router_send (ManagerOps.writeToLogBuffer self2 reply) isle reply) in
        match last with
        | VStr name =>
            match isles_get (isles self2) name with
            | Some _ => (Some (Ok tt), router_send self2 name packet)
            | None => bounce
            end
        | _ =>
            if hashable last then bounce
            else (Some (Raise (mkExc TypeError "unhashable type")), self2)
        end
    end
  end.

(** [while (packet := connection.routerReceive()): ...] on the connection of
    [isle]; [None] stands for fuel exhausted. *)
Fixpoint drain (fuel : nat) (isle : string) (self : IsleManager)
    : option (result unit) * IsleManager :=
  match fuel with
  | O => (None, self)
  | S fuel' =>
    match isles_get (isles self) isle with
    | None => (Some (Raise (mkExc KeyError isle)), self)
    | Some e =>
      match ConnectionOps.routerReceive (entry_connection e) with
      | (None, _) => (Some (Ok tt), self)
      | (Some packet, conn') =>
        let self1 :=
          ManagerOps.with_isles self
            (isles_set (isles self) isle (mkEntry conn' (entry_thread e))) in
        match route_packet self1 isle packet with
        | (Some (Ok _), self2) => drain fuel' isle self2
        | other => other
        end
      end
    end
  end.

(** The body of [for isle in self.isles]: the queue of [isle] is emptied,
    then the log buffer is written out.  Routing puts nothing on a queue
    towards the router, so one iteration per waiting packet and a last empty
    poll are fuel enough. *)
Definition visit (isle : string) (self : IsleManager) : option (result unit) * IsleManager :=
  let waiting :=
    match isles_get (isles self) isle with
    | Some e => length (toRouter (entry_connection e))
    | None => O
    end in
  match drain (S waiting) isle self with
  | (Some (Ok _), self1) => (Some (Ok tt), ManagerOps.writeLogBufferToFile self1)
  | other => other
  end.

Fixpoint visit_all (keys : list string) (self : IsleManager)
    : option (result unit) * IsleManager :=
  match keys with
  | [] => (Some (Ok tt), self)
  | isle :: keys' =>
      match visit isle self with
      | (Some (Ok _), self1) => visit_all keys' self1
      | other => other
      end
  end.

(** One turn of [while self.running] in [eventloop], up to the sleep: every
    member is visited in the order of the keys, then the isles waiting to be
    added are added and their list is cleared.  The turn is taken on its
    own: what the threads of the isles put on their queues meanwhile is
    part of the state the next turn starts from. *)
Definition eventloop_pass (self : IsleManager) : option (result unit) * IsleManager :=
  match visit_all (map fst (isles self)) self with
  | (Some (Ok _), self1) =>
      let self2 := fold_left ManagerOps.addIsle (islesToBeAdded self1) self1 in
      (Some (Ok tt),
       mkIsleManager (mgr_identifier self2) (isles self2) (mgr_running self2) []
                     (logbuffer self2) (logfile self2) (joined self2) (open_fails self2))
  | other => other
  end.

End Routing.

End RouterOps.

(** The last hop of the receiver of a packet, when it is a string. *)
Definition destination (p : Packet) : option string :=
  match py_item_from_end (receiver p) 1 with
  | Ok (VStr name) => Some name
  | _ => None
  end.

(** The packets waiting in the queues towards the router, each with the
    key of its queue, in the order the routing loop takes them. *)
Definition traffic (d : list (string * entry)) : list (string * Packet) :=
  flat_map (fun kv => map (pair (fst kv)) (toRouter (entry_connection (snd kv)))) d.

Definition addressed_to (k : string) (p : Packet) : bool :=
  match destination p with
  | Some name => String.eqb name k
  | None => false
  end.

(** A packet the manager can pass on: its data can be searched for a key,
    and its last hop names a member, not the manager. *)
Definition routable (self : IsleManager) (p : Packet) : bool :=
  match py_contains "exception" (data p), destination p with
  | Ok _, Some name =>
      negb (String.eqb name (mgr_identifier self))
      && match isles_get (isles self) name with Some _ => true | None => false end
  | _, _ => false
  end.

(** [data["command"] == name], for a dictionary. *)
Definition is_command (name : string) (p : Packet) : bool :=
  match data p with
  | VDict dd =>
      match dict_get dd "command" with
      | Some c => is_str name c
      | None => false
      end
  | _ => false
  end.

(** A packet the routing loop deals with: its last hop is a string; when
    that is the manager itself, its data is a dictionary without a command
    to add an isle; otherwise its data can be searched for a key. *)
Definition understood (self : IsleManager) (p : Packet) : bool :=
  match destination p with
  | Some name =>
      if String.eqb name (mgr_identifier self) then
        match data p with
        | VDict _ => negb (is_command "addIsle" p)
        | _ => false
        end
      else
        match py_contains "exception" (data p) with
        | Ok _ => true
        | Raise _ => false
        end
  | None => false
  end.

(** A command to shut down, addressed to the manager. *)
Definition stops (self : IsleManager) (p : Packet) : bool :=
  match destination p with
  | Some name => String.eqb name (mgr_identifier self) && is_command "shutdown" p
  | None => false
  end.

Definition member (d : list (string * entry)) (name : string) : bool :=
  match isles_get d name with Some _ => true | None => false end.

Section Deliveries.

Variable py_str : value -> string.

(** Where the routing loop puts which packet when it takes [p] from the
    queue of [source]: [p] itself goes to the member its last hop names; a
    last hop that names nobody sends a KeyError reply back to [source]; a
    packet for the manager goes nowhere. *)
Definition delivery (self : IsleManager) (source : string) (p : Packet)
    : list (string * Packet) :=
  match destination p with
  | Some name =>
      if String.eqb name (mgr_identifier self) then []
      else if member (isles self) name then [(name, p)]
      else [(source, RouterOps.unknown_receiver py_str self p (VStr name))]
  | None => []
  end.

(** What the routing loop writes to the log for it: the packet, and the
    reply if it made one. *)
Definition logged (self : IsleManager) (source : string) (p : Packet) : list Packet :=
  p :: match destination p with
       | Some name =>
           if String.eqb name (mgr_identifier self) || member (isles self) name then []
           else [RouterOps.unknown_receiver py_str self p (VStr name)]
       | None => []
       end.

End Deliveries.

(** The packets of [ds] that go to [k], in order. *)
Definition share (k : string) (ds : list (string * Packet)) : list Packet :=
  map snd (filter (fun kp => String.eqb (fst kp) k) ds).

(** An entry with its queue towards the router replaced and its queue
    towards the owner grown. *)
Definition served (router : list Packet) (more : list Packet) (e : entry) : entry :=
  mkEntry (mkConnection router (toOwner (entry_connection e) ++ more)) (entry_thread e).

(** Every coming call of [open] succeeds. *)
Definition never_denied (self : IsleManager) : bool := forallb negb (open_fails self).

(** The pass from [self] to [self']: every entry keeps its thread, has
    the queue towards the router that [rt] makes of the old one, and has
    taken the packets of [ds] addressed to it; [lg] went to the log, buffer
    or file; the manager keeps running unless [stop]; some of the coming
    calls of [open] have been made. *)
Definition routed (rt : string -> list Packet -> list Packet)
    (ds : list (string * Packet)) (lg : list Packet) (stop : bool)
    (self self' : IsleManager) : Prop :=
  (forall k, isles_get (isles self') k
             = option_map (fun e => served (rt k (toRouter (entry_connection e)))
                                           (share k ds) e)
                          (isles_get (isles self) k)) /\
  map fst (isles self') = map fst (isles self) /\
  mgr_identifier self' = mgr_identifier self /\
  islesToBeAdded self' = islesToBeAdded self /\
  joined self' = joined self /\
  mgr_running self' = mgr_running self && negb stop /\
  logfile self' ++ logbuffer self' = (logfile self ++ logbuffer self) ++ lg /\
  (exists n, open_fails self' = skipn n (open_fails self)).

(** The traffic of the members [keys], read off the membership of [self]. *)
Definition traffic_of (self : IsleManager) (keys : list string) : list (string * Packet) :=
  flat_map (fun k => match isles_get (isles self) k with
                     | Some e => map (pair k) (toRouter (entry_connection e))
                     | None => []
                     end) keys.

(** What the wait loop puts back while it looks for its reply: each packet
    it polled and did not want, followed by what arrived during the sleep
    after that poll. *)
Definition put_back (polled : list Packet) (sched : list tick) : list Packet :=
  flat_map (fun pt => fst pt :: arrivals (snd pt)) (combine polled sched).

(** An isle and the manager hold the same [Connection] object: the entry
    of the manager is where the model keeps it.  [attach] is the isle
    looking at that object; [publish] is the entry once the isle has acted
    on it. *)
Definition attach (self : Isle) (manager : IsleManager) : Isle :=
  match isles_get (isles manager) (isle_identifier self) with
  | Some e => with_connection self (entry_connection e)
  | None => self
  end.



(** The error the routing loop raises on a packet before it gets to route
    it: the data cannot be searched for a key, the receiver has no last
    item, or that item can be no key of a dictionary. *)
Definition fatal (self : IsleManager) (p : Packet) : option exc :=
  match py_contains "exception" (data p) with
  | Raise e => Some e
  | Ok _ =>
      match py_item_from_end (receiver p) 1 with
      | Raise e => Some e
      | Ok last =>
          if is_str (mgr_identifier self) last || hashable last then None
          else Some (mkExc TypeError "unhashable type")
      end
  end.

(** ** A small town

    Two isles under one manager, a peer, and the packets the statements
    below are tried on. *)

Module Town.

Import Fixtures.

(** [str] on the values that matter here: a string renders as itself. *)
Definition render (v : value) : string :=
  match v with VStr s => s | _ => "?" end.

Definition alice : Isle := IsleOps.init MyIsle_surface "a11ce" (Some "alice").
Definition bob : Isle := IsleOps.init [] "b0b" (Some "bob").

Definition town : IsleManager :=
  ManagerOps.addIsle (ManagerOps.addIsle ManagerOps.init alice) bob.

(** [self.call.alice.add(3, 6)] on bob. *)
Definition ask : Packet :=
  mkPacket "q1" (VList [VStr "bob"]) (VList [VStr "add"; VStr "alice"])
           (VDict [("args", VTuple [VInt 3; VInt 6]); ("kwargs", VDict [])]).

(** A request for an isle nobody registered. *)
Definition stray : Packet :=
  mkPacket "q2" (VList [VStr "bob"]) (VList [VStr "add"; VStr "carol"])
           (VDict [("args", VTuple []); ("kwargs", VDict [])]).

(** The command that ends the manager. *)
Definition halt : Packet :=
  mkPacket "q3" (VList [VStr "alice"]) (VList [VStr "islemanager"])
           (VDict [("command", VStr "shutdown")]).

(** A packet whose data is [None]. *)
Definition blank : Packet :=
  mkPacket "q4" (VList [VStr "bob"]) (VList [VStr "alice"]) VNone.

(** The town with [ps] waiting in the outbound queue of bob. *)
Definition bob_sends (ps : list Packet) : IsleManager :=
  ManagerOps.with_isles town
    [("alice", mkEntry ConnectionOps.init (Some (mkThread "alice")));
     ("bob", mkEntry (mkConnection ps []) (Some (mkThread "bob")))].

Definition peer : Peer := mkPeer MyIsle [] [].

Definition packetA_bytes : py_bytes :=
  Eval vm_compute in
    match PacketOps.toBytes packetA with Ok b => b | Raise _ => [] end.

Definition ticket (n : nat) : string :=
  match n with O => "s0" | _ => "s1" end.

(** The town with [ask] in the log buffer, on a file system that refuses
    the next call of [open] and grants the ones after it. *)
Definition town_denied_once : IsleManager :=
  mkIsleManager (mgr_identifier town) (isles town) (mgr_running town) (islesToBeAdded town)
                [ask] (logfile town) (joined town) [true].

(** Every thread ends. *)
Definition all_end : Thread -> bool := fun _ => true.

(** The thread of bob does not end. *)
Definition bob_hangs : Thread -> bool :=
  fun t => negb (String.eqb (thread_target t) "bob").

(** What alice says on every pass of her [loop]. *)
Definition greeting : Packet :=
  mkPacket "q5" (VList [VStr "alice"]) (VList [VStr "hello"; VStr "bob"])
           (VDict [("args", VTuple []); ("kwargs", VDict [])]).

(** A class whose [loop] sends [greeting] and does not wait for the
    answer, and that appends one task that does nothing. *)
Definition chatty : EventLoop.hooks :=
  EventLoop.mkHooks (fun self => Some (Ok tt, snd (IsleOps.sendPacket self greeting)))
                    [EventLoop.pass] EventLoop.pass.

End Town.

(** * Properties *)

(** ** The JSON text of a value *)

Section Roundtrip.

Import JSON.
Local Open Scope char_scope.

(** An induction principle that reaches inside lists and dictionaries. *)
Lemma value_nested_ind (P : value -> Prop) :
  P VNone ->
  (forall b, P (VBool b)) ->
  (forall z, P (VInt z)) ->
  (forall s, P (VStr s)) ->
  (forall l, Forall P l -> P (VList l)) ->
  (forall l, Forall P l -> P (VTuple l)) ->
  (forall d, Forall (fun kv => P (snd kv)) d -> P (VDict d)) ->
  (forall e, P (VExc e)) ->
  (forall f, P (VFloat f)) ->
  forall v, P v.
Proof.
  intros HN HB HI HS HL HT HD HE HF.
  fix IH 1. intros [| b | z | s | l | l | d | e | f].
  - exact HN.
  - apply HB.
  - apply HI.
  - apply HS.
  - apply HL. induction l as [|x l IHl]; constructor; [apply IH | exact IHl].
  - apply HT. induction l as [|x l IHl]; constructor; [apply IH | exact IHl].
  - apply HD. induction d as [|[k x] d IHd]; constructor; [apply IH | exact IHd].
  - apply HE.
  - apply HF.
Qed.

(** *** Strings *)

Lemma scan_escape_char c tail acc :
  scan_string (escape_char c ++ tail) acc = scan_string tail (c :: acc).
Proof.
  destruct c as [[] [] [] [] [] [] [] []]; reflexivity.
Qed.

Lemma scan_string_escaped s : forall acc rest,
  scan_string (flat_map escape_char s ++ dquote :: rest) acc
  = Some (Ok (string_of_list_ascii (rev acc ++ s), rest)).
Proof.
  induction s as [|c s IH]; intros acc rest.
  - cbn. rewrite app_nil_r. reflexivity.
  - cbn [flat_map]. rewrite <- app_assoc, scan_escape_char, IH.
    cbn. rewrite <- app_assoc. reflexivity.
Qed.

Lemma scan_encode_string k rest :
  exists body,
    encode_string k = dquote :: body /\
    scan_string (body ++ rest) [] = Some (Ok (k, rest)).
Proof.
  exists (flat_map escape_char (chars k) ++ [dquote]). split; [reflexivity |].
  rewrite <- app_assoc. cbn [app]. rewrite scan_string_escaped. cbn.
  unfold chars. rewrite string_of_list_ascii_of_string. reflexivity.
Qed.

(** *** Integers *)

Lemma read_digits_uint d : forall rest,
  no_digit_head rest ->
  read_digits (chars (DecimalString.NilEmpty.string_of_uint d) ++ rest) = (d, rest).
Proof.
  unfold chars.
  induction d; intros rest Hrest;
    cbn [DecimalString.NilEmpty.string_of_uint list_ascii_of_string app read_digits];
    try (match goal with
         | |- context [digit_of ?c] =>
             let r := eval vm_compute in (digit_of c) in change (digit_of c) with r
         end;
         cbv iota; rewrite (IHd rest Hrest); reflexivity).
  destruct rest as [|c rest]; [reflexivity |].
  cbn in Hrest |- *. rewrite Hrest. reflexivity.
Qed.

Lemma to_uint_head p : forall u, Pos.to_uint p <> Decimal.D0 u.
Proof.
  intros u Hu.
  pose proof (DecimalPos.Unsigned.to_of (Pos.to_uint p)) as H.
  rewrite DecimalPos.Unsigned.of_to in H. cbn in H.
  rewrite Hu in H. rewrite DecimalFacts.unorm_D0 in H.
  unfold Decimal.unorm in H.
  destruct (Decimal.nzhead u) eqn:E; try discriminate H.
  - injection H as H. subst u.
    exact (DecimalPos.Unsigned.to_uint_nonzero p Hu).
  - rewrite <- E in H. symmetry in H.
    exact (DecimalFacts.nzhead_nonzero _ _ H).
Qed.

Lemma of_to_uint p : Z.of_uint (Pos.to_uint p) = Zpos p.
Proof.
  unfold Z.of_uint. rewrite DecimalPos.Unsigned.of_to. reflexivity.
Qed.

Lemma read_integer_uint u rest :
  u <> Decimal.Nil -> (forall u', u <> Decimal.D0 u') -> no_digit_head rest ->
  read_integer (chars (DecimalString.NilEmpty.string_of_uint u) ++ rest) = (u, rest).
Proof.
  intros Hnil Hzero Hrest.
  destruct u; try (exfalso; apply Hnil; reflexivity);
    try (exfalso; eapply Hzero; reflexivity);
    match goal with
    | |- read_integer (chars (DecimalString.NilEmpty.string_of_uint ?d) ++ _) = _ =>
        rewrite <- (read_digits_uint d rest Hrest)
    end; reflexivity.
Qed.

Lemma ends_value_skip_ws rest : ends_value rest -> skip_ws rest = rest.
Proof.
  destruct rest as [|c rest]; [reflexivity |].
  intros [-> | [-> | ->]]; reflexivity.
Qed.

Lemma ends_value_no_digit rest : ends_value rest -> no_digit_head rest.
Proof.
  destruct rest as [|c rest]; [exact (fun H => H) |].
  intros [-> | [-> | ->]]; reflexivity.
Qed.

Lemma ends_value_no_float rest : ends_value rest -> float_suffix rest = false.
Proof.
  destruct rest as [|c rest]; [reflexivity |].
  intros [-> | [-> | ->]]; reflexivity.
Qed.

Lemma parse_number_uint (negative : bool) u rest :
  u <> Decimal.Nil -> (forall u', u <> Decimal.D0 u') -> ends_value rest ->
  parse_number ((if negative then ["-"] else [])
                  ++ chars (DecimalString.NilEmpty.string_of_uint u) ++ rest)
  = Some (Ok (VInt (if negative then - Z.of_uint u else Z.of_uint u)%Z, rest)).
Proof.
  intros Hnil Hzero Hrest.
  pose proof (read_integer_uint u rest Hnil Hzero (ends_value_no_digit rest Hrest)) as Hread.
  unfold parse_number.
  destruct negative; cbn [app].
  - change (Ascii.eqb "-" "-") with true. cbv iota.
    rewrite Hread, (ends_value_no_float rest Hrest).
    destruct u; try reflexivity. exfalso. apply Hnil. reflexivity.
  - destruct u; try (exfalso; apply Hnil; reflexivity);
      cbn [chars DecimalString.NilEmpty.string_of_uint list_ascii_of_string app]
        in Hread |- *;
      match goal with
      | |- context [Ascii.eqb ?c "-"] => change (Ascii.eqb c "-") with false
      end;
      cbv iota; rewrite Hread, (ends_value_no_float rest Hrest); reflexivity.
Qed.

Lemma parse_number_int z rest :
  ends_value rest ->
  parse_number (encode_int z ++ rest) = Some (Ok (VInt z, rest)).
Proof.
  intro Hrest. destruct z as [|p|p].
  - cbn [encode_int app]. unfold parse_number.
    change (Ascii.eqb "0" "-") with false. cbv iota.
    cbn [read_integer]. change (Ascii.eqb "0" "0") with true. cbv iota.
    rewrite (ends_value_no_float rest Hrest). reflexivity.
  - pose proof (parse_number_uint false (Pos.to_uint p) rest
                  (DecimalPos.Unsigned.to_uint_nonnil p) (to_uint_head p) Hrest) as H.
    cbn [app] in H. rewrite of_to_uint in H. exact H.
  - pose proof (parse_number_uint true (Pos.to_uint p) rest
                  (DecimalPos.Unsigned.to_uint_nonnil p) (to_uint_head p) Hrest) as H.
    cbn [app] in H. rewrite of_to_uint in H. exact H.
Qed.

(** *** Values *)

Lemma value_start_facts c :
  value_start c = true ->
  is_ws c = false /\ Ascii.eqb c "]" = false /\ Ascii.eqb c "}" = false
  /\ Ascii.eqb c "," = false.
Proof.
  destruct c as [[] [] [] [] [] [] [] []]; intro H;
    try discriminate H; repeat split.
Qed.

Lemma head_ok_skip_ws t rest : head_ok t -> skip_ws (t ++ rest) = t ++ rest.
Proof.
  destruct t as [|c t]; [intros [] |].
  intro H. cbn in H |- *.
  destruct (value_start_facts c H) as (-> & _). reflexivity.
Qed.

Lemma head_ok_length t : head_ok t -> (1 <= length t)%nat.
Proof. destruct t; [intros [] | cbn; lia]. Qed.

Lemma parse_value_number fuel c s :
  Ascii.eqb c "-" || is_digit c = true ->
  parse_value (S fuel) (c :: s) = parse_number (c :: s).
Proof.
  destruct c as [[] [] [] [] [] [] [] []]; intro H;
    try discriminate H; reflexivity.
Qed.

Lemma encode_int_head z :
  exists c t, encode_int z = c :: t /\ Ascii.eqb c "-" || is_digit c = true.
Proof.
  destruct z as [|p|p].
  - exists "0", []. split; reflexivity.
  - unfold encode_int, chars.
    destruct (Pos.to_uint p) eqn:E;
      [exfalso; exact (DecimalPos.Unsigned.to_uint_nonnil p E) | ..];
      cbn; eexists _, _; split; reflexivity.
  - eexists _, _. split; reflexivity.
Qed.

Lemma encode_items_parse l :
  Forall reads_back l -> forallb json_typed l = true ->
  exists body,
    encode_items encode l = Ok body /\
    (l = [] -> body = []) /\
    (l <> [] -> head_ok body) /\
    forall fuel rest acc,
      l <> [] -> (length body + 1 <= fuel)%nat ->
      parse_elems fuel (body ++ "]" :: rest) acc
      = Some (Ok (VList (rev acc ++ l), rest)).
Proof.
  induction l as [|x l IH]; intros Hall Htyped.
  - exists []. repeat split; try reflexivity; intros; congruence.
  - apply Forall_cons_iff in Hall. destruct Hall as [Hx Hl].
    cbn in Htyped. apply andb_true_iff in Htyped. destruct Htyped as [Tx Tl].
    destruct (Hx Tx) as (a & Ha & Hhead & Hparse).
    destruct (IH Hl Tl) as (b & Hb & Hnil & Hbhead & Hbparse).
    cbn [encode_items]. rewrite Ha, Hb. cbn [bind].
    destruct l as [|y l'].
    + exists a. split; [reflexivity |]. split; [intro; discriminate |].
      split; [intros _; exact Hhead |].
      intros fuel rest acc _ Hfuel.
      destruct fuel as [|fuel]; [lia |]. cbn [parse_elems].
      rewrite (Hparse fuel ("]" :: rest)); [| lia | cbn; auto].
      cbn. rewrite <- ?app_assoc. reflexivity.
    + assert (Hyl : y :: l' <> []) by discriminate.
      specialize (Hbhead Hyl).
      exists (a ++ "," :: b). split; [reflexivity |]. split; [intro; discriminate |].
      split.
      { intros _. destruct a; [destruct Hhead | exact Hhead]. }
      intros fuel rest acc _ Hfuel.
      rewrite length_app in Hfuel. cbn [length] in Hfuel.
      pose proof (head_ok_length a Hhead) as Ha1.
      destruct fuel as [|fuel]; [lia |]. cbn [parse_elems].
      rewrite <- app_assoc. cbn [app].
      rewrite (Hparse fuel ("," :: b ++ "]" :: rest)); [| lia | cbn; auto].
      cbn [skip_ws is_ws]. change (is_ws ",") with false. cbv iota.
      change (Ascii.eqb "," "]") with false. change (Ascii.eqb "," ",") with true.
      cbv iota. rewrite (head_ok_skip_ws b _ Hbhead).
      rewrite (Hbparse fuel rest (x :: acc) Hyl); [| lia].
      cbn. rewrite <- ?app_assoc. reflexivity.
Qed.

Lemma encode_members_parse d :
  Forall (fun kv => reads_back (snd kv)) d ->
  forallb (fun kv => json_typed (snd kv)) d = true ->
  exists body,
    encode_members encode d = Ok body /\
    (d = [] -> body = []) /\
    (d <> [] -> exists body', body = dquote :: body') /\
    forall fuel rest acc,
      d <> [] -> (length body + 1 <= fuel)%nat ->
      parse_members fuel (body ++ "}" :: rest) acc
      = Some (Ok (VDict (dict_of_pairs (rev acc ++ d)), rest)).
Proof.
  induction d as [|[k x] d IH]; intros Hall Htyped.
  - exists []. repeat split; try reflexivity; intros; congruence.
  - apply Forall_cons_iff in Hall. destruct Hall as [Hx Hd]. cbn [snd] in Hx.
    cbn in Htyped. apply andb_true_iff in Htyped. destruct Htyped as [Tx Td].
    destruct (Hx Tx) as (a & Ha & Hhead & Hparse).
    destruct (IH Hd Td) as (b & Hb & Hnil & Hbhead & Hbparse).
    cbn [encode_members fst snd]. rewrite Ha, Hb. cbn [bind].
    pose proof (head_ok_length a Hhead) as Ha1.
    destruct d as [|y d'].
    + destruct (scan_encode_string k (":" :: a ++ "}" :: [])) as (kb & Hk & _).
      exists (encode_string k ++ ":" :: a).
      split; [reflexivity |]. split; [intro; discriminate |].
      split; [intros _; rewrite Hk; cbn; eauto |].
      intros fuel rest acc _ Hfuel.
      destruct (scan_encode_string k (":" :: a ++ "}" :: rest)) as (kb' & Hk' & Hscan).
      rewrite Hk' in Hfuel |- *. rewrite length_app in Hfuel. cbn [length app] in Hfuel |- *.
      destruct fuel as [|fuel]; [lia |]. cbn [parse_members].
      change (Ascii.eqb dquote dquote) with true. cbv iota.
      rewrite <- app_assoc. cbn [app].
      rewrite Hscan.
      cbn [skip_ws]. change (is_ws ":") with false. cbv iota.
      change (Ascii.eqb ":" ":") with true. cbv iota.
      rewrite (head_ok_skip_ws a _ Hhead).
      rewrite (Hparse fuel ("}" :: rest)); [| lia | cbn; auto].
      cbn. rewrite <- ?app_assoc. reflexivity.
    + assert (Hyd : y :: d' <> []) by discriminate.
      destruct (Hbhead Hyd) as [b' Hb'].
      exists (encode_string k ++ ":" :: a ++ "," :: b).
      split; [reflexivity |]. split; [intro; discriminate |].
      split.
      { intros _. destruct (scan_encode_string k []) as (kb & Hk & _).
        rewrite Hk. cbn. eauto. }
      intros fuel rest acc _ Hfuel.
      destruct (scan_encode_string k (":" :: a ++ "," :: b ++ "}" :: rest))
        as (kb' & Hk' & Hscan).
      rewrite Hk' in Hfuel |- *.
      rewrite !length_app in Hfuel. cbn [length app] in Hfuel |- *.
      rewrite !length_app in Hfuel. cbn [length] in Hfuel.
      destruct fuel as [|fuel]; [lia |]. cbn [parse_members].
      change (Ascii.eqb dquote dquote) with true. cbv iota.
      replace (kb' ++ ":" :: a ++ "," :: b) with ((kb' ++ [":"]) ++ a ++ "," :: b)
        by (rewrite <- app_assoc; reflexivity).
      rewrite <- !app_assoc. cbn [app].
      rewrite Hscan.
      cbn [skip_ws]. change (is_ws ":") with false. cbv iota.
      change (Ascii.eqb ":" ":") with true. cbv iota.
      rewrite (head_ok_skip_ws a _ Hhead).
      rewrite (Hparse fuel ("," :: b ++ "}" :: rest)); [| lia | cbn; auto].
      cbn [skip_ws]. change (is_ws ",") with false. cbv iota.
      change (Ascii.eqb "," "}") with false. change (Ascii.eqb "," ",") with true.
      cbv iota.
      assert (Hskip : skip_ws (b ++ "}" :: rest) = b ++ "}" :: rest)
        by (rewrite Hb'; reflexivity).
      rewrite Hskip.
      rewrite (Hbparse fuel rest ((k, x) :: acc) Hyd); [| lia].
      cbn. rewrite <- ?app_assoc. reflexivity.
Qed.


(** *** Dictionaries rebuilt from their pairs *)

Lemma distinct_NoDup keys : distinct keys = true -> NoDup keys.
Proof.
  induction keys as [|k keys IH]; cbn; [constructor |].
  intro H. apply andb_true_iff in H. destruct H as [Hk Hrest].
  constructor; [| exact (IH Hrest)].
  intro Hin. apply negb_true_iff in Hk.
  assert (existsb (String.eqb k) keys = true) as Hex.
  { apply existsb_exists. exists k. split; [exact Hin | apply String.eqb_refl]. }
  congruence.
Qed.

Lemma dict_set_fresh d k v :
  ~ In k (map fst d) -> dict_set d k v = d ++ [(k, v)].
Proof.
  induction d as [|[k' v'] d IH]; cbn; [reflexivity |].
  intro Hnot. destruct (String.eqb_spec k' k) as [->|Hne].
  - exfalso. apply Hnot. left. reflexivity.
  - rewrite IH; [reflexivity |]. intro Hin. apply Hnot. right. exact Hin.
Qed.

Lemma dict_of_pairs_from d2 : forall d1,
  NoDup (map fst d1 ++ map fst d2) ->
  fold_left (fun d kv => dict_set d (fst kv) (snd kv)) d2 d1 = d1 ++ d2.
Proof.
  induction d2 as [|[k v] d2 IH]; intros d1 Hnd; cbn.
  - rewrite app_nil_r. reflexivity.
  - cbn in Hnd. rewrite dict_set_fresh.
    + rewrite IH.
      * rewrite <- app_assoc. reflexivity.
      * rewrite map_app. cbn. rewrite <- app_assoc. exact Hnd.
    + intro Hin. apply NoDup_remove_2 in Hnd. apply Hnd.
      apply in_or_app. left. exact Hin.
Qed.

Lemma dict_of_pairs_distinct d :
  distinct (map fst d) = true -> dict_of_pairs d = d.
Proof.
  intro H. unfold dict_of_pairs.
  rewrite dict_of_pairs_from; [reflexivity |]. exact (distinct_NoDup _ H).
Qed.

(** *** Every typed value is read back from its text *)

Lemma encode_parses v : reads_back v.
Proof.
  induction v as [| b | z | s | l IH | l IH | d IH | e | f] using value_nested_ind;
    intro Htyped; try discriminate Htyped.
  - exists (chars "null"). split; [reflexivity |]. split; [reflexivity |].
    intros fuel rest Hfuel _. destruct fuel; [cbn in Hfuel; lia | reflexivity].
  - destruct b.
    + exists (chars "true"). split; [reflexivity |]. split; [reflexivity |].
      intros fuel rest Hfuel _. destruct fuel; [cbn in Hfuel; lia | reflexivity].
    + exists (chars "false"). split; [reflexivity |]. split; [reflexivity |].
      intros fuel rest Hfuel _. destruct fuel; [cbn in Hfuel; lia | reflexivity].
  - exists (encode_int z). split; [reflexivity |].
    destruct (encode_int_head z) as (c & t & Hz & Hc).
    split.
    + rewrite Hz. cbn. unfold value_start.
      apply orb_true_iff in Hc. destruct Hc as [Hc | Hc]; rewrite Hc;
        rewrite ?orb_true_r; reflexivity.
    + intros fuel rest Hfuel Hrest.
      destruct fuel as [|fuel]; [rewrite Hz in Hfuel; cbn in Hfuel; lia |].
      rewrite <- (parse_number_int z rest Hrest).
      rewrite Hz. cbn [app]. apply parse_value_number. exact Hc.
  - exists (encode_string s). split; [reflexivity |].
    split; [reflexivity |].
    intros fuel rest Hfuel _.
    destruct (scan_encode_string s rest) as (body & Hs & Hscan).
    rewrite Hs in Hfuel |- *.
    destruct fuel as [|fuel]; [cbn in Hfuel; lia |].
    cbn [app parse_value]. change (Ascii.eqb dquote dquote) with true. cbv iota.
    rewrite Hscan. reflexivity.
  - cbn [json_typed] in Htyped.
    destruct (encode_items_parse l IH Htyped) as (body & Hbody & Hnil & Hhead & Hparse).
    exists ("[" :: body ++ ["]"]). split; [cbn [encode]; rewrite Hbody; reflexivity |].
    split; [reflexivity |].
    intros fuel rest Hfuel _.
    cbn [length] in Hfuel. rewrite length_app in Hfuel. cbn [length] in Hfuel.
    destruct fuel as [|fuel]; [lia |].
    cbn [app parse_value]. rewrite <- app_assoc. cbn [app].
    change (Ascii.eqb "[" dquote) with false. change (Ascii.eqb "[" "[") with true.
    cbv iota.
    destruct l as [|x l].
    + rewrite (Hnil eq_refl). reflexivity.
    + assert (Hne : x :: l <> []) by discriminate.
      specialize (Hhead Hne).
      rewrite (head_ok_skip_ws body _ Hhead).
      destruct body as [|c body]; [destruct Hhead |].
      cbn [app]. cbn in Hhead.
      destruct (value_start_facts c Hhead) as (_ & -> & _).
      apply (Hparse fuel rest [] Hne). lia.
  - cbn [json_typed] in Htyped. apply andb_true_iff in Htyped.
    destruct Htyped as [Hkeys Hvals].
    destruct (encode_members_parse d IH Hvals) as (body & Hbody & Hnil & Hhead & Hparse).
    exists ("{" :: body ++ ["}"]). split; [cbn [encode]; rewrite Hbody; reflexivity |].
    split; [reflexivity |].
    intros fuel rest Hfuel _.
    cbn [length] in Hfuel. rewrite length_app in Hfuel. cbn [length] in Hfuel.
    destruct fuel as [|fuel]; [lia |].
    cbn [app parse_value]. rewrite <- app_assoc. cbn [app].
    change (Ascii.eqb "{" dquote) with false. change (Ascii.eqb "{" "[") with false.
    change (Ascii.eqb "{" "{") with true. cbv iota.
    destruct d as [|kx d].
    + rewrite (Hnil eq_refl). reflexivity.
    + assert (Hne : kx :: d <> []) by discriminate.
      destruct (Hhead Hne) as [body' ->].
      cbn [app skip_ws]. change (is_ws dquote) with false. cbv iota.
      change (Ascii.eqb dquote "}") with false. cbv iota.
      pose proof (Hparse fuel rest [] Hne) as Hp. cbn [app] in Hp.
      rewrite Hp; [| lia].
      cbn [rev app]. rewrite (dict_of_pairs_distinct _ Hkeys). reflexivity.
  - exists (encode_float f). split; [reflexivity |].
    split; [destruct f; reflexivity |].
    intros fuel rest Hfuel _.
    destruct fuel as [|fuel]; [destruct f; cbn in Hfuel; lia |].
    destruct f; reflexivity.
Qed.

(** [json.loads(json.dumps(v)) == v] for a typed [v]. *)
Lemma loads_dumps v :
  json_typed v = true ->
  exists text, dumps v = Ok text /\ loads text = Some (Ok v).
Proof.
  intro Htyped. destruct (encode_parses v Htyped) as (t & Ht & Hhead & Hparse).
  exists (string_of_list_ascii t). split.
  - unfold dumps. rewrite Ht. reflexivity.
  - unfold loads, chars. rewrite list_ascii_of_string_of_list_ascii.
    rewrite <- (app_nil_r t) at 2. rewrite (head_ok_skip_ws t [] Hhead).
    rewrite (Hparse (2 * length t + 2)%nat []); [reflexivity | lia | exact I].
Qed.

(** *** UTF-8 *)

Lemma decode_encode_char c tail :
  decode_chars (encode_char c ++ tail)
  = match decode_chars tail with
    | Some (Ok r) => Some (Ok (c :: r))
    | other => other
    end.
Proof.
  destruct c as [[] [] [] [] [] [] [] []]; reflexivity.
Qed.

Lemma bytes_decode_encode s : bytes_decode (str_encode s) = Some (Ok s).
Proof.
  unfold bytes_decode, str_encode, chars.
  assert (H : forall l, decode_chars (flat_map encode_char l) = Some (Ok l)).
  { induction l as [|c l IH]; [reflexivity |].
    cbn [flat_map]. rewrite decode_encode_char, IH. reflexivity. }
  rewrite H, string_of_list_ascii_of_string. reflexivity.
Qed.

End Roundtrip.

(** ** Packet round trips *)

Section PacketRoundtrip.

Import PacketOps Fixtures.


Lemma createFromDict_toDict fresh p :
  createFromDict fresh (toDict p) = Some (Ok p).
Proof. destruct p. reflexivity. Qed.








(** Outside the typed payloads: the tuple of positional arguments a call
    proxy sends is read back as a list. *)
Example tuple_read_back_as_list :
  match JSON.dumps (VTuple [VInt 1; VInt 2]) with
  | Ok text => JSON.loads text
  | Raise _ => None
  end = Some (Ok (VList [VInt 1; VInt 2])).
Proof. vm_compute. reflexivity. Qed.

(** A reply keeps the identifier and swaps the two paths. *)
Lemma createReply_swaps p d :
  identifier (createReply p d) = identifier p /\
  sender (createReply p d) = receiver p /\
  receiver (createReply p d) = sender p /\
  data (createReply p d) = d.
Proof. repeat split. Qed.

End PacketRoundtrip.

(** ** Framing *)

Section Framing.

Import COBS.
Local Open Scope Z_scope.

(** The encoder loop ends within its fuel: an iteration advances [index],
    or resets [offset] to it, which it cannot do twice in a row. *)
Lemma encode_loop_total raw_list : forall fuel index offset coby_list,
  (2 * (length raw_list - index) + (if (index - offset =? 254)%nat then 1 else 0)
   < fuel)%nat ->
  encode_loop fuel raw_list index offset coby_list <> None.
Proof.
  induction fuel as [|fuel IH]; intros index offset coby_list Hfuel; [lia |].
  cbn [encode_loop].
  destruct (Nat.ltb_spec index (length raw_list)) as [Hlt|Hge]; [| discriminate].
  destruct (nth index raw_list 0 =? 0).
  - apply IH. rewrite Nat.sub_diag. cbn. lia.
  - destruct (Nat.eqb_spec (index - offset) 254) as [Heq|Hne].
    + apply IH. rewrite Nat.sub_diag. cbn. lia.
    + apply IH. destruct (S index - offset =? 254)%nat; lia.
Qed.

Lemma COBS_encode_total raw_packet : COBS_encode raw_packet <> None.
Proof.
  unfold COBS_encode.
  destruct (assert_null_terminated raw_packet); [| discriminate].
  pose proof (encode_loop_total raw_packet (encode_fuel raw_packet) 0 0 []) as H.
  destruct (encode_loop (encode_fuel raw_packet) raw_packet 0 0 []);
    [discriminate |].
  exfalso. apply H; [| reflexivity]. unfold encode_fuel. cbn. lia.
Qed.

Example encode_empty_block : COBS_encode [0] = Some (Ok [1; 0]).
Proof. reflexivity. Qed.

Example encode_rejects_unterminated :
  COBS_encode [17; 34] = Some (Raise (mkExc AssertionError "Not null terminated!")).
Proof. reflexivity. Qed.

(** C4. [COBS_encode] maps each conformance vector of the specification to
    the listed encoding: the eight plaintexts of the table, among them the
    254 bytes 0x01..0xFE followed by 0x00 (encoded as 0xFF, the same 254
    bytes, 0x00) and 0x11 0x22 0x00 0x33 0x00 (encoded as
    0x03 0x11 0x22 0x02 0x33 0x00). *)
Theorem COBS_encode_conformance :
  COBS_encode [0; 0] = Some (Ok [1; 1; 0]) /\
  COBS_encode [0; 0; 0] = Some (Ok [1; 1; 1; 0]) /\
  COBS_encode [17; 34; 51; 68; 0] = Some (Ok [5; 17; 34; 51; 68; 0]) /\
  COBS_encode [17; 34; 0; 51; 0] = Some (Ok [3; 17; 34; 2; 51; 0]) /\
  COBS_encode [17; 0; 0; 0; 0] = Some (Ok [2; 17; 1; 1; 1; 0]) /\
  COBS_encode (byte_range 1 255 ++ [0])
    = Some (Ok ([255] ++ byte_range 1 255 ++ [0])) /\
  COBS_encode (byte_range 0 255 ++ [0])
    = Some (Ok ([1; 255] ++ byte_range 1 255 ++ [0])) /\
  COBS_encode (byte_range 1 256 ++ [0])
    = Some (Ok ([255] ++ byte_range 1 255 ++ [2; 255; 0])).
Proof.
  repeat split; vm_compute; reflexivity.
Qed.

(** The decoder agrees with the table on every vector as well. *)
Lemma COBS_decode_conformance :
  COBS_decode [1; 1; 0] = Ok [0; 0] /\
  COBS_decode [1; 1; 1; 0] = Ok [0; 0; 0] /\
  COBS_decode [5; 17; 34; 51; 68; 0] = Ok [17; 34; 51; 68; 0] /\
  COBS_decode [3; 17; 34; 2; 51; 0] = Ok [17; 34; 0; 51; 0] /\
  COBS_decode [2; 17; 1; 1; 1; 0] = Ok [17; 0; 0; 0; 0] /\
  COBS_decode ([255] ++ byte_range 1 255 ++ [0]) = Ok (byte_range 1 255 ++ [0]) /\
  COBS_decode ([1; 255] ++ byte_range 1 255 ++ [0]) = Ok (byte_range 0 255 ++ [0]) /\
  COBS_decode ([255] ++ byte_range 1 255 ++ [2; 255; 0]) = Ok (byte_range 1 256 ++ [0]).
Proof.
  repeat split; vm_compute; reflexivity.
Qed.

(** C3, at the input of 256 zero bytes.  The encoding is 256 bytes 0x01 and
    the terminator.  The decoder compares the position [pointer] with 255,
    not the length byte it read there, so the block that ends at position
    255 loses its zero: 255 bytes come back. *)
Theorem COBS_roundtrip_loses_zero :
  COBS_encode (repeat 0 256) = Some (Ok (repeat 1 256 ++ [0])) /\
  COBS_decode (repeat 1 256 ++ [0]) = Ok (repeat 0 255) /\
  repeat 0 255 <> repeat 0 256.
Proof.
  split; [vm_compute; reflexivity | split; [vm_compute; reflexivity |]].
  intro H. apply (f_equal (@length Z)) in H.
  rewrite !repeat_length in H. discriminate H.
Qed.

(** The encoder itself merges two plaintexts of that size: a zero after
    254 non-zero bytes and no zero there give the same frame. *)
Lemma COBS_encode_collision :
  COBS_encode (byte_range 1 255 ++ [0; 5; 0])
    = COBS_encode (byte_range 1 255 ++ [5; 0]).
Proof. vm_compute. reflexivity. Qed.

End Framing.

(** ** Frames of at most 255 bytes *)

Section ShortFrames.

Import COBS.
Local Open Scope Z_scope.

Lemma nth_after {A} (pre : list A) x post d :
  nth (length pre) (pre ++ x :: post) d = x.
Proof. rewrite nth_middle. reflexivity. Qed.

Lemma slice_middle {A} (pre mid post : list A) :
  slice (pre ++ mid ++ post) (length pre) (length pre + length mid) = mid.
Proof.
  unfold slice. rewrite skipn_app, skipn_all, Nat.sub_diag. cbn [skipn app].
  replace (length pre + length mid - length pre)%nat with (length mid) by lia.
  rewrite firstn_app, firstn_all, Nat.sub_diag. cbn. apply app_nil_r.
Qed.

Lemma plain_length blocks : length (plain blocks) = length (frame blocks).
Proof.
  induction blocks as [|b blocks IH]; [reflexivity |].
  unfold plain, frame in *. cbn [map concat].
  rewrite !length_app. cbn [length]. lia.
Qed.

(** The blocks of a plaintext that ends with a zero. *)
Lemma blocks_of_plain s : forall cur,
  zero_free cur ->
  (s = [] -> cur = []) ->
  (s <> [] -> last s 1 = 0) ->
  plain (blocks_of cur s) = cur ++ s /\ Forall zero_free (blocks_of cur s).
Proof.
  induction s as [|x s IH]; intros cur Hcur Hnil Hlast.
  - rewrite (Hnil eq_refl). split; [reflexivity | constructor].
  - cbn [blocks_of].
    assert (Htail : s <> [] -> last s 1 = 0).
    { intro Hs. specialize (Hlast ltac:(discriminate)).
      destruct s; [congruence | exact Hlast]. }
    destruct (Z.eqb_spec x 0) as [-> | Hx].
    + destruct (IH [] ltac:(constructor) ltac:(reflexivity) Htail) as [Hp Hz].
      split.
      * unfold plain in *. cbn [map concat]. rewrite Hp. cbn.
        rewrite <- app_assoc. reflexivity.
      * constructor; assumption.
    + assert (Hs : s <> []).
      { intros ->. specialize (Hlast ltac:(discriminate)). cbn in Hlast. congruence. }
      destruct (IH (cur ++ [x])) as [Hp Hz].
      * apply Forall_app. split; [exact Hcur | constructor; [exact Hx | constructor]].
      * intro. contradiction.
      * exact Htail.
      * split; [rewrite Hp, <- app_assoc; reflexivity | exact Hz].
Qed.

Lemma nth_two {A} (a b c : list A) x d :
  nth (length a + length b) (a ++ b ++ x :: c) d = x.
Proof. rewrite app_assoc, <- length_app. apply nth_after. Qed.

Lemma encode_loop_step fuel raw index offset coby :
  encode_loop (S fuel) raw index offset coby
  = if (index <? length raw)%nat then
      if nth index raw 0 =? 0 then
        encode_loop fuel raw (S index) (S index)
          ((coby ++ [Z.of_nat (index - offset) + 1]) ++ slice raw offset index)
      else if (index - offset =? 254)%nat then
        encode_loop fuel raw index index ((coby ++ [255]) ++ slice raw offset index)
      else encode_loop fuel raw (S index) offset coby
    else Some coby.
Proof. reflexivity. Qed.

(** The encoder walks through a block without a zero and closes it at the
    zero that follows. *)
Lemma encode_scan_block raw done tail : forall rest cur fuel coby,
  raw = done ++ (cur ++ rest) ++ 0 :: tail ->
  zero_free rest ->
  (length cur + length rest <= 254)%nat ->
  encode_loop (S (length rest + fuel)) raw (length done + length cur) (length done) coby
  = encode_loop fuel raw (S (length done + length cur + length rest))
      (S (length done + length cur + length rest))
      ((coby ++ [Z.of_nat (length cur + length rest) + 1]) ++ cur ++ rest).
Proof.
  induction rest as [|x rest IH]; intros cur fuel coby Hraw Hfree Hlen.
  - rewrite app_nil_r in Hraw |- *. cbn [length Nat.add]. rewrite !Nat.add_0_r.
    rewrite encode_loop_step.
    assert (Hlt : (length done + length cur <? length raw)%nat = true).
    { apply Nat.ltb_lt. rewrite Hraw, !length_app. cbn. lia. }
    rewrite Hlt.
    assert (Hnth : nth (length done + length cur) raw 0 = 0).
    { rewrite Hraw. apply nth_two. }
    rewrite Hnth. cbn [Z.eqb].
    replace (length done + length cur - length done)%nat with (length cur) by lia.
    rewrite Hraw at 2. rewrite slice_middle. reflexivity.
  - apply Forall_cons_iff in Hfree. destruct Hfree as [Hx Hfree].
    cbn [length] in Hlen.
    assert (Hraw' : raw = done ++ cur ++ x :: rest ++ 0 :: tail).
    { rewrite Hraw, <- app_assoc. reflexivity. }
    cbn [length Nat.add]. rewrite encode_loop_step.
    assert (Hlt : (length done + length cur <? length raw)%nat = true).
    { apply Nat.ltb_lt. rewrite Hraw', !length_app. cbn. lia. }
    rewrite Hlt.
    assert (Hnth : nth (length done + length cur) raw 0 = x).
    { rewrite Hraw'. apply nth_two. }
    rewrite Hnth. destruct (Z.eqb_spec x 0) as [Heq | _]; [contradiction |].
    assert (Hfull : (length done + length cur - length done =? 254)%nat = false).
    { apply Nat.eqb_neq. lia. }
    rewrite Hfull.
    pose proof (IH (cur ++ [x]) fuel coby) as Hstep.
    rewrite !length_app in Hstep. cbn [length] in Hstep.
    replace (length done + (length cur + 1))%nat with (S (length done + length cur))
      in Hstep by lia.
    rewrite Hstep.
    + replace (S (length done + length cur) + length rest)%nat
        with (length done + length cur + S (length rest))%nat by lia.
      replace (length cur + 1 + length rest)%nat with (length cur + S (length rest))%nat
        by lia.
      rewrite <- (app_assoc cur [x] rest). reflexivity.
    + rewrite Hraw, <- (app_assoc cur [x] rest). reflexivity.
    + exact Hfree.
    + lia.
Qed.

Lemma encode_blocks raw : forall blocks done coby fuel,
  raw = done ++ plain blocks ->
  Forall zero_free blocks ->
  Forall (fun b => (length b <= 254)%nat) blocks ->
  (length (plain blocks) < fuel)%nat ->
  encode_loop fuel raw (length done) (length done) coby = Some (coby ++ frame blocks).
Proof.
  induction blocks as [|b blocks IH]; intros done coby fuel Hraw Hfree Hshort Hfuel.
  - destruct fuel as [|fuel]; [cbn in Hfuel; lia |].
    rewrite encode_loop_step, Hraw. cbn [plain map concat]. rewrite !app_nil_r.
    rewrite Nat.ltb_irrefl. reflexivity.
  - apply Forall_cons_iff in Hfree. destruct Hfree as [Hb Hfree].
    apply Forall_cons_iff in Hshort. destruct Hshort as [Hlen Hshort].
    unfold plain in Hraw, Hfuel. cbn [map concat] in Hraw, Hfuel.
    fold (plain blocks) in Hraw, Hfuel.
    rewrite !length_app in Hfuel. cbn [length] in Hfuel.
    destruct fuel as [|fuel]; [lia |].
    replace fuel with (length b + (fuel - length b))%nat by lia.
    pose proof (encode_scan_block raw done (plain blocks) b [] (fuel - length b) coby)
      as Hscan.
    cbn [length app Nat.add] in Hscan. rewrite ?Nat.add_0_r in Hscan.
    rewrite Hscan.
    + pose proof (IH (done ++ b ++ [0]) ((coby ++ [Z.of_nat (length b) + 1]) ++ b)
                    (fuel - length b)%nat) as Hnext.
      rewrite !length_app in Hnext. cbn [length] in Hnext.
      replace (length done + (length b + 1))%nat with (S (length done + length b))
        in Hnext by lia.
      rewrite Hnext.
      * unfold frame. cbn [map concat]. rewrite <- !app_assoc. reflexivity.
      * rewrite Hraw, <- !app_assoc. reflexivity.
      * exact Hfree.
      * exact Hshort.
      * lia.
    + rewrite Hraw, <- app_assoc. reflexivity.
    + exact Hb.
    + exact Hlen.
Qed.

Lemma decode_loop_step todo raw pointer index offset acc :
  decode_loop (S todo) raw pointer index offset acc
  = if Z.of_nat index =? pointer then
      decode_loop todo raw (pointer + nth index raw 0) (S index) (S index)
        (acc ++ (if (pointer <? 255) || (pointer =? Z.of_nat (length raw) - 1)
                 then slice raw offset index ++ [0]
                 else slice raw offset index))
    else decode_loop todo raw pointer (S index) offset acc.
Proof. reflexivity. Qed.

(** Before the position [pointer] the decoder only advances. *)
Lemma decode_skip raw pointer offset acc : forall n index todo,
  Z.of_nat index + Z.of_nat n <= pointer ->
  decode_loop (n + todo) raw pointer index offset acc
  = decode_loop todo raw pointer (index + n) offset acc.
Proof.
  induction n as [|n IH]; intros index todo Hle.
  - rewrite Nat.add_0_r. reflexivity.
  - cbn [Nat.add]. rewrite decode_loop_step.
    destruct (Z.eqb_spec (Z.of_nat index) pointer) as [Heq|_]; [lia |].
    rewrite IH; [| lia]. f_equal. lia.
Qed.

Lemma frame_cons b blocks :
  frame (b :: blocks) = (Z.of_nat (length b) + 1) :: b ++ frame blocks.
Proof. reflexivity. Qed.

Lemma plain_cons b blocks : plain (b :: blocks) = b ++ 0 :: plain blocks.
Proof. unfold plain. cbn [map concat]. rewrite <- app_assoc. reflexivity. Qed.

(** From the first byte of a block on, the decoder gives back the block,
    its zero, and the blocks after it, as long as every length byte but the
    last lies before position 255. *)
Lemma decode_blocks raw : forall blocks b pre acc,
  raw = pre ++ frame (b :: blocks) ++ [0] ->
  (length raw <= 256)%nat ->
  decode_loop (length (frame (b :: blocks))) raw
    (Z.of_nat (length pre + length b + 1)) (length pre + 1) (length pre + 1) acc
  = acc ++ plain (b :: blocks).
Proof.
  induction blocks as [|b' blocks IH]; intros b pre acc Hraw Hlen.
  - rewrite frame_cons in Hraw |- *. cbn [frame map concat] in Hraw |- *.
    rewrite app_nil_r in Hraw |- *.
    assert (Hraw' : raw = (pre ++ [Z.of_nat (length b) + 1]) ++ b ++ [0]).
    { rewrite Hraw, <- !app_assoc. reflexivity. }
    cbn [length]. replace (S (length b)) with (length b + 1)%nat by lia.
    rewrite decode_skip; [| lia].
    rewrite decode_loop_step.
    destruct (Z.eqb_spec (Z.of_nat (length pre + 1 + length b))
                (Z.of_nat (length pre + length b + 1))) as [_|Hne]; [| lia].
    assert (Hend : (Z.of_nat (length pre + length b + 1) =? Z.of_nat (length raw) - 1) = true).
    { apply Z.eqb_eq. rewrite Hraw', !length_app. cbn [length]. lia. }
    rewrite Hend, orb_true_r.
    assert (Hslice : slice raw (length pre + 1) (length pre + 1 + length b) = b).
    { rewrite Hraw'.
      replace (length pre + 1)%nat with (length (pre ++ [Z.of_nat (length b) + 1]))
        by (rewrite length_app; reflexivity).
      apply slice_middle. }
    rewrite Hslice. cbn [decode_loop]. rewrite plain_cons. reflexivity.
  - rewrite frame_cons in Hraw |- *.
    remember (frame (b' :: blocks)) as rest eqn:Hrest.
    assert (Hraw' : raw = (pre ++ [Z.of_nat (length b) + 1]) ++ b ++ rest ++ [0]).
    { rewrite Hraw. cbn [app]. rewrite <- !app_assoc. reflexivity. }
    assert (Hrestlen : (length rest = S (length b' + length (frame blocks)))%nat).
    { rewrite Hrest, frame_cons. cbn [length]. rewrite length_app. reflexivity. }
    cbn [length]. rewrite length_app.
    replace (S (length b + length rest)) with (length b + S (length rest))%nat by lia.
    rewrite decode_skip; [| lia].
    rewrite decode_loop_step.
    destruct (Z.eqb_spec (Z.of_nat (length pre + 1 + length b))
                (Z.of_nat (length pre + length b + 1))) as [_|Hne]; [| lia].
    assert (Hsmall : (Z.of_nat (length pre + length b + 1) <? 255) = true).
    { apply Z.ltb_lt. rewrite Hraw', !length_app in Hlen. cbn [length] in Hlen. lia. }
    rewrite Hsmall. cbn [orb].
    assert (Hslice : slice raw (length pre + 1) (length pre + 1 + length b) = b).
    { rewrite Hraw'.
      replace (length pre + 1)%nat with (length (pre ++ [Z.of_nat (length b) + 1]))
        by (rewrite length_app; reflexivity).
      apply slice_middle. }
    rewrite Hslice.
    assert (Hnth : nth (length pre + 1 + length b) raw 0 = Z.of_nat (length b') + 1).
    { rewrite Hraw', Hrest, frame_cons.
      replace (length pre + 1)%nat with (length (pre ++ [Z.of_nat (length b) + 1]))
        by (rewrite length_app; reflexivity).
      cbn [app]. apply nth_two. }
    rewrite Hnth.
    pose proof (IH b' (pre ++ (Z.of_nat (length b) + 1) :: b) (acc ++ b ++ [0])) as Hnext.
    rewrite <- Hrest in Hnext.
    rewrite !length_app in Hnext. cbn [length] in Hnext.
    replace (length pre + S (length b) + length b' + 1)%nat
      with (length pre + 1 + length b + length b' + 1)%nat in Hnext by lia.
    replace (length pre + S (length b) + 1)%nat
      with (S (length pre + 1 + length b)) in Hnext by lia.
    replace (Z.of_nat (length pre + length b + 1) + (Z.of_nat (length b') + 1))
      with (Z.of_nat (length pre + 1 + length b + length b' + 1)) by lia.
    rewrite Hnext.
    + rewrite (plain_cons b). rewrite <- !app_assoc. reflexivity.
    + rewrite Hraw. cbn [app]. rewrite <- !app_assoc. reflexivity.
    + exact Hlen.
Qed.

Lemma blocks_short blocks :
  (length (plain blocks) <= 255)%nat ->
  Forall (fun b => (length b <= 254)%nat) blocks.
Proof.
  induction blocks as [|b blocks IH]; intro Hlen; [constructor |].
  rewrite plain_cons, length_app in Hlen. cbn [length] in Hlen.
  constructor; [lia | apply IH; lia].
Qed.

Lemma frame_bytes blocks :
  forallb is_byte (plain blocks) = true ->
  Forall (fun b => (length b <= 254)%nat) blocks ->
  forallb is_byte (frame blocks) = true.
Proof.
  induction blocks as [|b blocks IH]; intros Hbytes Hshort; [reflexivity |].
  apply Forall_cons_iff in Hshort. destruct Hshort as [Hb Hshort].
  rewrite plain_cons, forallb_app in Hbytes. cbn [forallb] in Hbytes.
  apply andb_true_iff in Hbytes. destruct Hbytes as [Hdata Hrest].
  apply andb_true_iff in Hrest. destruct Hrest as [_ Hrest].
  rewrite frame_cons. cbn [forallb]. rewrite forallb_app, Hdata, (IH Hrest Hshort).
  unfold is_byte.
  destruct (Z.leb_spec 0 (Z.of_nat (length b) + 1)); [| lia].
  destruct (Z.ltb_spec (Z.of_nat (length b) + 1) 256); [reflexivity | lia].
Qed.

Lemma last_item_last s x : last_item s = Ok x -> s <> [] /\ last s 1 = x.
Proof.
  unfold last_item. destruct (rev s) as [|y l] eqn:Hrev; [discriminate |].
  intros [= ->]. apply (f_equal (@rev Z)) in Hrev. rewrite rev_involutive in Hrev.
  cbn in Hrev. subst s. split.
  - intro H. apply (f_equal (@length Z)) in H. rewrite length_app in H. cbn in H. lia.
  - apply last_last.
Qed.

Lemma last_item_terminated l : last_item (l ++ [0]) = Ok 0.
Proof. unfold last_item. rewrite rev_app_distr. reflexivity. Qed.

(** X6. Up to 255 bytes the two functions are inverse: every length byte of
    such a frame lies before position 255 or ends the frame. *)
Theorem COBS_roundtrip_short s :
  forallb is_byte s = true ->
  last_item s = Ok 0 ->
  (length s <= 255)%nat ->
  exists e, COBS_encode s = Some (Ok e) /\ COBS_decode e = Ok s.
Proof.
  intros Hbytes Hlast Hlen.
  destruct (last_item_last s 0 Hlast) as [Hne Hzero].
  destruct (blocks_of_plain s []) as [Hplain Hfree];
    [constructor | intro; contradiction | intros _; exact Hzero |].
  cbn [app] in Hplain.
  set (blocks := blocks_of [] s) in *.
  assert (Hshort : Forall (fun b => (length b <= 254)%nat) blocks).
  { apply blocks_short. rewrite Hplain. exact Hlen. }
  exists (frame blocks ++ [0]). split.
  - unfold COBS_encode, assert_null_terminated. rewrite Hlast. cbn [bind Z.eqb].
    pose proof (encode_blocks s blocks [] [] (encode_fuel s)) as Henc.
    cbn [length app] in Henc.
    rewrite Henc;
      [| symmetry; exact Hplain | exact Hfree | exact Hshort
       | rewrite Hplain; unfold encode_fuel; lia].
    cbn [app]. unfold bytes_of_list.
    rewrite frame_bytes; [reflexivity | rewrite Hplain; exact Hbytes | exact Hshort].
  - unfold COBS_decode, assert_null_terminated.
    rewrite last_item_terminated. cbn [bind Z.eqb].
    destruct blocks as [|b blocks'] eqn:Hblocks.
    { exfalso. apply Hne. rewrite <- Hplain. reflexivity. }
    f_equal. rewrite <- Hplain.
    pose proof (decode_blocks (frame (b :: blocks') ++ [0]) blocks' b [] []) as Hdec.
    cbn [length app Nat.add] in Hdec.
    replace (length (frame (b :: blocks') ++ [0%Z]) - 1)%nat
      with (length (frame (b :: blocks'))) by (rewrite length_app; cbn; lia).
    replace (nth 0 (frame (b :: blocks') ++ [0]) 0) with (Z.of_nat (length b + 1))
      by (rewrite frame_cons; cbn; lia).
    apply Hdec; [reflexivity |].
    rewrite length_app, <- plain_length, Hplain. cbn. lia.
Qed.

End ShortFrames.

(** ** Server socket *)

(** C9, at host 0.0.0.0 and port 8080.  The constructor stores the literal
    44168 in [self.port] and binds to it; the port it was given is unused. *)
Theorem Server_binds_default_port :
  let s := ServerOps.init [] "myServer" (Some "0.0.0.0") (Some 8080%Z) in
  bound_to (server_socket s) = Some ("0.0.0.0", 44168%Z) /\
  listening (server_socket s) = true /\
  bound_to (server_socket s) <> Some ("0.0.0.0", 8080%Z).
Proof.
  cbn. repeat split. discriminate.
Qed.

(** The host is honoured, the port never is. *)
Lemma Server_bound_address surface ident h p :
  bound_to (server_socket (ServerOps.init surface ident (Some h) p)) = Some (h, 44168%Z).
Proof. reflexivity. Qed.

(** ** Shutdown of the manager *)

Section Shutdown.

Import ManagerOps Fixtures.

Lemma with_temp_reachable : reachable with_temp.
Proof. apply reach_enter, reach_add, reach_init. Qed.

(** C10, at a membership holding the isle gibson and one temporary isle.
    [stop] sends both their shutdown packet, joins the thread of gibson and
    then calls [join] on the [None] of the temporary isle: AttributeError,
    and the sequence does not complete.  Should the thread of gibson never
    end, the sequence waits for it for ever, and does not complete
    either. *)
Theorem stop_joins_null_thread :
  forall (ends : Thread -> bool) (fresh : nat -> string),
    reachable with_temp /\
    map (fun kv => entry_thread (snd kv)) (isles with_temp)
      = [Some (mkThread "gibson"); None] /\
    fst (stop ends fresh with_temp) <> Some (Ok tt) /\
    (if ends (mkThread "gibson") then
       fst (stop ends fresh with_temp)
         = Some (Raise (mkExc AttributeError "'NoneType' object has no attribute 'join'")) /\
       joined (snd (stop ends fresh with_temp)) = ["gibson"]
     else
       fst (stop ends fresh with_temp) = None /\
       joined (snd (stop ends fresh with_temp)) = []).
Proof.
  intros ends fresh. split; [exact with_temp_reachable |].
  split; [reflexivity |].
  unfold stop. cbn.
  destruct (ends (mkThread "gibson")); (split; [discriminate | split; reflexivity]).
Qed.

(** When every member has a thread, and the threads end, the sequence
    does complete. *)
Lemma join_all_threads ends keys self :
  (forall k, In k keys ->
     exists e t, isles_get (isles self) k = Some e /\ entry_thread e = Some t /\
                 ends t = true) ->
  fst (join_all ends keys self) = Some (Ok tt) /\
  isles (snd (join_all ends keys self)) = isles self.
Proof.
  revert self. induction keys as [|k keys IH]; intros self H; cbn.
  - split; reflexivity.
  - destruct (H k (or_introl eq_refl)) as (e & t & He & Ht & Hends).
    unfold join_thread. rewrite He, Ht, Hends.
    match goal with |- context [join_all ends keys ?m] => destruct (IH m) as [IH1 IH2] end.
    + cbn. intros k' Hk'. apply H. right. exact Hk'.
    + split; [exact IH1 | exact IH2].
Qed.

Lemma join_thread_isles ends self k self' :
  join_thread ends self k = Some (Ok self') -> isles self' = isles self.
Proof.
  unfold join_thread. destruct (isles_get (isles self) k) as [e|]; [| discriminate].
  destruct (entry_thread e) as [t|]; [| discriminate].
  destruct (ends t); [| discriminate]. intros [= <-]. reflexivity.
Qed.

(** One member without a thread among registered members is enough for
    the second loop of [stop] not to complete: it raises, unless it waits
    for ever for a thread before that member. *)
Lemma join_all_null_thread ends keys : forall self k e,
  In k keys ->
  isles_get (isles self) k = Some e -> entry_thread e = None ->
  (forall k', In k' keys -> isles_get (isles self) k' <> None) ->
  fst (join_all ends keys self)
  = Some (Raise (mkExc AttributeError "'NoneType' object has no attribute 'join'"))
  \/ fst (join_all ends keys self) = None.
Proof.
  induction keys as [|k0 keys IH]; intros self k e Hin Hk He Hall; [destruct Hin |].
  cbn [join_all]. destruct (join_thread ends self k0) as [[self1|err]|] eqn:Hj.
  - destruct Hin as [-> | Hin].
    + unfold join_thread in Hj. rewrite Hk, He in Hj. discriminate Hj.
    + pose proof (join_thread_isles _ _ _ _ Hj) as Hsame.
      apply (IH self1 k e Hin).
      * rewrite Hsame. exact Hk.
      * exact He.
      * intros k' Hk'. rewrite Hsame. apply Hall. right. exact Hk'.
  - left. unfold join_thread in Hj.
    destruct (isles_get (isles self) k0) as [e0|] eqn:H0.
    + destruct (entry_thread e0) as [t|].
      * destruct (ends t); discriminate Hj.
      * injection Hj as <-. reflexivity.
    + exfalso. apply (Hall k0); [left; reflexivity | exact H0].
  - right. reflexivity.
Qed.

End Shutdown.

(** ** Incoming packets *)

Section Incoming.

Import IsleOps Fixtures.

(** Handling a packet leaves the inbound queue alone, so the loop of
    [__handleIncomingPackets] ends within its fuel. *)
Lemma handleIslet_inbound self packet :
  toOwner (connection (snd (handleIslet self packet))) = toOwner (connection self).
Proof.
  unfold handleIslet.
  destruct (py_len (receiver packet)) as [n|e]; [| reflexivity].
  destruct (n =? 2)%nat; [| reflexivity].
  destruct (key <- py_item_from_end (receiver packet) 2 ;;
            func <- routes_lookup (routes self) key ;; Ok (route_name key, func))
    as [[name func]|e]; [| reflexivity].
  unfold call_islet.
  destruct (a <- py_getitem (data packet) "args" ;;
            k <- py_getitem (data packet) "kwargs" ;;
            kwargs <- py_unpack_kwargs k ;;
            args <- py_unpack_args a ;; Ok (args, kwargs)) as [[args kwargs]|e].
  - destruct (func args kwargs) as [response|e]; [reflexivity |].
    destruct (exc_kind_of e); try reflexivity.
    destruct (_ <- py_getitem (data packet) "args" ;; py_getitem (data packet) "kwargs");
      reflexivity.
  - destruct (exc_kind_of e); try reflexivity.
    destruct (_ <- py_getitem (data packet) "args" ;; py_getitem (data packet) "kwargs");
      reflexivity.
Qed.

Lemma handle_one_inbound self packet :
  toOwner (connection (snd (handle_one self packet))) = toOwner (connection self).
Proof.
  unfold handle_one.
  destruct (handleTooLate self packet) as [[|]|e]; try reflexivity.
  pose proof (handleIslet_inbound self packet) as H.
  destruct (handleIslet self packet) as [[[|]|e] self1]; cbn [snd] in H |- *;
    try exact H.
  unfold handleShutdown. destruct (is_str "shutdown" (data packet)); exact H.
Qed.

Lemma incoming_loop_total : forall fuel self,
  (length (toOwner (connection self)) < fuel)%nat ->
  incoming_loop fuel self <> None.
Proof.
  induction fuel as [|fuel IH]; intros self Hfuel; [lia |].
  cbn [incoming_loop]. unfold ConnectionOps.ownerReceive.
  destruct (toOwner (connection self)) as [|packet rest] eqn:Hq; [discriminate |].
  set (self0 := with_connection self (mkConnection (toRouter (connection self)) rest)).
  pose proof (handle_one_inbound self0 packet) as Hin.
  destruct (handle_one self0 packet) as [[u|e] self1]; [| discriminate].
  apply IH. cbn [snd] in Hin. rewrite Hin. cbn in Hfuel |- *. lia.
Qed.

Lemma handleIncomingPackets_total self : handleIncomingPackets self <> None.
Proof. apply incoming_loop_total. lia. Qed.

(** The request of [test_handleIslet] is answered with its result. *)
Example handleIslet_add :
  sent (handleIncomingPackets (inbox MyIsle [request "r1" ["add"; "eiland"] [VInt 3; VInt 6]]))
  = Some [mkPacket "r1" (VList [VStr "add"; VStr "eiland"]) (VList [VStr "Santa"])
                   (VDict [("return", VInt 9)])].
Proof. reflexivity. Qed.

(** A call that does not fit the signature is answered with the TypeError. *)
Example handleIslet_arity :
  sent (handleIncomingPackets (inbox MyIsle [request "r2" ["add"; "eiland"] [VInt 3]]))
  = Some [mkPacket "r2" (VList [VStr "add"; VStr "eiland"]) (VList [VStr "Santa"])
                   (VDict [("exception", VExc arity_error)])].
Proof. reflexivity. Qed.

(** C7, at a packet that reaches the isle eiland with two more hops to
    go (three hops, no [return], not the shutdown string).  None of the
    three handlers takes it; the reply is built and never sent: the
    outbound queue stays empty. *)
Theorem no_taker_nothing_sent :
  let p := mkPacket "packetidentifier" (VList [VStr "Santa"])
                    (VList [VStr "add"; VStr "remote"; VStr "eiland"])
                    (VDict [("abc", VInt 123)]) in
  handleTooLate MyIsle p = Ok false /\
  fst (handleIslet MyIsle p) = Ok false /\
  fst (handleShutdown MyIsle p) = false /\
  handleIncomingPackets (inbox MyIsle [p]) = Some (Ok tt, MyIsle) /\
  toRouter (connection MyIsle) = [].
Proof. repeat split. Qed.

(** A packet none of the three handlers takes leaves the isle as it
    was: nothing is sent. *)
Lemma no_taker_dropped self packet :
  handleTooLate self packet = Ok false ->
  handleIslet self packet = (Ok false, self) ->
  fst (handleShutdown self packet) = false ->
  handle_one self packet = (Ok tt, self).
Proof.
  intros Hlate Hislet Hdown. unfold handle_one. rewrite Hlate, Hislet.
  unfold handleShutdown in *. destruct (is_str "shutdown" (data packet));
    [discriminate Hdown | reflexivity].
Qed.

(** An error of a handler that is no TypeError leaves [__handleIslet]
    with the outbound queue untouched. *)
Lemma handler_error_propagates self packet name func a k args kwargs e :
  py_len (receiver packet) = Ok 2%nat ->
  py_item_from_end (receiver packet) 2 = Ok (VStr name) ->
  routes_get (routes self) name = Some func ->
  py_getitem (data packet) "args" = Ok a -> py_unpack_args a = Ok args ->
  py_getitem (data packet) "kwargs" = Ok k -> py_unpack_kwargs k = Ok kwargs ->
  func args kwargs = Raise e ->
  exc_kind_of e <> TypeError ->
  fst (handleIslet self packet) = Raise e /\
  toRouter (connection (snd (handleIslet self packet))) = toRouter (connection self).
Proof.
  intros Hlen Hkey Hget Ha Hargs Hk Hkwargs Hf Hkind.
  unfold handleIslet. rewrite Hlen. cbn [Nat.eqb]. rewrite Hkey.
  cbn [bind routes_lookup]. rewrite Hget. cbn [route_name]. unfold call_islet.
  rewrite Ha. cbn [bind]. rewrite Hk. cbn [bind]. rewrite Hkwargs. cbn [bind].
  rewrite Hargs. cbn [bind]. rewrite Hf.
  destruct (exc_kind_of e); try (split; reflexivity). contradiction.
Qed.

(** C6, at a request for the exposed handler [div] with a zero divisor.
    [__handleIslet] catches TypeError only: the ZeroDivisionError leaves
    [__handleIncomingPackets], no reply is queued, and the event loop ends
    with that error. *)
Theorem handler_error_aborts_eventloop :
  let p := request "r3" ["div"; "eiland"] [VInt 200; VInt 0] in
  let zde := mkExc ZeroDivisionError "integer division or modulo by zero" in
  dispatched MyIsle p /\
  option_map fst (handleIncomingPackets (inbox MyIsle [p])) = Some (Raise zde) /\
  sent (handleIncomingPackets (inbox MyIsle [p])) = Some [] /\
  option_map fst (EventLoop.eventloop [[]; []] (inbox MyIsle [p])) = Some (Raise zde).
Proof.
  repeat split. eexists. reflexivity.
Qed.

End Incoming.

(** ** The call proxy *)

Section CallProxy.

Variable py_str : value -> string.

Lemma rr_loop_outbound sched : forall self ident rcv deadline,
  toRouter (connection (snd (rr_loop py_str sched self ident rcv deadline)))
  = toRouter (connection self).
Proof.
  induction sched as [|t sched IH]; intros self ident rcv deadline; cbn.
  - reflexivity.
  - destruct (deadline <? now t)%Z; [reflexivity |].
    unfold ConnectionOps.ownerReceive.
    destruct (toOwner (connection self)) as [|rp q]; cbn.
    + rewrite IH. reflexivity.
    + destruct (String.eqb (identifier rp) ident); [reflexivity |].
      rewrite IH. reflexivity.
Qed.

(** Whatever happens to the request later, it has been put on the
    outbound queue. *)
Lemma requestResponse_emits self packet timeout timestamp sched :
  toRouter (connection (snd (requestResponse py_str self packet timeout timestamp sched)))
  = toRouter (connection self) ++ [packet].
Proof.
  unfold requestResponse, IsleOps.sendPacket. rewrite rr_loop_outbound. reflexivity.
Qed.

(** Each attribute access puts its name in front of the path. *)
Lemma sugar_route_chain names : forall proxy,
  sugar_route (fold_left sugar_getattr names proxy) = rev names ++ sugar_route proxy.
Proof.
  induction names as [|n names IH]; intro proxy; cbn.
  - reflexivity.
  - rewrite IH. cbn. rewrite <- app_assoc. reflexivity.
Qed.

(** C8. The chain [call.A.B.C(1, 2, x=3)] holds the path [C, B, A], final
    destination first, and puts on the outbound queue one packet whose
    receiver is that path and whose data is
    [{args: (1, 2), kwargs: {x: 3}}]; a chain of any length holds its names
    in reverse order of access. *)
Theorem call_proxy_reversed_path :
  forall (owner : Isle) (fresh : string) (timestamp : Z) (sched : list tick),
    let proxy := sugar_getattr (sugar_getattr (sugar_getattr call "A") "B") "C" in
    let emitted :=
      mkPacket fresh (VList [VStr (isle_identifier owner)])
               (VList [VStr "C"; VStr "B"; VStr "A"])
               (VDict [("args", VTuple [VInt 1; VInt 2]);
                       ("kwargs", VDict [("x", VInt 3)])]) in
    sugar_route proxy = ["C"; "B"; "A"] /\
    toRouter (connection (snd (sugar_call py_str proxy owner fresh
                                 [VInt 1; VInt 2] [("x", VInt 3)] timestamp sched)))
      = toRouter (connection owner) ++ [emitted] /\
    (forall names, sugar_route (fold_left sugar_getattr names call) = rev names).
Proof.
  intros owner fresh timestamp sched proxy emitted.
  split; [reflexivity |]. split.
  - unfold sugar_call. cbn [proxy sugar_route sugar_getattr call map app IsleOps.createPacket].
    apply requestResponse_emits.
  - intro names. rewrite sugar_route_chain. cbn. apply app_nil_r.
Qed.

End CallProxy.

(** ** The local route *)

Section LocalRoute.

Import IsleOps Fixtures.












(** What happens to that packet: [packet.data["args"]] raises KeyError,
    which leaves [__handleIncomingPackets]. *)
Example shapeless_raises :
  handleIncomingPackets (inbox MyIsle [shapeless]) = Some (Raise (mkExc KeyError "args"), MyIsle).
Proof. reflexivity. Qed.

(** The undecorated method of the fixture is out of reach. *)
Example secret_not_routed :
  routes_get (routes MyIsle) "secret" = None /\
  fst (handleIslet MyIsle (request "r4" ["secret"; "eiland"] [])) = Raise (mkExc KeyError "secret").
Proof. split; reflexivity. Qed.

End LocalRoute.

(** ** Request and response *)

Section RequestResponse.

Variable py_str : value -> string.

Lemma within_cons deadline t (l : list tick) :
  within deadline (t :: l) <-> (now t <= deadline)%Z /\ within deadline l.
Proof. apply Forall_cons_iff. Qed.

Lemma unrelated_cons ident p (l : list Packet) :
  unrelated ident (p :: l) <-> identifier p <> ident /\ unrelated ident l.
Proof. apply Forall_cons_iff. Qed.









End RequestResponse.

Section RequestResponseRuns.

Import Fixtures.

Local Open Scope Z_scope.



End RequestResponseRuns.

(** * Further properties *)

Section Text.

Import JSON PacketOps.

Lemma escape_char_printable c : forallb printable_char (escape_char c) = true.
Proof. destruct c as [[] [] [] [] [] [] [] []]; reflexivity. Qed.

Lemma forallb_app_true {A} (f : A -> bool) l1 l2 :
  forallb f l1 = true -> forallb f l2 = true -> forallb f (l1 ++ l2) = true.
Proof. intros H1 H2. rewrite forallb_app, H1, H2. reflexivity. Qed.

Lemma encode_string_printable s : forallb printable_char (encode_string s) = true.
Proof.
  unfold encode_string. cbn [forallb]. apply andb_true_iff. split; [reflexivity |].
  apply forallb_app_true; [| reflexivity].
  induction (chars s) as [|c l IH]; [reflexivity |].
  cbn [flat_map]. apply forallb_app_true; [apply escape_char_printable | exact IH].
Qed.

Lemma uint_printable d :
  forallb printable_char (chars (DecimalString.NilEmpty.string_of_uint d)) = true.
Proof.
  unfold chars. induction d; cbn [DecimalString.NilEmpty.string_of_uint list_ascii_of_string forallb];
    [reflexivity | ..]; rewrite IHd; reflexivity.
Qed.

Lemma encode_int_printable z : forallb printable_char (encode_int z) = true.
Proof.
  destruct z as [| p | p]; cbn [encode_int forallb]; [reflexivity | apply uint_printable |].
  rewrite uint_printable. reflexivity.
Qed.

Lemma encode_items_printable l :
  Forall (fun x => forall t, encode x = Ok t -> forallb printable_char t = true) l ->
  forall body, encode_items encode l = Ok body -> forallb printable_char body = true.
Proof.
  induction 1 as [|x l Hx _ IHl]; intros body Hb; cbn [encode_items] in Hb.
  - injection Hb as <-. reflexivity.
  - destruct (encode x) as [a|] eqn:Ha; [| discriminate Hb]. cbn [bind] in Hb.
    destruct (encode_items encode l) as [b|] eqn:Hl; [| discriminate Hb].
    cbn [bind] in Hb. injection Hb as <-.
    specialize (Hx a eq_refl). specialize (IHl b eq_refl).
    destruct l; [exact Hx |].
    apply forallb_app_true; [exact Hx |]. cbn [forallb]. rewrite IHl. reflexivity.
Qed.

Lemma encode_members_printable d :
  Forall (fun kv => forall t, encode (snd kv) = Ok t -> forallb printable_char t = true) d ->
  forall body, encode_members encode d = Ok body -> forallb printable_char body = true.
Proof.
  induction 1 as [|[k x] d Hx _ IHd]; intros body Hb; cbn [encode_members] in Hb.
  - injection Hb as <-. reflexivity.
  - cbn [fst snd] in Hb, Hx.
    destruct (encode x) as [a|] eqn:Ha; [| discriminate Hb]. cbn [bind] in Hb.
    destruct (encode_members encode d) as [b|] eqn:Hd; [| discriminate Hb].
    cbn [bind] in Hb. injection Hb as <-.
    specialize (Hx a eq_refl). specialize (IHd b eq_refl).
    destruct d.
    + apply forallb_app_true; [apply encode_string_printable |].
      cbn [forallb]. rewrite Hx. reflexivity.
    + apply forallb_app_true; [apply encode_string_printable |].
      cbn [forallb]. apply andb_true_iff. split; [reflexivity |].
      apply forallb_app_true; [exact Hx |]. cbn [forallb]. rewrite IHd. reflexivity.
Qed.

Lemma encode_printable v : forall t,
  encode v = Ok t -> forallb printable_char t = true.
Proof.
  induction v as [| b | z | s | l IH | l IH | d IH | e | f] using value_nested_ind;
    intros t Ht; cbn [encode] in Ht.
  - injection Ht as <-. reflexivity.
  - destruct b; injection Ht as <-; reflexivity.
  - injection Ht as <-. apply encode_int_printable.
  - injection Ht as <-. apply encode_string_printable.
  - destruct (encode_items encode l) as [body|] eqn:Hb; [| discriminate Ht].
    cbn [bind] in Ht. injection Ht as <-. cbn [forallb].
    apply andb_true_iff. split; [reflexivity |].
    apply forallb_app_true; [exact (encode_items_printable l IH body Hb) | reflexivity].
  - destruct (encode_items encode l) as [body|] eqn:Hb; [| discriminate Ht].
    cbn [bind] in Ht. injection Ht as <-. cbn [forallb].
    apply andb_true_iff. split; [reflexivity |].
    apply forallb_app_true; [exact (encode_items_printable l IH body Hb) | reflexivity].
  - destruct (encode_members encode d) as [body|] eqn:Hb; [| discriminate Ht].
    cbn [bind] in Ht. injection Ht as <-. cbn [forallb].
    apply andb_true_iff. split; [reflexivity |].
    apply forallb_app_true; [exact (encode_members_printable d IH body Hb) | reflexivity].
  - discriminate Ht.
  - injection Ht as <-. destruct f; reflexivity.
Qed.

Lemma encode_char_printable c :
  printable_char c = true -> encode_char c = [code c].
Proof. destruct c as [[] [] [] [] [] [] [] []]; intro H; try reflexivity; discriminate H. Qed.

Lemma str_encode_printable t :
  forallb printable_char t = true ->
  forallb printable (flat_map encode_char t) = true.
Proof.
  induction t as [|c t IH]; [reflexivity |]. cbn [forallb flat_map]. intro H.
  apply andb_true_iff in H. destruct H as [Hc Ht].
  rewrite (encode_char_printable c Hc). cbn [app forallb].
  rewrite (IH Ht). unfold printable_char in Hc. rewrite Hc. reflexivity.
Qed.

Lemma toBytes_printable_bytes p b :
  toBytes p = Ok b -> forallb printable b = true.
Proof.
  unfold toBytes, toJSON, dumps. intro H.
  destruct (encode (toDict p)) as [t|] eqn:Ht; [| discriminate H].
  cbn [bind] in H. injection H as <-.
  unfold str_encode, chars. rewrite list_ascii_of_string_of_list_ascii.
  apply str_encode_printable. exact (encode_printable _ _ Ht).
Qed.

(** X1. The bytes of a packet are printable ASCII; none of them is a
    zero, which the framing of the socket layer relies on. *)
Theorem toBytes_printable (p : Packet) (b : py_bytes) :
  toBytes p = Ok b -> forallb printable b = true /\ ~ In 0%Z b.
Proof.
  intro H. pose proof (toBytes_printable_bytes p b H) as Hp. split; [exact Hp |].
  intro Hin. rewrite forallb_forall in Hp. specialize (Hp _ Hin). discriminate Hp.
Qed.

(** *** Exception objects *)

Lemma encode_items_exception l :
  Forall (fun x => if has_exception x then encode x = Raise not_serializable
                   else exists t, encode x = Ok t) l ->
  if existsb has_exception l then encode_items encode l = Raise not_serializable
  else exists t, encode_items encode l = Ok t.
Proof.
  induction 1 as [|x l Hx _ IHl]; cbn [existsb encode_items].
  - eexists. reflexivity.
  - destruct (has_exception x); cbn [orb].
    + rewrite Hx. reflexivity.
    + destruct Hx as [a ->]. cbn [bind].
      destruct (existsb has_exception l).
      * rewrite IHl. reflexivity.
      * destruct IHl as [b ->]. cbn [bind]. eexists. reflexivity.
Qed.

Lemma encode_members_exception d :
  Forall (fun kv => if has_exception (snd kv) then encode (snd kv) = Raise not_serializable
                    else exists t, encode (snd kv) = Ok t) d ->
  if existsb (fun kv => has_exception (snd kv)) d
  then encode_members encode d = Raise not_serializable
  else exists t, encode_members encode d = Ok t.
Proof.
  induction 1 as [|x d Hx _ IHd]; cbn [existsb encode_members].
  - eexists. reflexivity.
  - destruct (has_exception (snd x)); cbn [orb].
    + rewrite Hx. reflexivity.
    + destruct Hx as [a ->]. cbn [bind].
      destruct (existsb (fun kv => has_exception (snd kv)) d).
      * rewrite IHd. reflexivity.
      * destruct IHd as [b ->]. cbn [bind]. eexists. reflexivity.
Qed.

Lemma encode_exception v :
  if has_exception v then encode v = Raise not_serializable
  else exists t, encode v = Ok t.
Proof.
  induction v as [| b | z | s | l IH | l IH | d IH | e | f] using value_nested_ind;
    cbn [has_exception encode]; try reflexivity; try (eexists; reflexivity).
  - destruct b; eexists; reflexivity.
  - pose proof (encode_items_exception l IH) as H.
    destruct (existsb has_exception l); [rewrite H; reflexivity |].
    destruct H as [t ->]. eexists. reflexivity.
  - pose proof (encode_items_exception l IH) as H.
    destruct (existsb has_exception l); [rewrite H; reflexivity |].
    destruct H as [t ->]. eexists. reflexivity.
  - pose proof (encode_members_exception d IH) as H.
    destruct (existsb (fun kv => has_exception (snd kv)) d); [rewrite H; reflexivity |].
    destruct H as [t ->]. eexists. reflexivity.
Qed.

(** X2. A packet has bytes exactly when no exception object sits in its
    sender, receiver or data; otherwise [toBytes] raises the TypeError of
    [json.dumps].  In particular the reply that carries an exception never
    has bytes. *)
Theorem toBytes_exception_objects (p : Packet) :
  (if has_exception (sender p) || has_exception (receiver p) || has_exception (data p)
   then toBytes p = Raise not_serializable
   else exists b, toBytes p = Ok b) /\
  (forall e, toBytes (createReply p (VDict [("exception", VExc e)]))
             = Raise not_serializable).
Proof.
  assert (H : forall q,
    if has_exception (sender q) || has_exception (receiver q) || has_exception (data q)
    then toBytes q = Raise not_serializable
    else exists b, toBytes q = Ok b).
  { intro q. pose proof (encode_exception (toDict q)) as H.
    unfold toBytes, toJSON, dumps.
    cbn [toDict has_exception existsb snd orb] in H.
    rewrite orb_false_r in H. rewrite <- orb_assoc.
    destruct (has_exception (sender q) || (has_exception (receiver q) || has_exception (data q))).
    - rewrite H. reflexivity.
    - destruct H as [t ->]. eexists. reflexivity. }
  split; [apply H |].
  intro e. specialize (H (createReply p (VDict [("exception", VExc e)]))).
  cbn [createReply init sender receiver data has_exception existsb snd orb] in H.
  rewrite !orb_true_r in H. exact H.
Qed.

(** *** Tuples *)

Lemma encode_items_ext l :
  Forall (fun x => encode (listify x) = encode x) l ->
  encode_items encode (map listify l) = encode_items encode l.
Proof.
  induction 1 as [|x l Hx _ IHl]; [reflexivity |].
  cbn [map encode_items]. rewrite Hx, IHl.
  destruct l; reflexivity.
Qed.

Lemma encode_members_ext d :
  Forall (fun kv => encode (listify (snd kv)) = encode (snd kv)) d ->
  encode_members encode (map (fun kv => (fst kv, listify (snd kv))) d)
  = encode_members encode d.
Proof.
  induction 1 as [|x d Hx _ IHd]; [reflexivity |].
  cbn [map encode_members fst snd]. rewrite Hx, IHd.
  destruct d; reflexivity.
Qed.

Lemma encode_listify v : encode (listify v) = encode v.
Proof.
  induction v as [| b | z | s | l IH | l IH | d IH | e | f] using value_nested_ind;
    cbn [listify encode]; try reflexivity.
  - rewrite (encode_items_ext l IH). reflexivity.
  - rewrite (encode_items_ext l IH). reflexivity.
  - rewrite (encode_members_ext d IH). reflexivity.
Qed.

Lemma listify_typed v :
  has_exception v = false -> keys_distinct v = true -> json_typed (listify v) = true.
Proof.
  induction v as [| b | z | s | l IH | l IH | d IH | e | f] using value_nested_ind;
    cbn [has_exception keys_distinct listify json_typed]; intros He Hk;
    try reflexivity; try discriminate He.
  - induction IH as [|x l Hx _ IHl]; [reflexivity |].
    cbn [existsb forallb map] in *.
    apply orb_false_iff in He. destruct He as [He1 He2].
    apply andb_true_iff in Hk. destruct Hk as [Hk1 Hk2].
    rewrite (Hx He1 Hk1), (IHl He2 Hk2). reflexivity.
  - induction IH as [|x l Hx _ IHl]; [reflexivity |].
    cbn [existsb forallb map] in *.
    apply orb_false_iff in He. destruct He as [He1 He2].
    apply andb_true_iff in Hk. destruct Hk as [Hk1 Hk2].
    rewrite (Hx He1 Hk1), (IHl He2 Hk2). reflexivity.
  - apply andb_true_iff in Hk. destruct Hk as [Hd Hk].
    assert (Hm : map fst (map (fun kv => (fst kv, listify (snd kv))) d) = map fst d)
      by (rewrite map_map; apply map_ext; reflexivity).
    rewrite Hm, Hd. cbn [andb].
    clear Hd Hm. induction IH as [|x d Hx _ IHd]; [reflexivity |].
    cbn [existsb forallb map snd] in *.
    apply orb_false_iff in He. destruct He as [He1 He2].
    apply andb_true_iff in Hk. destruct Hk as [Hk1 Hk2].
    rewrite (Hx He1 Hk1), (IHd He2 Hk2). reflexivity.
Qed.

Lemma listify_fixed v : json_typed v = true -> listify v = v.
Proof.
  induction v as [| b | z | s | l IH | l IH | d IH | e | f] using value_nested_ind;
    cbn [json_typed listify]; intro H; try reflexivity; try discriminate H.
  - f_equal. induction IH as [|x l Hx _ IHl]; [reflexivity |].
    cbn [forallb map] in *. apply andb_true_iff in H. destruct H as [H1 H2].
    rewrite (Hx H1), (IHl H2). reflexivity.
  - f_equal. apply andb_true_iff in H. destruct H as [_ H].
    induction IH as [|[k x] d Hx _ IHd]; [reflexivity |].
    cbn [forallb map fst snd] in *. apply andb_true_iff in H. destruct H as [H1 H2].
    rewrite (Hx H1), (IHd H2). reflexivity.
Qed.

Lemma portable_typed v : portable v = true -> json_typed (listify v) = true.
Proof.
  unfold portable. intro H. apply andb_true_iff in H. destruct H as [He Hk].
  apply negb_true_iff in He. exact (listify_typed v He Hk).
Qed.

(** The bytes of a portable packet are read back as the packet with its
    tuples turned into lists. *)
Lemma toBytes_read_back fresh p :
  portable_packet p = true ->
  exists bytes, toBytes p = Ok bytes /\
                createFromBytes fresh bytes = Some (Ok (listify_packet p)).
Proof.
  unfold portable_packet. intro H.
  apply andb_true_iff in H. destruct H as [H Hd].
  apply andb_true_iff in H. destruct H as [Hs Hr].
  assert (Htyped : json_typed (toDict (listify_packet p)) = true).
  { cbn. rewrite (portable_typed _ Hs), (portable_typed _ Hr), (portable_typed _ Hd).
    reflexivity. }
  destruct (loads_dumps _ Htyped) as (text & Hdumps & Hloads).
  assert (Hsame : dumps (toDict p) = Ok text).
  { rewrite <- Hdumps. unfold dumps.
    change (toDict (listify_packet p)) with (listify (toDict p)).
    rewrite encode_listify. reflexivity. }
  exists (str_encode text). split.
  - unfold toBytes, toJSON. rewrite Hsame. reflexivity.
  - unfold createFromBytes. rewrite bytes_decode_encode.
    unfold createFromJSON. rewrite Hloads. apply createFromDict_toDict.
Qed.

(** X3. A packet without exception objects, whose dictionaries have
    distinct keys, comes back from its bytes with every tuple turned into
    a list and nothing else changed; a packet of JSON values comes back
    as it was. *)
Theorem bytes_roundtrip_listifies (fresh : string) (p : Packet) :
  portable_packet p = true ->
  (exists bytes, toBytes p = Ok bytes /\
                createFromBytes fresh bytes = Some (Ok (listify_packet p))) /\
  (json_typed (sender p) = true -> json_typed (receiver p) = true ->
   json_typed (data p) = true -> listify_packet p = p).
Proof.
  intro H. split; [exact (toBytes_read_back fresh p H) |].
  intros Hs Hr Hd. unfold listify_packet.
  rewrite (listify_fixed _ Hs), (listify_fixed _ Hr), (listify_fixed _ Hd).
  destruct p. reflexivity.
Qed.

End Text.

Section FrameShape.

Import COBS.
Local Open Scope Z_scope.

Lemma In_slice {A} (l : list A) (a b : nat) (x d : A) :
  In x (slice l a b) -> exists i, (a <= i < b)%nat /\ nth i l d = x.
Proof.
  unfold slice. intro Hin.
  destruct (In_nth _ _ d Hin) as (n & Hn & Hx).
  rewrite length_firstn in Hn.
  rewrite nth_firstn in Hx.
  destruct (Nat.ltb_spec n (b - a)) as [Hlt|Hge]; [| lia].
  rewrite nth_skipn in Hx. exists (a + n)%nat. split; [lia | exact Hx].
Qed.

(** What the encoder appends: a length byte between 1 and 255, and bytes
    of the plaintext that are not zero. *)
Lemma encode_loop_Forall (P : Z -> Prop) raw :
  (forall n, (n <= 254)%nat -> P (Z.of_nat n + 1)) ->
  (forall i, (i < length raw)%nat -> nth i raw 0 <> 0 -> P (nth i raw 0)) ->
  forall fuel index offset coby out,
    Forall P coby ->
    (offset <= index)%nat -> (index - offset <= 254)%nat ->
    (forall i, (offset <= i < index)%nat -> nth i raw 0 <> 0) ->
    encode_loop fuel raw index offset coby = Some out ->
    Forall P out.
Proof.
  intros Hcode Hraw.
  assert (Hslice : forall offset index,
            (index <= length raw)%nat ->
            (forall i, (offset <= i < index)%nat -> nth i raw 0 <> 0) ->
            Forall P (slice raw offset index)).
  { intros offset index Hlen Hnz. apply Forall_forall. intros x Hin.
    destruct (In_slice raw offset index x 0 Hin) as (i & Hi & <-).
    apply Hraw; [lia | apply Hnz; exact Hi]. }
  induction fuel as [|fuel IH]; intros index offset coby out Hcoby Hle Hrun Hnz Henc;
    [discriminate Henc |].
  rewrite encode_loop_step in Henc.
  destruct (Nat.ltb_spec index (length raw)) as [Hlt|Hge].
  - destruct (Z.eqb_spec (nth index raw 0) 0) as [Hz|Hz].
    + apply IH in Henc; [exact Henc | | lia | lia | intros i Hi; lia].
      apply Forall_app. split; [apply Forall_app; split |].
      * exact Hcoby.
      * constructor; [apply Hcode; lia | constructor].
      * apply Hslice; [lia | exact Hnz].
    + destruct (Nat.eqb_spec (index - offset) 254) as [H254|H254].
      * apply IH in Henc; [exact Henc | | lia | lia | intros i Hi; lia].
        apply Forall_app. split; [apply Forall_app; split |].
        -- exact Hcoby.
        -- constructor; [apply (Hcode 254%nat); lia | constructor].
        -- apply Hslice; [lia | exact Hnz].
      * apply IH in Henc; [exact Henc | exact Hcoby | lia | lia |].
        intros i Hi. destruct (Nat.eq_dec i index) as [-> | Hne]; [exact Hz |].
        apply Hnz. lia.
  - injection Henc as <-. exact Hcoby.
Qed.

Lemma bytes_of_list_Ok l b : bytes_of_list l = Ok b -> b = l.
Proof. unfold bytes_of_list. destruct (forallb is_byte l); [intros [= <-]; reflexivity | discriminate]. Qed.

(** X4. A frame has one zero byte, its last. *)
Theorem COBS_encode_single_zero (raw_packet e : py_bytes) :
  COBS_encode raw_packet = Some (Ok e) ->
  exists body, e = body ++ [0] /\ zero_free body.
Proof.
  unfold COBS_encode. intro H.
  destruct (assert_null_terminated raw_packet) as [[]|]; [| discriminate H].
  destruct (encode_loop (encode_fuel raw_packet) raw_packet 0 0 []) as [coby|] eqn:Henc;
    [| discriminate H].
  injection H as H.
  destruct (bytes_of_list coby) as [b|] eqn:Hb; [| discriminate H].
  cbn [bind] in H. injection H as <-.
  apply bytes_of_list_Ok in Hb. subst b.
  exists coby. split; [reflexivity |].
  apply (encode_loop_Forall (fun x => x <> 0) raw_packet) in Henc;
    [exact Henc | intros; lia | intros i _ Hi; exact Hi | constructor | lia | lia
     | intros i Hi; lia].
Qed.

(** X5. The encoder returns a frame for every byte string that ends with
    a zero, and only for those. *)
Theorem COBS_encode_accepts (raw_packet : py_bytes) :
  forallb is_byte raw_packet = true ->
  ((exists e, COBS_encode raw_packet = Some (Ok e)) <-> last_item raw_packet = Ok 0) /\
  (last_item raw_packet <> Ok 0 ->
   exists x, COBS_encode raw_packet = Some (Raise x) /\ COBS_decode raw_packet = Raise x /\
             exc_kind_of x = match raw_packet with [] => IndexError | _ => AssertionError end).
Proof.
  intro Hbytes.
  assert (Hraise : last_item raw_packet <> Ok 0 ->
    exists x, COBS_encode raw_packet = Some (Raise x) /\ COBS_decode raw_packet = Raise x /\
              exc_kind_of x = match raw_packet with [] => IndexError | _ => AssertionError end).
  { intro Hlast. unfold COBS_encode, COBS_decode, assert_null_terminated.
    unfold last_item in *.
    destruct (rev raw_packet) as [|y l] eqn:Hrev.
    - apply (f_equal (@rev Z)) in Hrev. rewrite rev_involutive in Hrev. subst raw_packet.
      eexists. split; [reflexivity |]. split; reflexivity.
    - cbn [bind]. destruct (Z.eqb_spec y 0) as [-> | Hy]; [contradiction Hlast; reflexivity |].
      eexists. split; [reflexivity |]. split; [reflexivity |].
      destruct raw_packet; [discriminate Hrev | reflexivity]. }
  split; [| exact Hraise]. split.
  - intros [e He]. destruct (last_item raw_packet) as [x|x] eqn:Hlast.
    + destruct (Z.eq_dec x 0) as [-> | Hx]; [reflexivity |].
      destruct Hraise as (y & Hy & _); [congruence | congruence].
    + destruct Hraise as (y & Hy & _); [congruence | congruence].
  - intro Hlast. unfold COBS_encode, assert_null_terminated. rewrite Hlast. cbn [bind Z.eqb].
    destruct (encode_loop (encode_fuel raw_packet) raw_packet 0 0 []) as [coby|] eqn:Henc.
    + assert (Hb : Forall (fun x => is_byte x = true) coby).
      { apply (encode_loop_Forall (fun x => is_byte x = true) raw_packet) in Henc;
          [exact Henc | | | constructor | lia | lia | intros i Hi; lia].
        - intros n Hn. unfold is_byte.
          destruct (Z.leb_spec 0 (Z.of_nat n + 1)); [| lia].
          destruct (Z.ltb_spec (Z.of_nat n + 1) 256); [reflexivity | lia].
        - intros i Hi _. rewrite forallb_forall in Hbytes. apply Hbytes.
          apply nth_In. exact Hi. }
      assert (Hb' : forallb is_byte coby = true)
        by (apply forallb_forall; apply Forall_forall; exact Hb).
      unfold bytes_of_list. rewrite Hb'.
      eexists. reflexivity.
    + exfalso. apply (encode_loop_total raw_packet (encode_fuel raw_packet) 0 0 []);
        [unfold encode_fuel; cbn; lia | exact Henc].
Qed.

End FrameShape.

Section PeerBuffers.

Import COBS PeerOps PacketOps.
Local Open Scope Z_scope.

Lemma printable_zero_free b : forallb printable b = true -> zero_free b.
Proof.
  intro H. apply Forall_forall. intros x Hin.
  rewrite forallb_forall in H. specialize (H x Hin).
  unfold printable in H. apply andb_true_iff in H. destruct H as [H _].
  apply Z.leb_le in H. lia.
Qed.

Lemma printable_bytes b : forallb printable b = true -> forallb is_byte b = true.
Proof.
  intro H. apply forallb_forall. intros x Hin.
  rewrite forallb_forall in H. specialize (H x Hin).
  unfold printable in H. apply andb_true_iff in H. destruct H as [H1 H2].
  apply Z.leb_le in H1. apply Z.leb_le in H2. unfold is_byte.
  destruct (Z.leb_spec 0 x); [| lia]. destruct (Z.ltb_spec x 256); [reflexivity | lia].
Qed.

Lemma split_at_zero_frame body : forall rest,
  zero_free body -> split_at_zero (body ++ 0 :: rest) = Some (body, rest).
Proof.
  induction body as [|x body IH]; intros rest Hfree; [reflexivity |].
  apply Forall_cons_iff in Hfree. destruct Hfree as [Hx Hfree].
  cbn [app split_at_zero]. destruct (Z.eqb_spec x 0) as [H0|_]; [contradiction |].
  rewrite IH; [reflexivity | exact Hfree].
Qed.

Lemma split_at_zero_none b : zero_free b -> split_at_zero b = None.
Proof.
  induction b as [|x b IH]; intro Hfree; [reflexivity |].
  apply Forall_cons_iff in Hfree. destruct Hfree as [Hx Hfree].
  cbn [split_at_zero]. destruct (Z.eqb_spec x 0) as [H0|_]; [contradiction |].
  rewrite IH; [reflexivity | exact Hfree].
Qed.

(** A text without zeros, of at most 254 bytes, is framed as its length
    plus one, the text, and a zero. *)
Lemma encode_one_block text :
  zero_free text -> forallb is_byte text = true -> (length text <= 254)%nat ->
  COBS_encode (text ++ [0]) = Some (Ok ((Z.of_nat (length text) + 1) :: text ++ [0])).
Proof.
  intros Hfree Hbytes Hlen.
  unfold COBS_encode, assert_null_terminated. rewrite last_item_terminated.
  cbn [bind Z.eqb].
  pose proof (encode_blocks (text ++ [0]) [text] [] [] (encode_fuel (text ++ [0]))) as Henc.
  cbn [length app] in Henc.
  rewrite Henc.
  - cbn [app frame map concat]. rewrite app_nil_r.
    unfold bytes_of_list. cbn [forallb]. rewrite Hbytes.
    assert (Hcode : is_byte (Z.of_nat (length text) + 1) = true).
    { unfold is_byte. destruct (Z.leb_spec 0 (Z.of_nat (length text) + 1)); [| lia].
      destruct (Z.ltb_spec (Z.of_nat (length text) + 1) 256); [reflexivity | lia]. }
    rewrite Hcode. reflexivity.
  - unfold plain. cbn [map concat]. rewrite app_nil_r. reflexivity.
  - constructor; [exact Hfree | constructor].
  - constructor; [exact Hlen | constructor].
  - unfold plain, encode_fuel. cbn [map concat]. rewrite app_nil_r. lia.
Qed.

(** The frame of a text of at most 253 bytes, cut at its zero and closed
    with the letter x and a zero, decodes to the text and one more byte. *)
Lemma decode_tagged text :
  (length text <= 253)%nat ->
  COBS_decode (((Z.of_nat (length text) + 1) :: text) ++ [120; 0]) = Ok (text ++ [0]).
Proof.
  intro Hlen.
  set (raw := ((Z.of_nat (length text) + 1) :: text) ++ [120; 0]).
  assert (Hraw : raw = [Z.of_nat (length text) + 1] ++ text ++ [120; 0]) by reflexivity.
  assert (Hsize : length raw = (length text + 3)%nat).
  { rewrite Hraw. rewrite !length_app. cbn [length]. lia. }
  unfold COBS_decode, assert_null_terminated.
  replace raw with (((Z.of_nat (length text) + 1) :: text ++ [120]) ++ [0]) at 1
    by (unfold raw; cbn [app]; rewrite <- app_assoc; reflexivity).
  rewrite last_item_terminated. cbn [bind Z.eqb]. f_equal.
  rewrite Hsize.
  replace (length text + 3 - 1)%nat with (length text + 2)%nat by lia.
  change (nth 0 raw 0) with (Z.of_nat (length text) + 1).
  rewrite (decode_skip raw (Z.of_nat (length text) + 1) 1 [] (length text) 1 2); [| lia].
  rewrite decode_loop_step.
  destruct (Z.eqb_spec (Z.of_nat (1 + length text)) (Z.of_nat (length text) + 1)) as [_|Hne];
    [| lia].
  destruct (Z.ltb_spec (Z.of_nat (length text) + 1) 255) as [_|Hge]; [| lia].
  cbn [orb app].
  pose proof (slice_middle [Z.of_nat (length text) + 1] text [120; 0]) as Hslice.
  cbn [length] in Hslice. rewrite <- Hraw in Hslice. rewrite Hslice.
  rewrite decode_loop_step.
  pose proof (nth_two [Z.of_nat (length text) + 1] text [0] 120 0) as Hnth.
  cbn [length] in Hnth. rewrite <- Hraw in Hnth. rewrite Hnth.
  destruct (Z.eqb_spec (Z.of_nat (S (1 + length text))) (Z.of_nat (length text) + 1 + 120))
    as [Heq|_]; [lia |].
  reflexivity.
Qed.

(** The frame of a text of one block. *)
Lemma add_frame sending p bytes :
  toBytes p = Ok bytes -> (length bytes <= 254)%nat ->
  addPacketToTXBuffer sending p
  = Some (Ok (mkPeer (peer_isle sending) (rxBuffer sending)
                     (txBuffer sending ++ (Z.of_nat (length bytes) + 1) :: bytes ++ [0]))).
Proof.
  intros Hbytes Hlen.
  pose proof (toBytes_printable_bytes p bytes Hbytes) as Hprint.
  unfold addPacketToTXBuffer. rewrite Hbytes.
  rewrite encode_one_block;
    [reflexivity | apply printable_zero_free; exact Hprint
     | apply printable_bytes; exact Hprint | exact Hlen].
Qed.

Lemma read_frame fresh receiving p bytes rest :
  portable_packet p = true -> toBytes p = Ok bytes -> (length bytes <= 253)%nat ->
  rxBuffer receiving = ((Z.of_nat (length bytes) + 1) :: bytes ++ [0]) ++ rest ->
  readPacketFromRXBuffer fresh receiving
  = (Some (Ok (Some (listify_packet p))),
     mkPeer (peer_isle receiving) rest (txBuffer receiving)).
Proof.
  intros Hport Hbytes Hlen Hrx.
  pose proof (toBytes_printable_bytes p bytes Hbytes) as Hprint.
  destruct (toBytes_read_back fresh p Hport) as (bytes' & Hbytes' & Hback).
  assert (bytes' = bytes) by congruence. subst bytes'.
  unfold readPacketFromRXBuffer. rewrite Hrx.
  change (((Z.of_nat (length bytes) + 1) :: bytes ++ [0]) ++ rest)
    with ((Z.of_nat (length bytes) + 1) :: (bytes ++ [0]) ++ rest).
  rewrite <- app_assoc. cbn [app].
  change (Z.of_nat (length bytes) + 1 :: bytes ++ 0 :: rest)
    with ((Z.of_nat (length bytes) + 1 :: bytes) ++ 0 :: rest).
  rewrite (split_at_zero_frame ((Z.of_nat (length bytes) + 1) :: bytes) rest).
  - rewrite decode_tagged; [| exact Hlen].
    rewrite removelast_last, Hback. reflexivity.
  - constructor; [lia | apply printable_zero_free; exact Hprint].
Qed.

(** X7. What [addPacketToTXBuffer] appends, [readPacketFromRXBuffer] reads
    back, as long as the JSON text of the packet has at most 253 bytes:
    the reader returns the packet (its tuples as lists) and keeps what
    follows the frame in its buffer. *)
Theorem peer_roundtrip (fresh : string) (sending : Peer) (p : Packet) (bytes : py_bytes) :
  portable_packet p = true ->
  toBytes p = Ok bytes ->
  (length bytes <= 253)%nat ->
  exists coded,
    addPacketToTXBuffer sending p
      = Some (Ok (mkPeer (peer_isle sending) (rxBuffer sending) (txBuffer sending ++ coded))) /\
    forall isle rest tx,
      readPacketFromRXBuffer fresh (mkPeer isle (coded ++ rest) tx)
      = (Some (Ok (Some (listify_packet p))), mkPeer isle rest tx).
Proof.
  intros Hport Hbytes Hlen.
  exists ((Z.of_nat (length bytes) + 1) :: bytes ++ [0]). split.
  - apply add_frame; [exact Hbytes | lia].
  - intros isle rest tx.
    apply (read_frame fresh (mkPeer isle _ tx) p bytes rest); try assumption. reflexivity.
Qed.

Lemma socketSend_stream self accepted :
  let '(sent, out, self') := socketSend self accepted in
  out ++ txBuffer self' = txBuffer self /\ length out = sent /\
  (sent <= 4096)%nat /\
  rxBuffer self' = rxBuffer self /\ peer_isle self' = peer_isle self.
Proof.
  unfold socketSend. cbn [txBuffer rxBuffer peer_isle].
  set (tx := txBuffer self).
  assert (Hoff : length (firstn (Nat.min (length tx) 4096) tx) = Nat.min (length tx) 4096).
  { rewrite length_firstn. lia. }
  rewrite Hoff.
  set (sent := Nat.min accepted (Nat.min (length tx) 4096)).
  assert (Hout : firstn sent (firstn (Nat.min (length tx) 4096) tx) = firstn sent tx).
  { rewrite firstn_firstn. f_equal. lia. }
  rewrite Hout. split; [apply firstn_skipn |].
  split; [rewrite length_firstn; lia |]. split; [lia |]. split; reflexivity.
Qed.

(** One call of [socketSend] hands the socket a prefix of the buffer,
    of at most 4096 bytes and at most what the socket takes, and keeps the
    rest. *)
Lemma socketSend_conserves (self : Peer) (accepted : nat) :
  let '(sent, out, self') := socketSend self accepted in
  out ++ txBuffer self' = txBuffer self /\
  length out = sent /\ (sent <= 4096)%nat /\ (sent <= accepted)%nat /\
  (sent = 0%nat <-> accepted = 0%nat \/ txBuffer self = []).
Proof.
  pose proof (socketSend_stream self accepted) as H.
  unfold socketSend in *. cbn [txBuffer] in *.
  destruct H as (Hcat & Hlen & _). split; [exact Hcat |]. split; [exact Hlen |].
  rewrite length_firstn. split; [lia |]. split; [lia |].
  destruct (txBuffer self) as [|x tx]; cbn [length]; [split; [right; reflexivity | lia] |].
  split; [intro H; left; lia |]. intros [-> | H]; [reflexivity | discriminate H].
Qed.

Lemma transfer_stream accepts : forall sending receiving,
  let '(sending', receiving') := transfer accepts sending receiving in
  rxBuffer receiving' ++ txBuffer sending' = rxBuffer receiving ++ txBuffer sending /\
  (exists crossed, rxBuffer receiving' = rxBuffer receiving ++ crossed) /\
  txBuffer receiving' = txBuffer receiving /\ peer_isle receiving' = peer_isle receiving.
Proof.
  induction accepts as [|accepted accepts IH]; intros sending receiving.
  - cbn [transfer]. split; [reflexivity |]. split; [exists []; symmetry; apply app_nil_r |].
    split; reflexivity.
  - cbn [transfer].
    pose proof (socketSend_stream sending accepted) as Hsend.
    destruct (socketSend sending accepted) as [[sent out] sending1].
    destruct Hsend as (Hcat & Hlen & H4096 & _).
    unfold socketReceive.
    rewrite (firstn_all2 (n := 4096) out) by lia.
    specialize (IH sending1 (mkPeer (peer_isle receiving) (rxBuffer receiving ++ out)
                                    (txBuffer receiving))).
    destruct (transfer accepts sending1 _) as [sending' receiving'].
    cbn [rxBuffer txBuffer peer_isle] in IH.
    destruct IH as (IHcat & (crossed & IHrx) & IHtx & IHisle).
    split; [rewrite IHcat, <- Hcat, <- app_assoc; reflexivity |].
    split; [exists (out ++ crossed); rewrite IHrx, <- app_assoc; reflexivity |].
    split; assumption.
Qed.

(** X8. Whatever the socket takes at each step, the bytes that have
    crossed followed by the bytes still waiting are the stream as it was:
    nothing is lost, repeated or reordered. *)
Theorem transfer_conserves (accepts : list nat) (sending receiving : Peer) :
  rxBuffer (snd (transfer accepts sending receiving))
    ++ txBuffer (fst (transfer accepts sending receiving))
  = rxBuffer receiving ++ txBuffer sending.
Proof.
  pose proof (transfer_stream accepts sending receiving) as H.
  destruct (transfer accepts sending receiving) as [sending' receiving'].
  destruct H as [H _]. exact H.
Qed.

Lemma proper_prefix {A} (l1 l2 body : list A) z :
  l1 ++ l2 = body ++ [z] -> l2 <> [] -> exists l2', body = l1 ++ l2'.
Proof.
  intros Heq Hne. destruct (exists_last Hne) as (l2' & a & ->).
  rewrite app_assoc in Heq. apply app_inj_tail in Heq. destruct Heq as [<- _].
  exists l2'. reflexivity.
Qed.

(** X9. A packet queued on one peer is read on the other exactly when the
    last byte of its frame has crossed; until then the reader finds no
    packet and leaves its buffer alone. *)
Theorem peer_link (fresh : string) (sending receiving : Peer) (p : Packet)
    (bytes : py_bytes) (accepts : list nat) :
  portable_packet p = true ->
  toBytes p = Ok bytes ->
  (length bytes <= 253)%nat ->
  txBuffer sending = [] -> rxBuffer receiving = [] ->
  exists queued,
    addPacketToTXBuffer sending p = Some (Ok queued) /\
    let '(sending', receiving') := transfer accepts queued receiving in
    match txBuffer sending' with
    | [] =>
        readPacketFromRXBuffer fresh receiving'
        = (Some (Ok (Some (listify_packet p))),
           mkPeer (peer_isle receiving) [] (txBuffer receiving))
    | _ :: _ =>
        readPacketFromRXBuffer fresh receiving' = (Some (Ok None), receiving')
    end.
Proof.
  intros Hport Hbytes Hlen Htx Hrx.
  pose proof (toBytes_printable_bytes p bytes Hbytes) as Hprint.
  eexists. split; [apply add_frame; [exact Hbytes | lia] |].
  rewrite Htx. cbn [app].
  pose proof (transfer_stream accepts
    (mkPeer (peer_isle sending) (rxBuffer sending)
            ((Z.of_nat (length bytes) + 1) :: bytes ++ [0])) receiving) as H.
  destruct (transfer accepts _ receiving) as [sending' receiving'].
  cbn [txBuffer] in H. rewrite Hrx in H. cbn [app] in H.
  destruct H as (Hcat & _ & Htx' & Hisle).
  destruct (txBuffer sending') as [|x tx'] eqn:Hleft.
  - rewrite app_nil_r in Hcat. rewrite <- Htx', <- Hisle.
    apply (read_frame fresh receiving' p bytes []); [exact Hport | exact Hbytes | exact Hlen |].
    rewrite app_nil_r. exact Hcat.
  - change (Z.of_nat (length bytes) + 1 :: bytes ++ [0])
      with ((Z.of_nat (length bytes) + 1 :: bytes) ++ [0]) in Hcat.
    destruct (proper_prefix _ _ _ _ Hcat) as [tail Hbody]; [discriminate |].
    assert (Hfree : zero_free (rxBuffer receiving')).
    { assert (Hall : zero_free (Z.of_nat (length bytes) + 1 :: bytes))
        by (constructor; [lia | apply printable_zero_free; exact Hprint]).
      rewrite Hbody in Hall. apply Forall_app in Hall. destruct Hall as [Hall _]. exact Hall. }
    unfold readPacketFromRXBuffer. rewrite (split_at_zero_none _ Hfree). reflexivity.
Qed.

End PeerBuffers.

Section Membership.

Import ManagerOps.

Lemma isles_get_absent d k : isles_get d k = None <-> ~ In k (map fst d).
Proof.
  induction d as [|[k' v] d IH]; cbn [isles_get map fst In].
  - split; [intros _ [] | reflexivity].
  - destruct (String.eqb_spec k' k) as [->|Hne].
    + split; [discriminate | intro H; exfalso; apply H; left; reflexivity].
    + rewrite IH. split; [intros H [Heq|Hin]; [congruence | exact (H Hin)] |].
      intros H Hin. apply H. right. exact Hin.
Qed.

Lemma isles_set_absent d k v : isles_get d k = None -> isles_set d k v = d ++ [(k, v)].
Proof.
  induction d as [|[k' v'] d IH]; cbn [isles_get isles_set app]; [reflexivity |].
  destruct (String.eqb k' k); [discriminate |]. intro H. rewrite (IH H). reflexivity.
Qed.

Lemma isles_del_absent d k : isles_get d k = None -> isles_del d k = Raise (mkExc KeyError k).
Proof.
  induction d as [|[k' v'] d IH]; cbn [isles_get isles_del]; [reflexivity |].
  destruct (String.eqb k' k); [discriminate |]. intro H. rewrite (IH H). reflexivity.
Qed.

Lemma isles_del_appended d k v : isles_get d k = None -> isles_del (d ++ [(k, v)]) k = Ok d.
Proof.
  induction d as [|[k' v'] d IH]; cbn [isles_get isles_del app].
  - rewrite String.eqb_refl. reflexivity.
  - destruct (String.eqb k' k); [discriminate |]. intro H. rewrite (IH H). reflexivity.
Qed.

Lemma isles_get_appended d k v : isles_get d k = None -> isles_get (d ++ [(k, v)]) k = Some v.
Proof.
  induction d as [|[k' v'] d IH]; cbn [isles_get app].
  - rewrite String.eqb_refl. reflexivity.
  - destruct (String.eqb k' k); [discriminate | exact IH].
Qed.

(** X10. A temporary isle whose identifier is not a key yet: inside the
    [with] block the manager finds its connection under that key; leaving
    the block gives the membership back as it was; leaving without having
    entered raises KeyError. *)
Theorem TempIsle_enter_exit (temp : Isle) (self : IsleManager) :
  isles_get (isles self) (isle_identifier temp) = None ->
  isles_get (isles (TempIsle_enter temp self)) (isle_identifier temp)
    = Some (mkEntry (connection temp) None) /\
  TempIsle_exit temp (TempIsle_enter temp self) = Ok self /\
  TempIsle_exit temp self = Raise (mkExc KeyError (isle_identifier temp)).
Proof.
  intro Habsent. unfold TempIsle_enter, TempIsle_exit, with_isles. cbn [isles].
  rewrite (isles_set_absent _ _ _ Habsent). split; [| split].
  - apply isles_get_appended. exact Habsent.
  - rewrite (isles_del_appended _ _ _ Habsent). cbn [bind]. destruct self. reflexivity.
  - rewrite (isles_del_absent _ _ Habsent). reflexivity.
Qed.

Lemma isles_set_keys d k v :
  map fst (isles_set d k v)
  = if existsb (String.eqb k) (map fst d) then map fst d else map fst d ++ [k].
Proof.
  induction d as [|[k' v'] d IH]; cbn [isles_set map fst existsb app]; [reflexivity |].
  rewrite (String.eqb_sym k k').
  destruct (String.eqb k' k); cbn [orb map fst]; [reflexivity |].
  rewrite IH. destruct (existsb (String.eqb k) (map fst d)); reflexivity.
Qed.

Lemma isles_get_set d k v k' :
  isles_get (isles_set d k v) k' = if String.eqb k k' then Some v else isles_get d k'.
Proof.
  induction d as [|[k0 v0] d IH]; cbn [isles_set isles_get].
  - reflexivity.
  - destruct (String.eqb_spec k0 k) as [->|Hne]; cbn [isles_get].
    + destruct (String.eqb k k'); reflexivity.
    + rewrite IH. destruct (String.eqb_spec k0 k') as [->|Hne'].
      * destruct (String.eqb_spec k k'); [congruence | reflexivity].
      * reflexivity.
Qed.

Lemma isles_del_sub d k d' :
  isles_del d k = Ok d' ->
  (forall x, In x (map fst d') -> In x (map fst d)) /\
  (NoDup (map fst d) -> NoDup (map fst d')) /\
  (forall k' e, isles_get d' k' = Some e -> NoDup (map fst d) -> isles_get d k' = Some e).
Proof.
  revert d'. induction d as [|[k0 v0] d IH]; intros d' H; cbn [isles_del] in H;
    [discriminate H |].
  destruct (String.eqb_spec k0 k) as [->|Hne].
  - injection H as <-. cbn [map fst]. split; [intros x Hx; right; exact Hx |]. split.
    + intro Hnd. apply NoDup_cons_iff in Hnd. apply Hnd.
    + intros k' e Hget Hnd. cbn [isles_get].
      destruct (String.eqb_spec k k') as [->|_]; [| exact Hget].
      apply NoDup_cons_iff in Hnd. destruct Hnd as [Hnot _].
      apply isles_get_absent in Hnot. congruence.
  - destruct (isles_del d k) as [d''|] eqn:Hdel; [| discriminate H].
    cbn [bind] in H. injection H as <-.
    destruct (IH d'' eq_refl) as (Hsub & Hnd' & Hget').
    cbn [map fst]. split; [| split].
    + intros x [Hx|Hx]; [left; exact Hx | right; apply Hsub; exact Hx].
    + intro Hnd. apply NoDup_cons_iff in Hnd. destruct Hnd as [Hnot Hnd].
      constructor; [intro Hin; apply Hnot; apply Hsub; exact Hin | apply Hnd'; exact Hnd].
    + intros k' e Hget Hnd. cbn [isles_get] in *.
      destruct (String.eqb k0 k'); [exact Hget |].
      apply NoDup_cons_iff in Hnd. apply Hget'; [exact Hget | apply Hnd].
Qed.

Lemma isles_set_NoDup d k v : NoDup (map fst d) -> NoDup (map fst (isles_set d k v)).
Proof.
  intro Hnd. rewrite isles_set_keys.
  destruct (existsb (String.eqb k) (map fst d)) eqn:Hex; [exact Hnd |].
  apply NoDup_app; [exact Hnd | constructor; [intros [] | constructor] |].
  intros x Hx [Heq | []]. subst x.
  assert (existsb (String.eqb k) (map fst d) = true); [| congruence].
  apply existsb_exists. exists k. split; [exact Hx | apply String.eqb_refl].
Qed.

(** Whatever isles were added and whatever temporary isles came and
    went, the keys of the membership are pairwise distinct, as the
    theorems on the routing loop and on [stop] assume, and every thread
    runs the event loop of the isle registered under its key. *)
Lemma reachable_membership (self : IsleManager) :
  reachable self ->
  NoDup (map fst (isles self)) /\
  (forall k e t, isles_get (isles self) k = Some e -> entry_thread e = Some t ->
                 thread_target t = k).
Proof.
  induction 1 as [| self isleInstance _ [IHnd IHth] | self fresh _ [IHnd IHth]
                  | self temp self' _ [IHnd IHth] Hexit].
  - split; [constructor | discriminate].
  - unfold addIsle, with_isles. cbn [isles]. split.
    + apply isles_set_NoDup. exact IHnd.
    + intros k e t Hget Ht. rewrite isles_get_set in Hget.
      destruct (String.eqb_spec (isle_identifier isleInstance) k) as [<-|_].
      * injection Hget as <-. cbn in Ht. injection Ht as <-. reflexivity.
      * exact (IHth k e t Hget Ht).
  - unfold TempIsle_enter, with_isles. cbn [isles]. split.
    + apply isles_set_NoDup. exact IHnd.
    + intros k e t Hget Ht. rewrite isles_get_set in Hget.
      destruct (String.eqb (isle_identifier (TempIsle_init fresh)) k).
      * injection Hget as <-. discriminate Ht.
      * exact (IHth k e t Hget Ht).
  - unfold TempIsle_exit in Hexit.
    destruct (isles_del (isles self) (isle_identifier temp)) as [d|] eqn:Hdel;
      [| discriminate Hexit].
    cbn [bind] in Hexit. injection Hexit as <-. unfold with_isles. cbn [isles].
    destruct (isles_del_sub _ _ _ Hdel) as (_ & Hnd & Hget). split.
    + exact (Hnd IHnd).
    + intros k e t Hk Ht. exact (IHth k e t (Hget k e Hk IHnd) Ht).
Qed.

(** *** The shutdown sequence *)

Lemma isles_get_middle done k e todo :
  ~ In k (map fst done) -> isles_get (done ++ (k, e) :: todo) k = Some e.
Proof.
  induction done as [|[k' v'] done IH]; cbn [app isles_get map fst In]; intro Hnot.
  - rewrite String.eqb_refl. reflexivity.
  - destruct (String.eqb_spec k' k) as [->|_]; [exfalso; apply Hnot; left; reflexivity |].
    apply IH. intro Hin. apply Hnot. right. exact Hin.
Qed.

Lemma isles_set_middle done k e v todo :
  ~ In k (map fst done) ->
  isles_set (done ++ (k, e) :: todo) k v = done ++ (k, v) :: todo.
Proof.
  induction done as [|[k' v'] done IH]; cbn [app isles_set map fst In]; intro Hnot.
  - rewrite String.eqb_refl. reflexivity.
  - destruct (String.eqb_spec k' k) as [->|_]; [exfalso; apply Hnot; left; reflexivity |].
    rewrite IH; [reflexivity |]. intro Hin. apply Hnot. right. exact Hin.
Qed.

(** The first loop of [stop], from any point of its run: the members still
    to visit each get their packet, the others are left alone, and the
    packets are logged in order. *)
Lemma send_shutdowns_spec fresh : forall todo done n self,
  isles self = done ++ todo ->
  NoDup (map fst (done ++ todo)) ->
  (exists todo',
     isles (send_shutdowns (map fst todo) n fresh self) = done ++ todo' /\
     map fst todo' = map fst todo /\
     Forall2 (fun before after =>
                exists ident, got_packet (shutdown_packet self ident (fst before))
                                         (snd before) (snd after)) todo todo') /\
  (exists sent,
     logbuffer (send_shutdowns (map fst todo) n fresh self) = logbuffer self ++ sent /\
     map receiver sent = map (fun kv => VStr (fst kv)) todo) /\
  logfile (send_shutdowns (map fst todo) n fresh self) = logfile self /\
  joined (send_shutdowns (map fst todo) n fresh self) = joined self /\
  mgr_identifier (send_shutdowns (map fst todo) n fresh self) = mgr_identifier self /\
  mgr_running (send_shutdowns (map fst todo) n fresh self) = mgr_running self /\
  open_fails (send_shutdowns (map fst todo) n fresh self) = open_fails self.
Proof.
  induction todo as [|[k e] todo IH]; intros done n self Hisles Hnd.
  - cbn [map send_shutdowns]. split; [| split; [| repeat split]].
    + exists []. split; [exact Hisles |]. split; [reflexivity | constructor].
    + exists []. split; [symmetry; apply app_nil_r | reflexivity].
  - assert (Hnot : ~ In k (map fst done)).
    { rewrite map_app in Hnd. cbn [map fst] in Hnd.
      apply NoDup_remove_2 in Hnd. intro Hin. apply Hnd. apply in_or_app. left. exact Hin. }
    set (packet := createPacket self (fresh n) (VStr k) (VStr "shutdown")).
    set (e' := mkEntry (ConnectionOps.routerSend (entry_connection e) packet) (entry_thread e)).
    set (self1 := mkIsleManager (mgr_identifier self) (done ++ (k, e') :: todo)
                    (mgr_running self) (islesToBeAdded self) (logbuffer self ++ [packet])
                    (logfile self) (joined self) (open_fails self)).
    assert (Hstep : send_shutdowns (map fst ((k, e) :: todo)) n fresh self
                    = send_shutdowns (map fst todo) (S n) fresh self1).
    { cbn [map fst send_shutdowns]. fold packet. f_equal.
      unfold writeToLogBuffer, with_isles.
      cbn [isles mgr_identifier mgr_running islesToBeAdded logbuffer logfile joined
           open_fails].
      rewrite Hisles, (isles_get_middle done k e todo Hnot).
      rewrite (isles_set_middle done k e _ todo Hnot). reflexivity. }
    rewrite Hstep.
    destruct (IH (done ++ [(k, e')]) (S n) self1)
      as ((todo' & Hd & Hk & Hall) & (sent & Hlog & Hsent) & Hfile & Hjoin & Hid & Hrun
          & Hopen).
    { unfold self1. cbn [isles]. rewrite <- app_assoc. reflexivity. }
    { rewrite <- app_assoc. cbn [app]. rewrite !map_app in *. exact Hnd. }
    split; [| split; [| repeat split]].
    + exists ((k, e') :: todo'). split; [rewrite Hd, <- app_assoc; reflexivity |].
      split; [cbn [map fst]; rewrite Hk; reflexivity |].
      constructor; [| exact Hall].
      exists (fresh n). cbn [fst snd]. unfold got_packet, e'. cbn.
      repeat split.
    + exists (packet :: sent). split.
      * rewrite Hlog. unfold self1. cbn [logbuffer]. rewrite <- app_assoc. reflexivity.
      * cbn [map fst]. rewrite Hsent. reflexivity.
    + exact Hfile.
    + exact Hjoin.
    + exact Hid.
    + exact Hrun.
    + exact Hopen.
Qed.

Lemma join_thread_fields ends self k self' :
  join_thread ends self k = Some (Ok self') ->
  isles self' = isles self /\ logbuffer self' = logbuffer self /\
  logfile self' = logfile self /\ mgr_running self' = mgr_running self /\
  open_fails self' = open_fails self.
Proof.
  unfold join_thread. destruct (isles_get (isles self) k) as [e|]; [| discriminate].
  destruct (entry_thread e) as [t|]; [| discriminate].
  destruct (ends t); [| discriminate].
  intros [= <-]. repeat split.
Qed.

Lemma join_all_fields ends keys : forall self,
  isles (snd (join_all ends keys self)) = isles self /\
  logbuffer (snd (join_all ends keys self)) = logbuffer self /\
  logfile (snd (join_all ends keys self)) = logfile self /\
  mgr_running (snd (join_all ends keys self)) = mgr_running self /\
  open_fails (snd (join_all ends keys self)) = open_fails self.
Proof.
  induction keys as [|k keys IH]; intro self; cbn [join_all]; [repeat split |].
  destruct (join_thread ends self k) as [[self1|x]|] eqn:Hj; [| repeat split ..].
  destruct (join_thread_fields _ _ _ _ Hj) as (H1 & H2 & H3 & H4 & H5).
  destruct (IH self1) as (I1 & I2 & I3 & I4 & I5).
  rewrite I1, I2, I3, I4, I5. repeat split; assumption.
Qed.

(** The two writes of [stop]: what the log holds after them, whatever the
    file system does, and when the buffer is empty. *)
Lemma write_conserves self :
  logfile (writeLogBufferToFile self) ++ logbuffer (writeLogBufferToFile self)
  = logfile self ++ logbuffer self.
Proof.
  unfold writeLogBufferToFile.
  destruct (open_fails self) as [|[|] later]; cbn [logfile logbuffer];
    rewrite ?app_nil_r; reflexivity.
Qed.

Lemma write_fields self :
  isles (writeLogBufferToFile self) = isles self /\
  mgr_identifier (writeLogBufferToFile self) = mgr_identifier self /\
  mgr_running (writeLogBufferToFile self) = mgr_running self /\
  islesToBeAdded (writeLogBufferToFile self) = islesToBeAdded self /\
  joined (writeLogBufferToFile self) = joined self /\
  open_fails (writeLogBufferToFile self) = tl (open_fails self).
Proof.
  unfold writeLogBufferToFile.
  destruct (open_fails self) as [|[|] later]; repeat split.
Qed.

Lemma write_opened self :
  hd false (open_fails self) = false -> logbuffer (writeLogBufferToFile self) = [].
Proof.
  unfold writeLogBufferToFile.
  destruct (open_fails self) as [|[|] later]; [reflexivity | discriminate | reflexivity].
Qed.

(** The membership after [stop]: every entry has got its packet. *)
Lemma stop_delivers (ends : Thread -> bool) (fresh : nat -> string) (self : IsleManager) :
  NoDup (map fst (isles self)) ->
  map fst (isles (snd (stop ends fresh self))) = map fst (isles self) /\
  Forall2 (fun before after =>
             exists ident, got_packet (shutdown_packet self ident (fst before))
                                      (snd before) (snd after))
          (isles self) (isles (snd (stop ends fresh self))).
Proof.
  intros Hnd. unfold stop.
  set (self1 := writeLogBufferToFile self).
  destruct (write_fields self) as (W1 & W2 & _). fold self1 in W1, W2.
  rewrite <- W1 in Hnd.
  destruct (send_shutdowns_spec fresh (isles self1) [] 0 self1 eq_refl Hnd)
    as ((todo' & Hd & Hk & Hall) & _).
  set (self2 := send_shutdowns (map fst (isles self1)) 0 fresh self1) in *.
  destruct (join_all_fields ends (map fst (isles (writeLogBufferToFile self2)))
                            (writeLogBufferToFile self2)) as (J1 & _).
  destruct (write_fields self2) as (V1 & _).
  rewrite J1, V1. cbn [app] in Hd. rewrite Hd, <- W1.
  split; [exact Hk |].
  assert (Hsame : forall ident k, shutdown_packet self1 ident k = shutdown_packet self ident k)
    by (intros ident k; unfold shutdown_packet; rewrite W2; reflexivity).
  clear - Hall Hsame. induction Hall as [|x y l l' [ident Hxy] _ IH]; constructor;
    [exists ident; rewrite <- Hsame; exact Hxy | exact IH].
Qed.

(** X12. [stop] puts one shutdown packet, addressed to the member by its
    bare key, at the end of the inbound queue of every member, and nothing
    else; whether or not the joins that follow return.  Each of these
    packets is logged, in the order of the keys; the log buffer is empty
    afterwards when the second of the two calls of [open] succeeds. *)
Theorem stop_notifies (ends : Thread -> bool) (fresh : nat -> string) (self : IsleManager) :
  NoDup (map fst (isles self)) ->
  let after := snd (stop ends fresh self) in
  map fst (isles after) = map fst (isles self) /\
  Forall2 (fun before after =>
             exists ident, got_packet (shutdown_packet self ident (fst before))
                                      (snd before) (snd after))
          (isles self) (isles after) /\
  (exists sent,
     logfile after ++ logbuffer after = (logfile self ++ logbuffer self) ++ sent /\
     map receiver sent = map (fun kv => VStr (fst kv)) (isles self)) /\
  (nth 1 (open_fails self) false = false -> logbuffer after = []) /\
  open_fails after = skipn 2 (open_fails self).
Proof.
  intros Hnd after. subst after. unfold stop.
  set (self1 := writeLogBufferToFile self).
  destruct (write_fields self) as (W1 & W2 & _ & _ & _ & W6). fold self1 in W1, W2, W6.
  rewrite <- W1 in Hnd.
  destruct (send_shutdowns_spec fresh (isles self1) [] 0 self1 eq_refl Hnd)
    as ((todo' & Hd & Hk & Hall) & (sent & Hlog & Hsent) & Hfile & _ & _ & _ & Hopen).
  set (self2 := send_shutdowns (map fst (isles self1)) 0 fresh self1) in *.
  destruct (join_all_fields ends (map fst (isles (writeLogBufferToFile self2)))
                            (writeLogBufferToFile self2)) as (J1 & J2 & J3 & _ & J5).
  destruct (write_fields self2) as (V1 & _ & _ & _ & _ & V6).
  rewrite J1, J2, J3, J5, V1, V6, Hopen, W6.
  cbn [app] in Hd. rewrite Hd, <- W1.
  split; [exact Hk |]. split.
  { assert (Hsame : forall ident k, shutdown_packet self1 ident k = shutdown_packet self ident k)
      by (intros ident k; unfold shutdown_packet; rewrite W2; reflexivity).
    clear - Hall Hsame. induction Hall as [|x y l l' [ident Hxy] _ IH]; constructor;
      [exists ident; rewrite <- Hsame; exact Hxy | exact IH]. }
  split.
  { exists sent. split; [| rewrite Hsent, W1; reflexivity].
    rewrite write_conserves, Hfile, Hlog, app_assoc. f_equal.
    apply write_conserves. }
  split.
  - intro Hsecond. apply write_opened. rewrite Hopen, W6.
    destruct (open_fails self) as [|a [|b later]]; cbn in Hsecond |- *;
      [reflexivity | reflexivity | exact Hsecond].
  - destruct (open_fails self) as [|a [|b later]]; reflexivity.
Qed.

Lemma isles_get_In d k e : NoDup (map fst d) -> In (k, e) d -> isles_get d k = Some e.
Proof.
  induction d as [|[k' e'] d IH]; cbn [map fst isles_get In]; intros Hnd Hin; [destruct Hin |].
  apply NoDup_cons_iff in Hnd. destruct Hnd as [Hnot Hnd].
  destruct Hin as [[= -> ->]|Hin]; [rewrite String.eqb_refl; reflexivity |].
  destruct (String.eqb_spec k' k) as [->|_]; [| exact (IH Hnd Hin)].
  exfalso. apply Hnot. apply (in_map fst) in Hin. exact Hin.
Qed.

(** The second loop of [stop] over the entries [d] of the membership. *)
Lemma join_all_map ends d : forall self,
  (forall kv, In kv d -> isles_get (isles self) (fst kv) = Some (snd kv)) ->
  (fst (join_all ends (map fst d) self) = Some (Ok tt) <-> Forall (joinable ends) d) /\
  (fst (join_all ends (map fst d) self) = None <-> waits_for_ever ends d) /\
  (fst (join_all ends (map fst d) self) = Some (Ok tt) ->
   joined (snd (join_all ends (map fst d) self)) = joined self ++ thread_names d).
Proof.
  induction d as [|[k [c th]] d IH]; intros self Hd;
    cbn [map fst join_all waits_for_ever snd entry_thread].
  - split; [split; [constructor | reflexivity] |]. split.
    + split; [discriminate | intros []].
    + intros _. symmetry. apply app_nil_r.
  - pose proof (Hd _ (or_introl eq_refl)) as He. cbn [fst snd] in He.
    unfold join_thread. rewrite He. cbn [entry_thread].
    destruct th as [t|]; [destruct (ends t) eqn:Hends |].
    + set (self1 := mkIsleManager _ _ _ _ _ _ _ _).
      destruct (IH self1) as (IHiff & IHwait & IHjoined).
      { intros kv Hin. apply Hd. right. exact Hin. }
      split; [| split].
      * rewrite IHiff. split.
        -- intro H. constructor; [exists t; split; [reflexivity | exact Hends] | exact H].
        -- intro H. apply Forall_cons_iff in H. apply H.
      * exact IHwait.
      * intro Hok. rewrite (IHjoined Hok). unfold self1, thread_names.
        cbn [joined flat_map snd entry_thread]. rewrite <- app_assoc. reflexivity.
    + cbn [fst]. split; [| split].
      * split; [discriminate |]. intro H. apply Forall_cons_iff in H.
        destruct H as [(t' & Ht' & Hgood) _]. cbn in Ht'. injection Ht' as <-. congruence.
      * split; [intros _; exact I | reflexivity].
      * discriminate.
    + cbn [fst]. split; [| split].
      * split; [discriminate |]. intro H. apply Forall_cons_iff in H.
        destruct H as [(t' & Ht' & _) _]. discriminate Ht'.
      * split; [discriminate | intros []].
      * discriminate.
Qed.

(** Entries that differ by their queues only have the same threads. *)
Lemma got_packet_threads ends (P : string -> entry -> entry -> Prop) d d' :
  Forall2 (fun before after => P (fst before) (snd before) (snd after)) d d' ->
  (forall k b a, P k b a -> entry_thread a = entry_thread b) ->
  thread_names d' = thread_names d /\
  (Forall (joinable ends) d' <-> Forall (joinable ends) d) /\
  (waits_for_ever ends d' <-> waits_for_ever ends d).
Proof.
  intros H HP. induction H as [|x y d d' Hxy _ (IHn & IHf & IHw)].
  - split; [reflexivity |]. split; reflexivity.
  - pose proof (HP _ _ _ Hxy) as Hth. unfold thread_names in *.
    cbn [flat_map waits_for_ever]. rewrite Hth, IHn. split; [reflexivity |]. split.
    + rewrite !Forall_cons_iff, IHf. unfold joinable. rewrite Hth. reflexivity.
    + destruct (entry_thread (snd x)) as [t|]; [| reflexivity].
      destruct (ends t); [exact IHw | reflexivity].
Qed.

(** X13. [stop] runs to its end exactly when every member has a thread and
    these threads end; the threads are then joined once each, in the order
    of the keys.  It waits for ever exactly when the first member that
    stands in the way is one whose thread does not end. *)
Theorem stop_completes (ends : Thread -> bool) (fresh : nat -> string) (self : IsleManager) :
  NoDup (map fst (isles self)) ->
  (fst (stop ends fresh self) = Some (Ok tt) <-> Forall (joinable ends) (isles self)) /\
  (fst (stop ends fresh self) = None <-> waits_for_ever ends (isles self)) /\
  (fst (stop ends fresh self) = Some (Ok tt) ->
   joined (snd (stop ends fresh self)) = joined self ++ thread_names (isles self)).
Proof.
  intro Hnd. unfold stop.
  set (self1 := writeLogBufferToFile self).
  destruct (write_fields self) as (W1 & _ & _ & _ & W5 & _). fold self1 in W1, W5.
  rewrite <- W1 in Hnd.
  destruct (send_shutdowns_spec fresh (isles self1) [] 0 self1 eq_refl Hnd)
    as ((d' & Hd & Hk & Hall) & _ & _ & Hjoined & _).
  set (self2 := send_shutdowns (map fst (isles self1)) 0 fresh self1) in *.
  destruct (write_fields self2) as (V1 & _ & _ & _ & V5 & _).
  cbn [app] in Hd. rewrite V1, Hd.
  destruct (join_all_map ends d' (writeLogBufferToFile self2)) as (Hiff & Hwait & Hj).
  { intros [k e] Hin. cbn [fst snd]. rewrite V1, Hd.
    apply isles_get_In; [rewrite Hk; exact Hnd | exact Hin]. }
  destruct (got_packet_threads ends
              (fun k b a => exists ident, got_packet (shutdown_packet self1 ident k) b a)
              (isles self1) d' Hall) as (Hnames & Hforall & Hwaits).
  { intros k b a [ident [Hth _]]. exact Hth. }
  rewrite W1 in Hnames, Hforall, Hwaits.
  rewrite <- Hnames, <- Hforall, <- Hwaits. split; [exact Hiff |]. split; [exact Hwait |].
  intro Hok. rewrite (Hj Hok), V5, Hjoined, W5. reflexivity.
Qed.

End Membership.

Section Serving.

Import IsleOps.

Lemma handle_one_answers self p reply :
  answers (routes self) p reply ->
  exists self1,
    handle_one self p = (Ok tt, self1) /\
    toRouter (connection self1) = toRouter (connection self) ++ [reply] /\
    toOwner (connection self1) = toOwner (connection self) /\
    running self1 = running self /\ routes self1 = routes self /\
    isle_identifier self1 = isle_identifier self.
Proof.
  intros (Hlate & name & f & a & args & k & kwargs & Hlen & Hkey & Hget & Ha & Hargs
          & Hk & Hkwargs & Hcall).
  unfold handle_one, handleTooLate. rewrite Hlate. cbn [bind].
  unfold handleIslet. rewrite Hlen. cbn [Nat.eqb]. rewrite Hkey.
  cbn [bind routes_lookup]. rewrite Hget. cbn [route_name]. unfold call_islet.
  rewrite Ha. cbn [bind]. rewrite Hk. cbn [bind]. rewrite Hkwargs. cbn [bind].
  rewrite Hargs. cbn [bind].
  destruct Hcall as [(v & Hf & ->) | (e & Hf & Hkind & ->)]; rewrite Hf.
  - eexists. split; [reflexivity |]. cbn. repeat split.
  - rewrite Hkind. eexists. split; [reflexivity |]. cbn. repeat split.
Qed.

Lemma incoming_loop_answers : forall queue replies fuel self,
  toOwner (connection self) = queue ->
  Forall2 (answers (routes self)) queue replies ->
  (length queue < fuel)%nat ->
  exists self',
    incoming_loop fuel self = Some (Ok tt, self') /\
    toOwner (connection self') = [] /\
    toRouter (connection self') = toRouter (connection self) ++ replies /\
    running self' = running self /\ routes self' = routes self /\
    isle_identifier self' = isle_identifier self.
Proof.
  induction queue as [|p queue IH]; intros replies fuel self Hq Hall Hfuel;
    (destruct fuel as [|fuel]; [cbn in Hfuel; lia |]);
    cbn [incoming_loop]; unfold ConnectionOps.ownerReceive; rewrite Hq.
  - inversion Hall. subst. exists self. rewrite app_nil_r. repeat split. exact Hq.
  - inversion Hall as [|? reply ? replies' Hp Hrest]. subst.
    set (self0 := with_connection self (mkConnection (toRouter (connection self)) queue)).
    destruct (handle_one_answers self0 p reply Hp)
      as (self1 & Hone & Hout & Hin & Hrun & Hroutes & Hid).
    rewrite Hone.
    destruct (IH replies' fuel self1) as (self' & Hloop & Hin' & Hout' & Hrun' & Hroutes' & Hid').
    + rewrite Hin. reflexivity.
    + rewrite Hroutes. exact Hrest.
    + cbn [length] in Hfuel. lia.
    + exists self'. split; [exact Hloop |]. split; [exact Hin' |].
      split; [rewrite Hout', Hout; cbn; rewrite <- app_assoc; reflexivity |].
      split; [rewrite Hrun', Hrun; reflexivity |].
      split; [rewrite Hroutes', Hroutes; reflexivity | rewrite Hid', Hid; reflexivity].
Qed.

(** X14. Requests waiting in the inbound queue are answered one by one, in
    order: one call of [__handleIncomingPackets] empties the queue and adds
    to the outbound queue the reply owed to each request. *)
Theorem incoming_answers_in_order (self : Isle) (replies : list Packet) :
  Forall2 (answers (routes self)) (toOwner (connection self)) replies ->
  exists self',
    handleIncomingPackets self = Some (Ok tt, self') /\
    toOwner (connection self') = [] /\
    toRouter (connection self') = toRouter (connection self) ++ replies /\
    running self' = running self.
Proof.
  intro Hall. unfold handleIncomingPackets.
  destruct (incoming_loop_answers _ replies (S (length (toOwner (connection self)))) self
              eq_refl Hall) as (self' & H1 & H2 & H3 & H4 & _); [lia |].
  exists self'. repeat split; assumption.
Qed.

(** *** The shutdown packet *)

Lemma is_substring_return_shutdown : is_substring "return" "shutdown" = false.
Proof. reflexivity. Qed.

Lemma handle_one_shutdown self p n :
  data p = VStr "shutdown" -> py_len (receiver p) = Ok n -> n <> 2%nat ->
  handle_one self p = (Ok tt, with_running self false).
Proof.
  intros Hdata Hlen Hn. unfold handle_one, handleTooLate, handleIslet, handleShutdown.
  rewrite Hdata, Hlen. cbn [py_contains bind]. rewrite is_substring_return_shutdown.
  destruct (Nat.eqb_spec n 2) as [->|_]; [contradiction |].
  reflexivity.
Qed.

(** X15. The packet [stop] sends stops the isle it is addressed to, unless
    the identifier of the isle is two characters long: the bare key is then
    taken for a two-hop path, and handling the packet raises. *)
Theorem stop_packet_handled (self : Isle) (manager : IsleManager) (ident : string) :
  let p := shutdown_packet manager ident (isle_identifier self) in
  (String.length (isle_identifier self) <> 2%nat ->
   handle_one self p = (Ok tt, with_running self false)) /\
  (String.length (isle_identifier self) = 2%nat ->
   exists e, handle_one self p = (Raise e, self)).
Proof.
  intro p. split.
  - intro Hlen. apply (handle_one_shutdown self p (String.length (isle_identifier self)));
      [reflexivity | reflexivity | exact Hlen].
  - intro Hlen. unfold handle_one, handleTooLate, handleIslet. subst p.
    cbn [shutdown_packet data receiver py_contains py_len bind].
    rewrite is_substring_return_shutdown, Hlen. cbn [Nat.eqb].
    destruct (key <- py_item_from_end (VStr (isle_identifier self)) 2 ;;
              func <- routes_lookup (routes self) key ;; Ok (route_name key, func))
      as [[name func]|e]; [| eexists; reflexivity].
    unfold call_islet. cbn [data py_getitem bind exc_kind_of]. eexists. reflexivity.
Qed.

Lemma handleIncomingPackets_idle self :
  toOwner (connection self) = [] -> handleIncomingPackets self = Some (Ok tt, self).
Proof.
  intro H. unfold handleIncomingPackets. rewrite H. cbn [length incoming_loop].
  unfold ConnectionOps.ownerReceive. rewrite H. reflexivity.
Qed.

Lemma deliver_nothing self : toOwner (connection self) = [] -> deliver self [] = self.
Proof.
  intro H. unfold deliver, with_connection. rewrite app_nil_r.
  destruct self as [i [r o] rs run cs]. reflexivity.
Qed.

Lemma eventloop_idle n : forall self,
  running self = true -> toOwner (connection self) = [] ->
  forall sched,
    EventLoop.eventloop_from EventLoop.plain (repeat [] n ++ sched) self
    = EventLoop.eventloop_from EventLoop.plain sched self.
Proof.
  induction n as [|n IH]; intros self Hrun Hq sched; [reflexivity |].
  cbn [repeat app EventLoop.eventloop_from]. rewrite Hrun.
  cbn [EventLoop.plain EventLoop.hook_loop EventLoop.hook_appended EventLoop.pass
       EventLoop.run_tasks].
  rewrite (handleIncomingPackets_idle self Hq).
  rewrite (deliver_nothing self Hq).
  apply IH; assumption.
Qed.

(** X16. An isle with nothing to do stays in its event loop; it leaves
    the loop at the end of the pass that reads the shutdown packet of
    [stop], and what is delivered after that pass is never read. *)
Theorem eventloop_until_shutdown (self : Isle) (manager : IsleManager) (ident : string)
    (n : nat) (later : list Packet) (rest : list (list Packet)) :
  toOwner (connection self) = [] ->
  String.length (isle_identifier self) <> 2%nat ->
  EventLoop.eventloop (repeat [] n) self = None /\
  EventLoop.eventloop
    (repeat [] n ++ [shutdown_packet manager ident (isle_identifier self)] :: later :: rest)
    self
  = Some (Ok tt, deliver (with_running self false) later).
Proof.
  intros Hq Hlen. unfold EventLoop.eventloop, EventLoop.eventloop_with.
  set (self0 := with_running self true).
  assert (Hq0 : toOwner (connection self0) = []) by exact Hq.
  split.
  - rewrite <- (app_nil_r (repeat [] n)).
    rewrite (eventloop_idle n self0 eq_refl Hq0). reflexivity.
  - rewrite (eventloop_idle n self0 eq_refl Hq0).
    cbn [EventLoop.eventloop_from]. change (running self0) with true. cbv iota.
    cbn [EventLoop.plain EventLoop.hook_loop EventLoop.hook_appended EventLoop.pass
         EventLoop.run_tasks].
    rewrite (handleIncomingPackets_idle self0 Hq0).
    set (p := shutdown_packet manager ident (isle_identifier self)).
    set (self1 := deliver self0 [p]).
    change (running self1) with true. cbv iota.
    assert (Hpass : handleIncomingPackets self1 = Some (Ok tt, with_running self false)).
    { unfold handleIncomingPackets, self1, deliver. cbn [connection with_connection toOwner].
      rewrite Hq0. cbn [app length incoming_loop].
      unfold ConnectionOps.ownerReceive. cbn [toOwner toRouter connection with_connection].
      rewrite (handle_one_shutdown _ p (String.length (isle_identifier self)));
        [| reflexivity | reflexivity | exact Hlen].
      cbn [with_running with_connection connection toOwner].
      unfold with_running, self0. cbn.
      destruct self as [i [r o] rs run cs]. cbn in Hq. subst o. reflexivity. }
    rewrite Hpass.
    destruct rest; reflexivity.
Qed.

End Serving.

Section RoutingLoop.

Import ManagerOps RouterOps.

Variable py_str : value -> string.

Lemma served_id e : served (toRouter (entry_connection e)) [] e = e.
Proof. destruct e as [[r o] t]. unfold served. cbn. rewrite app_nil_r. reflexivity. Qed.

Lemma served_served r1 m1 r2 m2 e :
  served r2 m2 (served r1 m1 e) = served r2 (m1 ++ m2) e.
Proof. unfold served. cbn. rewrite app_assoc. reflexivity. Qed.

Lemma share_app k ds1 ds2 : share k (ds1 ++ ds2) = share k ds1 ++ share k ds2.
Proof. unfold share. rewrite filter_app, map_app. reflexivity. Qed.

Lemma isles_set_present_keys d k v :
  isles_get d k <> None -> map fst (isles_set d k v) = map fst d.
Proof.
  intro H. rewrite isles_set_keys.
  destruct (existsb (String.eqb k) (map fst d)) eqn:Hex; [reflexivity |].
  exfalso. apply H. apply isles_get_absent. intro Hin.
  assert (existsb (String.eqb k) (map fst d) = true); [| congruence].
  apply existsb_exists. exists k. split; [exact Hin | apply String.eqb_refl].
Qed.

(** [router_send] on the membership map: the entry of [key] gets the packet,
    the others are left alone. *)
Lemma router_send_get self key packet k :
  isles_get (isles (router_send self key packet)) k
  = option_map (fun e => served (toRouter (entry_connection e))
                                (if String.eqb key k then [packet] else []) e)
               (isles_get (isles self) k).
Proof.
  unfold router_send.
  destruct (isles_get (isles self) key) as [e|] eqn:Hkey.
  - unfold with_isles. cbn [isles]. rewrite isles_get_set.
    destruct (String.eqb_spec key k) as [<-|Hne].
    + rewrite Hkey. reflexivity.
    + destruct (isles_get (isles self) k) as [e'|]; [| reflexivity].
      cbn [option_map]. rewrite served_id. reflexivity.
  - destruct (String.eqb_spec key k) as [<-|Hne].
    + rewrite Hkey. reflexivity.
    + destruct (isles_get (isles self) k) as [e'|]; [| reflexivity].
      cbn [option_map]. rewrite served_id. reflexivity.
Qed.

Lemma router_send_fields self key packet :
  map fst (isles (router_send self key packet)) = map fst (isles self) /\
  mgr_identifier (router_send self key packet) = mgr_identifier self /\
  mgr_running (router_send self key packet) = mgr_running self /\
  islesToBeAdded (router_send self key packet) = islesToBeAdded self /\
  logbuffer (router_send self key packet) = logbuffer self /\
  logfile (router_send self key packet) = logfile self /\
  joined (router_send self key packet) = joined self /\
  open_fails (router_send self key packet) = open_fails self.
Proof.
  unfold router_send. destruct (isles_get (isles self) key) as [e|] eqn:Hkey;
    [| repeat split].
  unfold with_isles. cbn. repeat split.
  apply isles_set_present_keys. congruence.
Qed.

Lemma routed_refl self : routed (fun _ r => r) [] [] false self self.
Proof.
  unfold routed. split; [| repeat split].
  - intro k. destruct (isles_get (isles self) k) as [e|]; [| reflexivity].
    cbn [option_map share filter map]. rewrite served_id. reflexivity.
  - rewrite andb_true_r. reflexivity.
  - rewrite app_nil_r. reflexivity.
  - exists 0%nat. reflexivity.
Qed.

Lemma routed_trans rt1 ds1 lg1 s1 rt2 ds2 lg2 s2 a b c :
  routed rt1 ds1 lg1 s1 a b -> routed rt2 ds2 lg2 s2 b c ->
  routed (fun k r => rt2 k (rt1 k r)) (ds1 ++ ds2) (lg1 ++ lg2) (s1 || s2) a c.
Proof.
  intros (G1 & K1 & I1 & A1 & J1 & R1 & L1 & n1 & O1)
         (G2 & K2 & I2 & A2 & J2 & R2 & L2 & n2 & O2).
  unfold routed. split; [| repeat split].
  - intro k. rewrite G2, G1.
    destruct (isles_get (isles a) k) as [e|]; [| reflexivity].
    cbn [option_map]. rewrite served_served, share_app. reflexivity.
  - congruence.
  - congruence.
  - congruence.
  - congruence.
  - rewrite R2, R1, negb_orb, andb_assoc. reflexivity.
  - rewrite L2, L1, app_assoc. reflexivity.
  - exists (n2 + n1)%nat. rewrite O2, O1. apply skipn_skipn.
Qed.

Lemma routed_ext rt rt' ds lg s a b :
  routed rt ds lg s a b ->
  (forall k e, isles_get (isles a) k = Some e ->
               rt k (toRouter (entry_connection e)) = rt' k (toRouter (entry_connection e))) ->
  routed rt' ds lg s a b.
Proof.
  intros (G & rest) Hext. split; [| exact rest].
  intro k. rewrite G. destruct (isles_get (isles a) k) as [e|] eqn:He; [| reflexivity].
  cbn [option_map]. rewrite (Hext k e He). reflexivity.
Qed.

Lemma routed_member rt ds lg s a b k :
  routed rt ds lg s a b -> member (isles b) k = member (isles a) k.
Proof.
  intros (G & _). unfold member. rewrite G.
  destruct (isles_get (isles a) k); reflexivity.
Qed.

Lemma delivery_stable rt ds lg s a b source p :
  routed rt ds lg s a b ->
  delivery py_str b source p = delivery py_str a source p /\
  logged py_str b source p = logged py_str a source p /\
  stops b p = stops a p /\ understood b p = understood a p.
Proof.
  intro H. pose proof H as (_ & _ & Hid & _).
  unfold delivery, logged, stops, understood, unknown_receiver.
  rewrite Hid. repeat split.
  - destruct (destination p) as [name|]; [| reflexivity].
    rewrite (routed_member _ _ _ _ _ _ name H). reflexivity.
  - destruct (destination p) as [name|]; [| reflexivity].
    rewrite (routed_member _ _ _ _ _ _ name H). reflexivity.
Qed.

Lemma share_one key packet k :
  share k [(key, packet)] = if String.eqb key k then [packet] else [].
Proof. unfold share. cbn. destruct (String.eqb key k); reflexivity. Qed.

(** A packet sent on by [router_send], from a state [x] that differs from
    [self] by its log only. *)
Lemma router_send_routed self x key packet lg stop :
  isles x = isles self -> mgr_identifier x = mgr_identifier self ->
  islesToBeAdded x = islesToBeAdded self -> joined x = joined self ->
  mgr_running x = mgr_running self && negb stop ->
  logfile x ++ logbuffer x = (logfile self ++ logbuffer self) ++ lg ->
  (exists n, open_fails x = skipn n (open_fails self)) ->
  routed (fun _ r => r) [(key, packet)] lg stop self (router_send x key packet).
Proof.
  intros Hisles Hid Hadd Hjoin Hrun Hlog [n Hopen].
  destruct (router_send_fields x key packet) as (K & I & R & A & B & F & J & O).
  unfold routed. split; [| repeat split]; try congruence.
  - intro k. rewrite router_send_get, Hisles, share_one. reflexivity.
  - exists n. congruence.
Qed.

Lemma routed_log_only self x lg stop :
  isles x = isles self -> mgr_identifier x = mgr_identifier self ->
  islesToBeAdded x = islesToBeAdded self -> joined x = joined self ->
  mgr_running x = mgr_running self && negb stop ->
  logfile x ++ logbuffer x = (logfile self ++ logbuffer self) ++ lg ->
  (exists n, open_fails x = skipn n (open_fails self)) ->
  routed (fun _ r => r) [] lg stop self x.
Proof.
  intros Hisles Hid Hadd Hjoin Hrun Hlog Hopen.
  unfold routed. split; [| repeat split]; try congruence; try exact Hopen.
  intro k. rewrite Hisles.
  destruct (isles_get (isles self) k) as [e|]; [| reflexivity].
  cbn [option_map share filter map]. rewrite served_id. reflexivity.
Qed.

(** One packet through the body of the loop. *)
Lemma route_packet_spec self isle p :
  understood self p = true ->
  exists self',
    route_packet py_str self isle p = (Some (Ok tt), self') /\
    routed (fun _ r => r) (delivery py_str self isle p) (logged py_str self isle p)
           (stops self p) self self'.
Proof.
  unfold understood, delivery, logged, stops, destination.
  intros Hund.
  destruct (py_item_from_end (receiver p) 1) as [[| | | name | | | | |]|] eqn:Hlast;
    try discriminate Hund.
  assert (Hsearch : exists b, py_contains "exception" (data p) = Ok b).
  { destruct (String.eqb name (mgr_identifier self)).
    - destruct (data p); try discriminate Hund. eexists. reflexivity.
    - destruct (py_contains "exception" (data p)) as [b|]; [| discriminate Hund].
      exists b. reflexivity. }
  destruct Hsearch as [b Hsearch].
  unfold route_packet. rewrite Hsearch, Hlast. cbn [is_str].
  set (self1 := writeToLogBuffer self p).
  set (self2 := if b then writeLogBufferToFile self1 else self1).
  assert (H2 : isles self2 = isles self /\ mgr_identifier self2 = mgr_identifier self /\
               islesToBeAdded self2 = islesToBeAdded self /\ joined self2 = joined self /\
               mgr_running self2 = mgr_running self /\
               logfile self2 ++ logbuffer self2 = (logfile self ++ logbuffer self) ++ [p] /\
               exists n, open_fails self2 = skipn n (open_fails self)).
  { assert (H1 : logfile self1 ++ logbuffer self1 = (logfile self ++ logbuffer self) ++ [p])
      by (unfold self1; cbn; rewrite app_assoc; reflexivity).
    unfold self2. destruct b.
    - destruct (write_fields self1) as (W1 & W2 & W3 & W4 & W5 & W6).
      rewrite W1, W2, W3, W4, W5, write_conserves. repeat split; try exact H1.
      exists 1%nat. rewrite W6. unfold self1. cbn [writeToLogBuffer open_fails].
      destruct (open_fails self); reflexivity.
    - repeat split; try exact H1. exists 0%nat. reflexivity. }
  destruct H2 as (Hisles & Hid & Hadd & Hjoin & Hrun & Hlog & Hopen).
  rewrite Hid.
  destruct (String.eqb_spec name (mgr_identifier self)) as [Hmgr|Hother].
  - (* for the manager *)
    unfold is_command in *.
    destruct (data p) as [| | | | | | dd | |] eqn:Hdata; try discriminate Hund.
    cbn [andb orb] in *. unfold handlePacket. rewrite Hdata. cbn [py_contains py_getitem].
    unfold dict_has. destruct (dict_get dd "command") as [c|] eqn:Hc.
    + destruct (is_str "shutdown" c) eqn:Hdown.
      * eexists. split; [reflexivity |].
        apply routed_log_only; cbn; try assumption.
        rewrite andb_false_r. reflexivity.
      * apply negb_true_iff in Hund. rewrite Hund.
        eexists. split; [reflexivity |].
        apply routed_log_only; try assumption. rewrite andb_true_r. exact Hrun.
    + eexists. split; [reflexivity |].
      apply routed_log_only; try assumption. rewrite andb_true_r. exact Hrun.
  - (* for somebody else *)
    cbn [andb orb negb]. unfold member. rewrite Hisles.
    destruct (isles_get (isles self) name) as [e|] eqn:Hname.
    + eexists. split; [reflexivity |].
      apply router_send_routed; try assumption. rewrite andb_true_r. exact Hrun.
    + eexists. split; [reflexivity |].
      assert (Hreply : unknown_receiver py_str self2 p (VStr name)
                       = unknown_receiver py_str self p (VStr name))
        by (unfold unknown_receiver; rewrite Hid; reflexivity).
      rewrite Hreply.
      apply router_send_routed; cbn [writeToLogBuffer isles mgr_identifier islesToBeAdded
                                       joined mgr_running logfile logbuffer open_fails];
        try assumption.
      * rewrite andb_true_r. exact Hrun.
      * rewrite app_assoc, Hlog, <- app_assoc. reflexivity.
Qed.

(** Taking the first packet off the queue of [isle]. *)
Lemma pop_routed self isle e p q :
  isles_get (isles self) isle = Some e ->
  toRouter (entry_connection e) = p :: q ->
  routed (fun k r => if String.eqb isle k then q else r) [] [] false self
         (with_isles self
            (isles_set (isles self) isle
               (mkEntry (mkConnection q (toOwner (entry_connection e))) (entry_thread e)))).
Proof.
  intros He Hq. unfold routed, with_isles. cbn. split; [| repeat split].
  - intro k. rewrite isles_get_set.
    destruct (String.eqb_spec isle k) as [<-|Hne].
    + rewrite He. cbn [option_map]. unfold served. rewrite app_nil_r. reflexivity.
    + destruct (isles_get (isles self) k) as [e'|]; [| reflexivity].
      cbn [option_map]. rewrite served_id. reflexivity.
  - apply isles_set_present_keys. congruence.
  - rewrite andb_true_r. reflexivity.
  - rewrite app_nil_r. reflexivity.
  - exists 0%nat. reflexivity.
Qed.

Lemma forallb_stable rt ds lg s a b q :
  routed rt ds lg s a b ->
  forallb (understood b) q = forallb (understood a) q /\
  existsb (stops b) q = existsb (stops a) q /\
  (forall source, flat_map (delivery py_str b source) q = flat_map (delivery py_str a source) q) /\
  (forall source, flat_map (logged py_str b source) q = flat_map (logged py_str a source) q).
Proof.
  intro H. induction q as [|p q (IH1 & IH2 & IH3 & IH4)]; [repeat split |].
  cbn [forallb existsb flat_map].
  split; [| split; [| split]].
  - destruct (delivery_stable _ _ _ _ _ _ "" p H) as (_ & _ & _ & ->). rewrite IH1. reflexivity.
  - destruct (delivery_stable _ _ _ _ _ _ "" p H) as (_ & _ & -> & _). rewrite IH2. reflexivity.
  - intro source.
    destruct (delivery_stable _ _ _ _ _ _ source p H) as (-> & _). rewrite IH3. reflexivity.
  - intro source.
    destruct (delivery_stable _ _ _ _ _ _ source p H) as (_ & -> & _). rewrite IH4. reflexivity.
Qed.

(** The queue of [isle] is emptied, one packet after the other. *)
Lemma drain_spec isle : forall q fuel self e,
  isles_get (isles self) isle = Some e ->
  toRouter (entry_connection e) = q ->
  forallb (understood self) q = true ->
  (length q < fuel)%nat ->
  exists self',
    drain py_str fuel isle self = (Some (Ok tt), self') /\
    routed (fun k r => if String.eqb isle k then [] else r)
           (flat_map (delivery py_str self isle) q) (flat_map (logged py_str self isle) q)
           (existsb (stops self) q) self self'.
Proof.
  induction q as [|p q IH]; intros fuel self e He Hq Hund Hfuel;
    (destruct fuel as [|fuel]; [cbn in Hfuel; lia |]);
    cbn [drain]; rewrite He; unfold ConnectionOps.routerReceive; rewrite Hq.
  - exists self. split; [reflexivity |]. cbn [flat_map existsb].
    apply (routed_ext (fun _ r => r)); [apply routed_refl |].
    intros k e' He'. destruct (String.eqb_spec isle k) as [<-|_]; [| reflexivity].
    congruence.
  - cbn [forallb] in Hund. apply andb_true_iff in Hund. destruct Hund as [Hp Hrest].
    pose proof (pop_routed self isle e p q He Hq) as Hpop.
    set (self1 := with_isles self _) in *.
    destruct (delivery_stable _ _ _ _ _ _ isle p Hpop) as (Hd1 & Hl1 & Hs1 & Hu1).
    destruct (route_packet_spec self1 isle p) as (self2 & Hroute & Hrouted);
      [rewrite Hu1; exact Hp |].
    rewrite Hroute.
    pose proof (routed_trans _ _ _ _ _ _ _ _ _ _ _ Hpop Hrouted) as H12.
    cbn [app orb] in H12. rewrite Hd1, Hl1, Hs1 in H12.
    destruct (forallb_stable _ _ _ _ _ _ q H12) as (Hu2 & Hs2 & Hd2 & Hl2).
    assert (He2 : exists e2, isles_get (isles self2) isle = Some e2 /\
                             toRouter (entry_connection e2) = q).
    { destruct H12 as (G & _). rewrite G, He. cbn [option_map]. eexists. split; [reflexivity |].
      cbn. rewrite String.eqb_refl. reflexivity. }
    destruct He2 as (e2 & He2 & Hq2).
    destruct (IH fuel self2 e2 He2 Hq2) as (self' & Hdrain & Hfinal);
      [rewrite Hu2; exact Hrest | cbn [length] in Hfuel; lia |].
    exists self'. split; [exact Hdrain |].
    rewrite Hd2, Hl2, Hs2 in Hfinal.
    pose proof (routed_trans _ _ _ _ _ _ _ _ _ _ _ H12 Hfinal) as H.
    cbn [flat_map existsb].
    apply (routed_ext _ _ _ _ _ _ _ H).
    intros k e' _. destruct (String.eqb isle k); reflexivity.
Qed.

Lemma never_denied_skipn (l : list bool) : forall n,
  forallb negb l = true -> forallb negb (skipn n l) = true.
Proof.
  induction l as [|b l IH]; intros n H; [destruct n; reflexivity |].
  destruct n as [|n]; [exact H |].
  cbn [forallb] in H. apply andb_true_iff in H. cbn [skipn]. apply IH, H.
Qed.

Lemma never_denied_hd (l : list bool) : forallb negb l = true -> hd false l = false.
Proof.
  destruct l as [|[|] l]; [reflexivity | discriminate | reflexivity].
Qed.

Lemma tl_skipn {A} (l : list A) : forall n, tl (skipn n l) = skipn (S n) l.
Proof.
  induction l as [|x l IH]; intros [|n]; try reflexivity.
  cbn [skipn]. rewrite IH. reflexivity.
Qed.

(** One member visited: its queue emptied, the log written out. *)
Lemma visit_spec isle self e :
  isles_get (isles self) isle = Some e ->
  forallb (understood self) (toRouter (entry_connection e)) = true ->
  exists self',
    visit py_str isle self = (Some (Ok tt), self') /\
    (never_denied self = true -> logbuffer self' = []) /\
    routed (fun k r => if String.eqb isle k then [] else r)
           (flat_map (delivery py_str self isle) (toRouter (entry_connection e)))
           (flat_map (logged py_str self isle) (toRouter (entry_connection e)))
           (existsb (stops self) (toRouter (entry_connection e))) self self'.
Proof.
  intros He Hund. unfold visit. rewrite He.
  destruct (drain_spec isle _ (S (length (toRouter (entry_connection e)))) self e He eq_refl Hund)
    as (self1 & Hdrain & G & K & I & A & J & R & L & n & O); [lia |].
  rewrite Hdrain. eexists. split; [reflexivity |].
  destruct (write_fields self1) as (W1 & W2 & W3 & W4 & W5 & W6).
  split.
  - intro Hok. apply write_opened. rewrite O.
    apply never_denied_hd, never_denied_skipn. exact Hok.
  - unfold routed. rewrite W1, W2, W3, W4, W5, write_conserves.
    split; [exact G |]. repeat split; try assumption.
    exists (S n). rewrite W6, O. apply tl_skipn.
Qed.

Lemma traffic_of_stable rt ds lg s a b keys :
  routed rt ds lg s a b ->
  (forall k e, In k keys -> isles_get (isles a) k = Some e ->
               rt k (toRouter (entry_connection e)) = toRouter (entry_connection e)) ->
  traffic_of b keys = traffic_of a keys.
Proof.
  intros (G & _) Hrt. unfold traffic_of.
  induction keys as [|k keys IH]; [reflexivity |].
  cbn [flat_map]. rewrite IH by (intros k' e' Hin; apply Hrt; right; exact Hin).
  rewrite G. destruct (isles_get (isles a) k) as [e|] eqn:He; [| reflexivity].
  cbn [option_map served entry_connection toRouter].
  rewrite (Hrt k e (or_introl eq_refl) He). reflexivity.
Qed.

Lemma traffic_stable rt ds lg s a b (t : list (string * Packet)) :
  routed rt ds lg s a b ->
  forallb (fun sp => understood b (snd sp)) t = forallb (fun sp => understood a (snd sp)) t /\
  existsb (fun sp => stops b (snd sp)) t = existsb (fun sp => stops a (snd sp)) t /\
  flat_map (fun sp => delivery py_str b (fst sp) (snd sp)) t
    = flat_map (fun sp => delivery py_str a (fst sp) (snd sp)) t /\
  flat_map (fun sp => logged py_str b (fst sp) (snd sp)) t
    = flat_map (fun sp => logged py_str a (fst sp) (snd sp)) t.
Proof.
  intro H. induction t as [|[source p] t (IH1 & IH2 & IH3 & IH4)]; [repeat split |].
  cbn [forallb existsb flat_map fst snd].
  destruct (delivery_stable _ _ _ _ _ _ source p H) as (-> & -> & -> & ->).
  rewrite IH1, IH2, IH3, IH4. repeat split.
Qed.

Lemma flat_map_pair {B} (f : string -> Packet -> list B) k (q : list Packet) :
  flat_map (fun sp => f (fst sp) (snd sp)) (map (pair k) q) = flat_map (f k) q.
Proof. induction q as [|p q IH]; [reflexivity |]. cbn. rewrite IH. reflexivity. Qed.

Lemma forallb_pair (f : Packet -> bool) (k : string) (q : list Packet) :
  forallb (fun sp : string * Packet => f (snd sp)) (map (pair k) q) = forallb f q.
Proof. induction q as [|p q IH]; [reflexivity |]. cbn. rewrite IH. reflexivity. Qed.

Lemma existsb_pair (f : Packet -> bool) (k : string) (q : list Packet) :
  existsb (fun sp : string * Packet => f (snd sp)) (map (pair k) q) = existsb f q.
Proof. induction q as [|p q IH]; [reflexivity |]. cbn. rewrite IH. reflexivity. Qed.

(** The members [keys] visited in turn. *)
Lemma visit_all_spec : forall keys self,
  NoDup keys ->
  (forall k, In k keys -> member (isles self) k = true) ->
  forallb (fun sp => understood self (snd sp)) (traffic_of self keys) = true ->
  exists self',
    visit_all py_str keys self = (Some (Ok tt), self') /\
    (keys <> [] -> never_denied self = true -> logbuffer self' = []) /\
    routed (fun k r => if existsb (String.eqb k) keys then [] else r)
           (flat_map (fun sp => delivery py_str self (fst sp) (snd sp)) (traffic_of self keys))
           (flat_map (fun sp => logged py_str self (fst sp) (snd sp)) (traffic_of self keys))
           (existsb (fun sp => stops self (snd sp)) (traffic_of self keys)) self self'.
Proof.
  induction keys as [|isle keys IH]; intros self Hnd Hmem Hund.
  - exists self. split; [reflexivity |]. split; [intro H; contradiction H; reflexivity |].
    apply routed_refl.
  - apply NoDup_cons_iff in Hnd. destruct Hnd as [Hnot Hnd].
    pose proof (Hmem isle (or_introl eq_refl)) as Hisle. unfold member in Hisle.
    destruct (isles_get (isles self) isle) as [e|] eqn:He; [| discriminate Hisle].
    unfold traffic_of in Hund. cbn [flat_map] in Hund. rewrite He in Hund.
    fold (traffic_of self keys) in Hund.
    rewrite forallb_app in Hund. apply andb_true_iff in Hund. destruct Hund as [Hq Hrest].
    rewrite forallb_pair in Hq.
    destruct (visit_spec isle self e He Hq) as (self1 & Hvisit & Hbuf & H1).
    cbn [visit_all]. rewrite Hvisit.
    assert (Htraffic : traffic_of self1 keys = traffic_of self keys).
    { apply (traffic_of_stable _ _ _ _ _ _ keys H1).
      intros k e' Hin _. destruct (String.eqb_spec isle k) as [<-|_]; [contradiction | reflexivity]. }
    destruct (traffic_stable _ _ _ _ _ _ (traffic_of self keys) H1) as (Hu & Hs & Hd & Hl).
    destruct (IH self1 Hnd) as (self' & Hall & Hbuf' & H2).
    { intros k Hin. rewrite (routed_member _ _ _ _ _ _ k H1). apply Hmem. right. exact Hin. }
    { rewrite Htraffic, Hu. exact Hrest. }
    exists self'. split; [exact Hall |]. split.
    + intros _ Hok. destruct keys as [|k' keys'].
      * cbn [visit_all] in Hall. injection Hall as <-. exact (Hbuf Hok).
      * apply Hbuf'; [discriminate |].
        destruct H1 as (_ & _ & _ & _ & _ & _ & _ & n & O).
        unfold never_denied. rewrite O. apply never_denied_skipn. exact Hok.
    + rewrite Htraffic, Hd, Hl, Hs in H2.
      pose proof (routed_trans _ _ _ _ _ _ _ _ _ _ _ H1 H2) as H.
      unfold traffic_of. cbn [flat_map]. rewrite He. fold (traffic_of self keys).
      rewrite !flat_map_app, existsb_app, !flat_map_pair, existsb_pair.
      apply (routed_ext _ _ _ _ _ _ _ H).
      intros k e' _. cbn [existsb]. rewrite (String.eqb_sym k isle).
      destruct (String.eqb isle k); cbn [orb];
        destruct (existsb (String.eqb k) keys); reflexivity.
Qed.

Lemma traffic_of_keys d : forall self,
  (forall kv, In kv d -> isles_get (isles self) (fst kv) = Some (snd kv)) ->
  traffic_of self (map fst d) = traffic d.
Proof.
  induction d as [|[k e] d IH]; intros self Hd; [reflexivity |].
  unfold traffic_of, traffic in *. cbn [map fst flat_map].
  pose proof (Hd (k, e) (or_introl eq_refl)) as Hk. cbn [fst snd] in Hk. rewrite Hk.
  rewrite (IH self); [reflexivity |]. intros kv Hin. apply Hd. right. exact Hin.
Qed.

(** One turn of the loop, for traffic the manager understands and with no
    isle waiting to be added: what each packet is owed, it gets. *)
Lemma eventloop_pass_spec self :
  NoDup (map fst (isles self)) ->
  islesToBeAdded self = [] ->
  forallb (fun sp => understood self (snd sp)) (traffic (isles self)) = true ->
  exists self',
    eventloop_pass py_str self = (Some (Ok tt), self') /\
    (isles self <> [] -> never_denied self = true -> logbuffer self' = []) /\
    routed (fun _ _ => [])
           (flat_map (fun sp => delivery py_str self (fst sp) (snd sp)) (traffic (isles self)))
           (flat_map (fun sp => logged py_str self (fst sp) (snd sp)) (traffic (isles self)))
           (existsb (fun sp => stops self (snd sp)) (traffic (isles self))) self self'.
Proof.
  intros Hnd Hadd Hund.
  assert (Htraffic : traffic_of self (map fst (isles self)) = traffic (isles self)).
  { apply traffic_of_keys. intros [k e] Hin. apply isles_get_In; assumption. }
  destruct (visit_all_spec (map fst (isles self)) self Hnd) as (self1 & Hall & Hbuf & H).
  { intros k Hin. unfold member.
    destruct (isles_get (isles self) k) eqn:Hk; [reflexivity |].
    apply isles_get_absent in Hk. contradiction. }
  { rewrite Htraffic. exact Hund. }
  rewrite Htraffic in H.
  unfold eventloop_pass. rewrite Hall.
  pose proof H as (_ & _ & _ & Hadd1 & _). rewrite Hadd in Hadd1.
  rewrite Hadd1. cbn [fold_left].
  eexists. split; [reflexivity |].
  cbn [logbuffer]. split.
  - intro Hne. apply Hbuf. destruct (isles self); [contradiction Hne; reflexivity | discriminate].
  - destruct H as (G & K & I & A & J & R & L & O).
    unfold routed. cbn [isles mgr_identifier islesToBeAdded joined mgr_running logfile logbuffer
                          open_fails].
    split; [| repeat split; try assumption; congruence].
    intro k. rewrite G. destruct (isles_get (isles self) k) as [e|] eqn:He; [| reflexivity].
    cbn [option_map]. replace (existsb (String.eqb k) (map fst (isles self))) with true;
      [reflexivity |].
    symmetry. apply existsb_exists. exists k. split; [| apply String.eqb_refl].
    destruct (in_dec string_dec k (map fst (isles self))) as [Hin|Hout]; [exact Hin |].
    apply isles_get_absent in Hout. congruence.
Qed.

Lemma routable_understood self p : routable self p = true -> understood self p = true.
Proof.
  unfold routable, understood.
  destruct (py_contains "exception" (data p)) as [b|]; [| discriminate].
  destruct (destination p) as [name|]; [| discriminate].
  intro H. apply andb_true_iff in H. destruct H as [H _]. apply negb_true_iff in H.
  rewrite H. reflexivity.
Qed.

Lemma routable_owed self (t : list (string * Packet)) :
  forallb (fun sp => routable self (snd sp)) t = true ->
  (forall k, share k (flat_map (fun sp => delivery py_str self (fst sp) (snd sp)) t)
             = filter (addressed_to k) (map snd t)) /\
  flat_map (fun sp => logged py_str self (fst sp) (snd sp)) t = map snd t /\
  existsb (fun sp => stops self (snd sp)) t = false.
Proof.
  induction t as [|[source p] t IH]; intro H; [repeat split |].
  cbn [forallb snd] in H. apply andb_true_iff in H. destruct H as [Hp Ht].
  destruct (IH Ht) as (IH1 & IH2 & IH3).
  unfold routable in Hp.
  destruct (py_contains "exception" (data p)) as [b|]; [| discriminate Hp].
  destruct (destination p) as [name|] eqn:Hdest; [| discriminate Hp].
  apply andb_true_iff in Hp. destruct Hp as [Hmgr Hmem]. apply negb_true_iff in Hmgr.
  fold (member (isles self) name) in Hmem.
  assert (Hd : delivery py_str self source p = [(name, p)])
    by (unfold delivery; rewrite Hdest, Hmgr, Hmem; reflexivity).
  assert (Hl : logged py_str self source p = [p])
    by (unfold logged; rewrite Hdest, Hmgr, Hmem; reflexivity).
  assert (Hs : stops self p = false)
    by (unfold stops; rewrite Hdest, Hmgr; reflexivity).
  assert (Ha : forall k, addressed_to k p = String.eqb name k)
    by (intro k; unfold addressed_to; rewrite Hdest; reflexivity).
  cbn [flat_map existsb map fst snd filter].
  rewrite Hd, Hl, Hs. cbn [orb]. split; [| split].
  - intro k. rewrite share_app, share_one, IH1, Ha.
    destruct (String.eqb name k); reflexivity.
  - cbn [app]. rewrite IH2. reflexivity.
  - exact IH3.
Qed.

Lemma forallb_implies {A} (f g : A -> bool) l :
  (forall x, f x = true -> g x = true) -> forallb f l = true -> forallb g l = true.
Proof.
  intros Himp H. apply forallb_forall. intros x Hin.
  apply Himp. rewrite forallb_forall in H. exact (H x Hin).
Qed.

(** One turn of the loop over packets whose last hop names a member. *)
Lemma eventloop_pass_routable (self : IsleManager) :
  NoDup (map fst (isles self)) ->
  islesToBeAdded self = [] ->
  forallb (fun sp => routable self (snd sp)) (traffic (isles self)) = true ->
  exists self',
    eventloop_pass py_str self = (Some (Ok tt), self') /\
    map fst (isles self') = map fst (isles self) /\
    (forall k e, isles_get (isles self) k = Some e ->
       isles_get (isles self') k
       = Some (mkEntry (mkConnection []
                          (toOwner (entry_connection e)
                             ++ filter (addressed_to k) (map snd (traffic (isles self)))))
                       (entry_thread e))) /\
    logfile self' ++ logbuffer self'
      = (logfile self ++ logbuffer self) ++ map snd (traffic (isles self)) /\
    (isles self <> [] -> never_denied self = true -> logbuffer self' = []) /\
    mgr_running self' = mgr_running self /\
    mgr_identifier self' = mgr_identifier self /\
    islesToBeAdded self' = [].
Proof.
  intros Hnd Hadd Hroutable.
  destruct (eventloop_pass_spec self Hnd Hadd)
    as (self' & Hpass & Hbuf & G & K & I & A & _ & R & L & _).
  { apply (forallb_implies _ _ _ (fun sp => routable_understood self (snd sp)) Hroutable). }
  destruct (routable_owed self _ Hroutable) as (Hin & Hlog & Hstop).
  exists self'. split; [exact Hpass |]. split; [exact K |].
  split; [| split; [| split; [| split; [| split]]]].
  - intros k e He. rewrite G, He. cbn [option_map]. unfold served. rewrite Hin. reflexivity.
  - rewrite L, Hlog. reflexivity.
  - exact Hbuf.
  - rewrite R, Hstop. apply andb_true_r.
  - exact I.
  - rewrite A. exact Hadd.
Qed.

(** X17. One turn of the routing loop over packets whose last hop names a
    member: every queue towards the router is emptied; every member finds
    at the end of its inbound queue the packets addressed to it, in the
    order of the keys of their senders and then of sending; each packet is
    in the log, file or buffer, once, in that order, and the buffer is
    empty when no call of [open] is refused; membership, threads and the
    running flag are as before. *)
Theorem eventloop_pass_delivers (self : IsleManager) :
  NoDup (map fst (isles self)) ->
  islesToBeAdded self = [] ->
  forallb (fun sp => routable self (snd sp)) (traffic (isles self)) = true ->
  exists self',
    eventloop_pass py_str self = (Some (Ok tt), self') /\
    map fst (isles self') = map fst (isles self) /\
    (forall k e, isles_get (isles self) k = Some e ->
       isles_get (isles self') k
       = Some (mkEntry (mkConnection []
                          (toOwner (entry_connection e)
                             ++ filter (addressed_to k) (map snd (traffic (isles self)))))
                       (entry_thread e))) /\
    logfile self' ++ logbuffer self'
      = (logfile self ++ logbuffer self) ++ map snd (traffic (isles self)) /\
    (isles self <> [] -> never_denied self = true -> logbuffer self' = []) /\
    mgr_running self' = mgr_running self.
Proof.
  intros Hnd Hadd Hroutable.
  destruct (eventloop_pass_routable self Hnd Hadd Hroutable)
    as (self' & H1 & H2 & H3 & H4 & H5 & H6 & _).
  exists self'. repeat split; assumption.
Qed.

Lemma In_traffic d source p :
  In (source, p) (traffic d) ->
  exists e, In (source, e) d /\ In p (toRouter (entry_connection e)).
Proof.
  unfold traffic. intro H. apply in_flat_map in H. destruct H as ([k e] & Hin & Hp).
  cbn [fst snd] in Hp. apply in_map_iff in Hp. destruct Hp as (p' & [= <- <-] & Hp').
  exists e. split; assumption.
Qed.

Lemma In_share k p ds : In (k, p) ds -> In p (share k ds).
Proof.
  intro H. unfold share. apply in_map_iff. exists (k, p). split; [reflexivity |].
  apply filter_In. split; [exact H | apply String.eqb_refl].
Qed.

(** X18. A packet whose last hop names neither a member nor the manager is
    answered by the manager: the isle that sent it finds in its inbound
    queue, and the log holds, a reply with the identifier of the packet,
    the manager as sender and a KeyError as data.  The reply is in the log
    file when no call of [open] is refused, and in the file or the buffer
    otherwise. *)
Theorem eventloop_pass_bounces (self : IsleManager) (source name : string) (p : Packet) :
  NoDup (map fst (isles self)) ->
  islesToBeAdded self = [] ->
  forallb (fun sp => understood self (snd sp)) (traffic (isles self)) = true ->
  In (source, p) (traffic (isles self)) ->
  destination p = Some name ->
  name <> mgr_identifier self ->
  isles_get (isles self) name = None ->
  let reply :=
    mkPacket (identifier p) (VList [VStr (mgr_identifier self)]) (sender p)
      (VDict [("exception",
               VExc (mkExc KeyError (py_str (VStr name) ++ " does not exist (anymore)")))]) in
  exists self' e',
    eventloop_pass py_str self = (Some (Ok tt), self') /\
    isles_get (isles self') source = Some e' /\
    In reply (toOwner (entry_connection e')) /\
    In reply (logfile self' ++ logbuffer self') /\
    (never_denied self = true -> In reply (logfile self')).
Proof.
  intros Hnd Hadd Hund Hin Hdest Hmgr Hname reply.
  destruct (eventloop_pass_spec self Hnd Hadd Hund)
    as (self' & Hpass & Hbuf & G & _ & _ & _ & _ & _ & L & _).
  destruct (In_traffic _ _ _ Hin) as (e & He & _).
  pose proof (isles_get_In _ _ _ Hnd He) as Hget.
  assert (Howed : delivery py_str self source p = [(source, reply)]
                  /\ logged py_str self source p = [p; reply]).
  { unfold delivery, logged, member. rewrite Hdest, Hname.
    destruct (String.eqb_spec name (mgr_identifier self)) as [Heq|_]; [contradiction |].
    split; reflexivity. }
  destruct Howed as [Hdel Hlog].
  assert (Hlogged : In reply (logfile self' ++ logbuffer self')).
  { rewrite L. apply in_or_app. right.
    apply in_flat_map. exists (source, p). split; [exact Hin |].
    cbn [fst snd]. rewrite Hlog. right. left. reflexivity. }
  exists self'. eexists. split; [exact Hpass |]. split; [rewrite G, Hget; reflexivity |].
  split; [| split].
  - cbn [served entry_connection toOwner]. apply in_or_app. right.
    apply In_share. apply in_flat_map. exists (source, p). split; [exact Hin |].
    cbn [fst snd]. rewrite Hdel. left. reflexivity.
  - exact Hlogged.
  - intro Hok.
    assert (Hne : isles self <> []) by (intro H0; rewrite H0 in He; destruct He).
    rewrite (Hbuf Hne Hok), app_nil_r in Hlogged. exact Hlogged.
Qed.

(** X19. The manager stops running exactly when the traffic of the turn
    holds a shutdown command addressed to it; the turn is completed all the
    same, and every queue towards the router is empty after it. *)
Theorem eventloop_pass_shutdown (self : IsleManager) :
  NoDup (map fst (isles self)) ->
  islesToBeAdded self = [] ->
  forallb (fun sp => understood self (snd sp)) (traffic (isles self)) = true ->
  exists self',
    eventloop_pass py_str self = (Some (Ok tt), self') /\
    mgr_running self'
      = mgr_running self && negb (existsb (fun sp => stops self (snd sp)) (traffic (isles self))) /\
    traffic (isles self') = [].
Proof.
  intros Hnd Hadd Hund.
  destruct (eventloop_pass_spec self Hnd Hadd Hund)
    as (self' & Hpass & _ & G & K & _ & _ & _ & R & _).
  exists self'. split; [exact Hpass |]. split; [exact R |].
  assert (Hempty : forall d, (forall k e, In (k, e) d -> toRouter (entry_connection e) = []) ->
                             traffic d = []).
  { induction d as [|[k e] d IH]; intro H; [reflexivity |].
    unfold traffic in *. cbn [flat_map fst snd].
    rewrite (H k e (or_introl eq_refl)). cbn [map app].
    apply IH. intros k' e' Hin. apply (H k' e'). right. exact Hin. }
  apply Hempty. intros k e' Hin.
  assert (Hnd' : NoDup (map fst (isles self'))) by (rewrite K; exact Hnd).
  pose proof (isles_get_In _ _ _ Hnd' Hin) as Hget. rewrite G in Hget.
  destruct (isles_get (isles self) k) as [e|]; [| discriminate Hget].
  injection Hget as <-. reflexivity.
Qed.

End RoutingLoop.

Section Requeue.

Variable py_str : value -> string.

Lemma rr_loop_requeues ident rcv deadline before :
  forall sched self reply after,
    toOwner (connection self) = before ++ reply :: after ->
    unrelated ident before ->
    identifier reply = ident ->
    within deadline (firstn (S (length before)) sched) ->
    (length before < length sched)%nat ->
    toOwner (connection (snd (rr_loop py_str sched self ident rcv deadline)))
    = after ++ put_back before sched.
Proof.
  induction before as [|p before IH]; intros sched self reply after Hq Hun Hid Hin Hlen.
  - destruct sched as [|t sched]; [cbn in Hlen; lia |].
    cbn in Hin. apply within_cons in Hin. destruct Hin as [Hnow _].
    cbn [rr_loop]. destruct (Z.ltb_spec deadline (now t)) as [Hlate|_]; [lia |].
    unfold ConnectionOps.ownerReceive. rewrite Hq. cbn [app].
    rewrite Hid, String.eqb_refl. cbn. rewrite app_nil_r. reflexivity.
  - destruct sched as [|t sched]; [cbn in Hlen; lia |].
    cbn [length firstn] in Hin. apply within_cons in Hin. destruct Hin as [Hnow Hin'].
    apply unrelated_cons in Hun. destruct Hun as [Hp Hun'].
    cbn [rr_loop]. destruct (Z.ltb_spec deadline (now t)) as [Hlate|_]; [lia |].
    unfold ConnectionOps.ownerReceive. rewrite Hq. cbn [app].
    destruct (String.eqb_spec (identifier p) ident) as [Heq|_];
      [contradiction |].
    rewrite (IH sched _ reply (after ++ [p] ++ arrivals t)).
    + unfold put_back. cbn [combine flat_map fst snd]. rewrite <- !app_assoc. reflexivity.
    + cbn. rewrite <- !app_assoc. reflexivity.
    + assumption.
    + assumption.
    + exact Hin'.
    + cbn in Hlen. lia.
Qed.

(** X20. While it waits, [requestResponse] moves every packet it polls
    before its reply to the back of the inbound queue: when the call
    returns, the packets that stood behind the reply come first, then the
    ones that stood before it, each followed by what arrived meanwhile. *)
Theorem requestResponse_requeues (self : Isle) (packet reply : Packet)
    (timeout timestamp : Z) (sched : list tick) (before after : list Packet) :
  toOwner (connection self) = before ++ reply :: after ->
  unrelated (identifier packet) before ->
  identifier reply = identifier packet ->
  within (timestamp + timeout) (firstn (S (length before)) sched) ->
  (length before < length sched)%nat ->
  toOwner (connection (snd (requestResponse py_str self packet timeout timestamp sched)))
  = after ++ put_back before sched.
Proof.
  intros Hq Hun Hid Hin Hlen. unfold requestResponse, IsleOps.sendPacket.
  apply (rr_loop_requeues _ _ _ before sched _ reply after); assumption.
Qed.

End Requeue.

Section RemoteCall.

Import ManagerOps RouterOps IsleOps.

Variable py_str : value -> string.









End RemoteCall.

Section RoutingErrors.

Import ManagerOps RouterOps.

Variable py_str : value -> string.

Lemma route_packet_fatal self isle p e :
  fatal self p = Some e ->
  fst (route_packet py_str self isle p) = Some (Raise e) /\
  isles (snd (route_packet py_str self isle p)) = isles self.
Proof.
  unfold fatal, route_packet. intro H.
  destruct (py_contains "exception" (data p)) as [b|x]; [| injection H as <-; split; reflexivity].
  assert (Hisles : isles (if b then writeLogBufferToFile (writeToLogBuffer self p)
                          else writeToLogBuffer self p) = isles self)
    by (destruct b; [apply (write_fields (writeToLogBuffer self p)) | reflexivity]).
  assert (Hid : mgr_identifier (if b then writeLogBufferToFile (writeToLogBuffer self p)
                                else writeToLogBuffer self p) = mgr_identifier self)
    by (destruct b; [apply (write_fields (writeToLogBuffer self p)) | reflexivity]).
  destruct (py_item_from_end (receiver p) 1) as [last|x];
    [| injection H as <-; split; [reflexivity | exact Hisles]].
  rewrite Hid.
  destruct (is_str (mgr_identifier self) last) eqn:Hmgr; [discriminate H |].
  cbn [orb] in H.
  destruct (hashable last) eqn:Hh; [discriminate H |]. injection H as <-.
  destruct last as [| | | | l | l | d | |]; try discriminate Hh;
    (split; [reflexivity | exact Hisles]).
Qed.

Lemma fatal_stable rt ds lg s a b p :
  routed rt ds lg s a b -> fatal b p = fatal a p.
Proof. intros (_ & _ & Hid & _). unfold fatal. rewrite Hid. reflexivity. Qed.

(** The queue of [isle] is emptied up to the packet that cannot be routed. *)
Lemma drain_fatal isle p q2 e : forall q1 fuel self e0,
  isles_get (isles self) isle = Some e0 ->
  toRouter (entry_connection e0) = q1 ++ p :: q2 ->
  forallb (understood self) q1 = true ->
  fatal self p = Some e ->
  (length q1 < fuel)%nat ->
  fst (drain py_str fuel isle self) = Some (Raise e) /\
  exists e', isles_get (isles (snd (drain py_str fuel isle self))) isle = Some e' /\
             toRouter (entry_connection e') = q2.
Proof.
  induction q1 as [|p0 q1 IH]; intros fuel self e0 He Hq Hund Hfatal Hfuel;
    (destruct fuel as [|fuel]; [cbn in Hfuel; lia |]);
    cbn [drain]; rewrite He; unfold ConnectionOps.routerReceive; rewrite Hq; cbn [app].
  - pose proof (pop_routed self isle e0 p q2 He Hq) as Hpop.
    set (self1 := with_isles self _) in *.
    destruct (route_packet_fatal self1 isle p e) as [Hfst Hisles];
      [rewrite (fatal_stable _ _ _ _ _ _ p Hpop); exact Hfatal |].
    destruct (route_packet py_str self1 isle p) as [[[u|x]|] self2];
      cbn [fst snd] in Hfst, Hisles; try discriminate Hfst.
    cbn [fst snd]. split; [exact Hfst |].
    rewrite Hisles. destruct Hpop as (G & _). rewrite G, He. cbn [option_map].
    eexists. split; [reflexivity |]. cbn. rewrite String.eqb_refl. reflexivity.
  - cbn [forallb] in Hund. apply andb_true_iff in Hund. destruct Hund as [Hp Hrest].
    pose proof (pop_routed self isle e0 p0 (q1 ++ p :: q2) He Hq) as Hpop.
    set (self1 := with_isles self _) in *.
    destruct (delivery_stable py_str _ _ _ _ _ _ isle p0 Hpop) as (_ & _ & _ & Hu1).
    destruct (route_packet_spec py_str self1 isle p0) as (self2 & Hroute & Hrouted);
      [rewrite Hu1; exact Hp |].
    rewrite Hroute.
    pose proof (routed_trans _ _ _ _ _ _ _ _ _ _ _ Hpop Hrouted) as H12.
    destruct (forallb_stable py_str _ _ _ _ _ _ q1 H12) as (Hu2 & _).
    assert (He2 : exists e2, isles_get (isles self2) isle = Some e2 /\
                             toRouter (entry_connection e2) = q1 ++ p :: q2).
    { destruct H12 as (G & _). rewrite G, He. cbn [option_map]. eexists. split; [reflexivity |].
      cbn. rewrite String.eqb_refl. reflexivity. }
    destruct He2 as (e2 & He2 & Hq2).
    apply (IH fuel self2 e2 He2 Hq2).
    + rewrite Hu2. exact Hrest.
    + rewrite (fatal_stable _ _ _ _ _ _ p H12). exact Hfatal.
    + cbn [length] in Hfuel. lia.
Qed.

Lemma visit_all_app ks1 : forall ks2 self,
  visit_all py_str (ks1 ++ ks2) self
  = match visit_all py_str ks1 self with
    | (Some (Ok _), self1) => visit_all py_str ks2 self1
    | other => other
    end.
Proof.
  induction ks1 as [|k ks1 IH]; intros ks2 self; [reflexivity |].
  cbn [app visit_all].
  destruct (visit py_str k self) as [[[u|x]|] self1]; [apply IH | reflexivity | reflexivity].
Qed.

(** X22. A packet the manager cannot route ends the routing loop: the error
    leaves [eventloop], and the packets waiting behind it stay in their
    queue. *)
Theorem eventloop_pass_aborts (self : IsleManager) (d1 d2 : list (string * entry))
    (k : string) (e0 : entry) (q1 q2 : list Packet) (p : Packet) (e : exc) :
  NoDup (map fst (isles self)) ->
  isles self = d1 ++ (k, e0) :: d2 ->
  toRouter (entry_connection e0) = q1 ++ p :: q2 ->
  forallb (fun sp => understood self (snd sp)) (traffic d1) = true ->
  forallb (understood self) q1 = true ->
  fatal self p = Some e ->
  fst (eventloop_pass py_str self) = Some (Raise e) /\
  exists e', isles_get (isles (snd (eventloop_pass py_str self))) k = Some e' /\
             toRouter (entry_connection e') = q2.
Proof.
  intros Hnd Hisles Hq Hund1 Hundq Hfatal.
  assert (Hget : forall kv, In kv (isles self) -> isles_get (isles self) (fst kv) = Some (snd kv))
    by (intros [k' e'] Hin; apply isles_get_In; assumption).
  assert (Hkeys : map fst (isles self) = map fst d1 ++ k :: map fst d2)
    by (rewrite Hisles, map_app; reflexivity).
  rewrite Hkeys in Hnd.
  assert (Hnd1 : NoDup (map fst d1)) by (apply NoDup_app_remove_r in Hnd; exact Hnd).
  assert (Hnot : ~ In k (map fst d1)).
  { apply NoDup_remove_2 in Hnd. intro Hin. apply Hnd. apply in_or_app. left. exact Hin. }
  assert (Htraffic : traffic_of self (map fst d1) = traffic d1).
  { apply traffic_of_keys. intros kv Hin. apply Hget. rewrite Hisles.
    apply in_or_app. left. exact Hin. }
  destruct (visit_all_spec py_str (map fst d1) self Hnd1) as (self1 & Hall & _ & H1).
  { intros k' Hin. unfold member.
    destruct (isles_get (isles self) k') eqn:Hk'; [reflexivity |].
    apply isles_get_absent in Hk'. exfalso. apply Hk'. rewrite Hisles, map_app.
    apply in_or_app. left. exact Hin. }
  { rewrite Htraffic. exact Hund1. }
  assert (Hk : isles_get (isles self) k = Some e0).
  { apply (Hget (k, e0)). rewrite Hisles. apply in_or_app. right. left. reflexivity. }
  assert (Hk1 : exists e1, isles_get (isles self1) k = Some e1 /\
                           toRouter (entry_connection e1) = q1 ++ p :: q2).
  { destruct H1 as (G & _). rewrite G, Hk. cbn [option_map]. eexists. split; [reflexivity |].
    cbn. replace (existsb (String.eqb k) (map fst d1)) with false; [exact Hq |].
    symmetry. apply not_true_iff_false. intro Hex. apply existsb_exists in Hex.
    destruct Hex as (x & Hin & Heq). apply String.eqb_eq in Heq. subst x. contradiction. }
  destruct Hk1 as (e1 & Hk1 & Hq1).
  destruct (forallb_stable py_str _ _ _ _ _ _ q1 H1) as (Hu1 & _).
  destruct (drain_fatal k p q2 e q1 (S (length (q1 ++ p :: q2))) self1 e1 Hk1 Hq1)
    as (Hfst & e' & He' & Hq').
  { rewrite Hu1. exact Hundq. }
  { rewrite (fatal_stable _ _ _ _ _ _ p H1). exact Hfatal. }
  { rewrite length_app. cbn [length]. lia. }
  unfold eventloop_pass. rewrite Hkeys, visit_all_app, Hall.
  cbn [visit_all]. unfold visit. rewrite Hk1, Hq1.
  destruct (drain py_str (S (length (q1 ++ p :: q2))) k self1) as [[[u|x]|] self2];
    cbn [fst snd] in Hfst, He'; try discriminate Hfst.
  cbn [fst snd]. split; [exact Hfst |]. exists e'. split; [exact He' | exact Hq'].
Qed.

End RoutingErrors.

Section Leftovers.

Import ManagerOps IsleOps.

Lemma incoming_loop_late : forall queue fuel self,
  toOwner (connection self) = queue ->
  Forall (fun p => py_contains "return" (data p) = Ok true) queue ->
  (length queue < fuel)%nat ->
  incoming_loop fuel self
  = Some (Ok tt, with_connection self (mkConnection (toRouter (connection self)) [])).
Proof.
  induction queue as [|p queue IH]; intros fuel self Hq Hall Hfuel;
    (destruct fuel as [|fuel]; [cbn in Hfuel; lia |]);
    cbn [incoming_loop]; unfold ConnectionOps.ownerReceive; rewrite Hq.
  - f_equal. f_equal. destruct self as [i [r o] rs run cs]. cbn in Hq. subst o. reflexivity.
  - apply Forall_cons_iff in Hall. destruct Hall as [Hp Hall].
    unfold handle_one, handleTooLate. rewrite Hp. cbn [bind].
    rewrite (IH fuel (with_connection self (mkConnection (toRouter (connection self)) queue)));
      [reflexivity | reflexivity | exact Hall | cbn [length] in Hfuel; lia].
Qed.

(** X23. Packets whose data holds ["return"] are taken for replies nobody
    waits for any more: one call of [__handleIncomingPackets] removes them
    from the inbound queue and does nothing else, neither a call nor a
    packet sent; whatever their receiver says. *)
Theorem late_replies_dropped (self : Isle) :
  Forall (fun p => py_contains "return" (data p) = Ok true) (toOwner (connection self)) ->
  handleIncomingPackets self
  = Some (Ok tt, with_connection self (mkConnection (toRouter (connection self)) [])).
Proof.
  intro Hall. unfold handleIncomingPackets.
  apply (incoming_loop_late (toOwner (connection self))); [reflexivity | exact Hall | lia].
Qed.

Lemma Forall2_lookup (R : string -> entry -> entry -> Prop) d : forall d',
  Forall2 (fun before after => R (fst before) (snd before) (snd after)) d d' ->
  map fst d' = map fst d ->
  forall k e, isles_get d k = Some e ->
              exists e', isles_get d' k = Some e' /\ R k e e'.
Proof.
  induction d as [|[k0 e0] d IH]; intros d' H Hkeys k e Hget; [discriminate Hget |].
  destruct d' as [|[k1 e1] d']; inversion H as [|? ? ? ? Hhead Hrest]; subst.
  cbn [map fst] in Hkeys. injection Hkeys as Hk Hkeys. subst k1.
  cbn [isles_get] in *. cbn [fst snd] in Hhead.
  destruct (String.eqb_spec k0 k) as [->|_].
  - injection Hget as <-. exists e1. split; [reflexivity | exact Hhead].
  - exact (IH d' Hrest Hkeys k e Hget).
Qed.

(** An isle that finds a shutdown packet in its inbound queue once its
    [loop] has run leaves its event loop at the end of the pass. *)
Lemma eventloop_queued_shutdown h start looped last p n later rest :
  running start = true ->
  EventLoop.hook_loop h start = Some (Ok tt, looped) ->
  running looped = true ->
  toOwner (connection looped) = [p] ->
  data p = VStr "shutdown" -> py_len (receiver p) = Ok n -> n <> 2%nat ->
  EventLoop.run_tasks (EventLoop.hook_appended h)
    (deliver (with_running
                (with_connection looped (mkConnection (toRouter (connection looped)) []))
                false) later)
    = Some (Ok tt, last) ->
  running last = false ->
  EventLoop.eventloop_from h (later :: rest) start = EventLoop.hook_shutdown h last.
Proof.
  intros Hstart Hloop Hrun Hq Hdata Hlen Hn Happended Hlast.
  cbn [EventLoop.eventloop_from]. rewrite Hstart, Hloop.
  unfold handleIncomingPackets. rewrite Hq. cbn [length incoming_loop].
  unfold ConnectionOps.ownerReceive. rewrite Hq.
  rewrite (handle_one_shutdown _ p n Hdata Hlen Hn).
  unfold with_running at 1, with_connection at 1.
  cbn [connection toOwner isle_identifier routes running calls].
  unfold ConnectionOps.ownerReceive. cbn [toOwner].
  unfold with_running, with_connection in Happended |- *.
  cbn [connection toOwner toRouter isle_identifier routes running calls] in Happended |- *.
  rewrite Happended.
  destruct rest; cbn [EventLoop.eventloop_from]; rewrite Hlast; reflexivity.
Qed.

(** X24. The shutdown sequence reaches the isles.  After [stop], a member
    whose inbound queue was empty, and whose identifier is not two
    characters long, finds the shutdown packet on its next pass: if its
    [loop] returns and leaves the inbound queue and the running flag
    alone, handling the packet clears the flag and sends nothing; if then
    the tasks behind the sleep return and leave the flag cleared, the event
    loop ends with the call of [shutdown]. *)
Theorem stop_ends_isle (ends : Thread -> bool) (fresh : nat -> string)
    (manager : IsleManager) (h : EventLoop.hooks) (self looped last : Isle)
    (e : entry) (later : list Packet) (rest : list (list Packet)) :
  NoDup (map fst (isles manager)) ->
  isles_get (isles manager) (isle_identifier self) = Some e ->
  toOwner (entry_connection e) = [] ->
  String.length (isle_identifier self) <> 2%nat ->
  let notified := with_running (attach self (snd (stop ends fresh manager))) true in
  EventLoop.hook_loop h notified = Some (Ok tt, looped) ->
  running looped = true ->
  toOwner (connection looped) = toOwner (connection notified) ->
  let stopped :=
    with_running (with_connection looped (mkConnection (toRouter (connection looped)) []))
                 false in
  EventLoop.run_tasks (EventLoop.hook_appended h) (deliver stopped later) = Some (Ok tt, last) ->
  running last = false ->
  EventLoop.eventloop_with h (later :: rest) (attach self (snd (stop ends fresh manager)))
  = EventLoop.hook_shutdown h last.
Proof.
  intros Hnd He Hempty Hlen notified Hloop Hrun Hq stopped Happended Hlast.
  set (after := snd (stop ends fresh manager)) in *.
  assert (Hafter : exists e' ident,
            isles_get (isles after) (isle_identifier self) = Some e' /\
            got_packet (shutdown_packet manager ident (isle_identifier self)) e e').
  { destruct (stop_delivers ends fresh manager Hnd) as (Hk & Hall).
    fold after in Hk, Hall.
    destruct (Forall2_lookup
                (fun k b a => exists ident, got_packet (shutdown_packet manager ident k) b a)
                (isles manager) (isles after) Hall Hk (isle_identifier self) e He)
      as (e' & He' & ident & Hgot).
    exists e', ident. split; [exact He' | exact Hgot]. }
  destruct Hafter as (e' & ident & He' & _ & Hrouter & Howner).
  rewrite Hempty in Howner. cbn [app] in Howner.
  assert (Hnotified : toOwner (connection notified)
                      = [shutdown_packet manager ident (isle_identifier self)]).
  { unfold notified, attach. rewrite He'. exact Howner. }
  rewrite Hnotified in Hq.
  unfold EventLoop.eventloop_with. fold notified.
  exact (eventloop_queued_shutdown h notified looped last
           (shutdown_packet manager ident (isle_identifier self))
           (String.length (isle_identifier self)) later rest
           eq_refl Hloop Hrun Hq eq_refl eq_refl Hlen Happended Hlast).
Qed.

End Leftovers.

Section AtWork.

Import Fixtures Town.
Import COBS PacketOps PeerOps ManagerOps RouterOps IsleOps.

Local Open Scope Z_scope.

Lemma toBytes_printable_witness :
  toBytes packetA = Ok packetA_bytes /\
  forallb printable packetA_bytes = true /\ ~ In 0 packetA_bytes.
Proof.
  split; [vm_compute; reflexivity |].
  apply (toBytes_printable packetA packetA_bytes). vm_compute. reflexivity.
Defined.

Lemma bytes_roundtrip_listifies_witness :
  portable_packet ask = true /\
  exists bytes, toBytes ask = Ok bytes /\
                createFromBytes "f00d" bytes = Some (Ok (listify_packet ask)).
Proof.
  split; [reflexivity |].
  apply (bytes_roundtrip_listifies "f00d" ask). reflexivity.
Defined.

Lemma COBS_encode_single_zero_witness :
  COBS_encode [17; 34; 0; 51; 0] = Some (Ok [3; 17; 34; 2; 51; 0]) /\
  exists body, [3; 17; 34; 2; 51; 0] = body ++ [0] /\ zero_free body.
Proof.
  split; [reflexivity |].
  apply (COBS_encode_single_zero [17; 34; 0; 51; 0]). reflexivity.
Defined.

Lemma COBS_encode_accepts_witness :
  forallb is_byte [17; 34] = true /\
  ((exists e, COBS_encode [17; 34] = Some (Ok e)) <-> last_item [17; 34] = Ok 0).
Proof.
  split; [reflexivity |].
  apply (COBS_encode_accepts [17; 34]). reflexivity.
Defined.

Lemma COBS_roundtrip_short_witness :
  forallb is_byte [17; 34; 0; 51; 0] = true /\
  last_item [17; 34; 0; 51; 0] = Ok 0 /\
  (length [17; 34; 0; 51; 0] <= 255)%nat /\
  exists e, COBS_encode [17; 34; 0; 51; 0] = Some (Ok e) /\
            COBS_decode e = Ok [17; 34; 0; 51; 0].
Proof.
  split; [reflexivity |]. split; [reflexivity |]. split; [cbn; lia |].
  apply (COBS_roundtrip_short [17; 34; 0; 51; 0]); [reflexivity | reflexivity | cbn; lia].
Defined.

Lemma peer_roundtrip_witness :
  portable_packet packetA = true /\
  toBytes packetA = Ok packetA_bytes /\
  (length packetA_bytes <= 253)%nat /\
  exists coded,
    addPacketToTXBuffer peer packetA
      = Some (Ok (mkPeer (peer_isle peer) (rxBuffer peer) (txBuffer peer ++ coded))) /\
    forall isle rest tx,
      readPacketFromRXBuffer "f00d" (mkPeer isle (coded ++ rest) tx)
      = (Some (Ok (Some (listify_packet packetA))), mkPeer isle rest tx).
Proof.
  split; [reflexivity |]. split; [vm_compute; reflexivity |].
  split; [vm_compute; lia |].
  apply (peer_roundtrip "f00d" peer packetA packetA_bytes);
    [reflexivity | vm_compute; reflexivity | vm_compute; lia].
Defined.

Lemma peer_link_witness :
  portable_packet packetA = true /\
  toBytes packetA = Ok packetA_bytes /\
  (length packetA_bytes <= 253)%nat /\
  txBuffer peer = [] /\ rxBuffer peer = [] /\
  exists queued,
    addPacketToTXBuffer peer packetA = Some (Ok queued) /\
    let '(sending', receiving') := transfer [10; 4096]%nat queued peer in
    match txBuffer sending' with
    | [] =>
        readPacketFromRXBuffer "f00d" receiving'
        = (Some (Ok (Some (listify_packet packetA))),
           mkPeer (peer_isle peer) [] (txBuffer peer))
    | _ :: _ =>
        readPacketFromRXBuffer "f00d" receiving' = (Some (Ok None), receiving')
    end.
Proof.
  split; [reflexivity |]. split; [vm_compute; reflexivity |].
  split; [vm_compute; lia |]. split; [reflexivity |]. split; [reflexivity |].
  apply (peer_link "f00d" peer peer packetA packetA_bytes [10; 4096]%nat);
    [reflexivity | vm_compute; reflexivity | vm_compute; lia | reflexivity | reflexivity].
Defined.

Lemma TempIsle_enter_exit_witness :
  isles_get (isles town) (isle_identifier (TempIsle_init "7c9e")) = None /\
  isles_get (isles (TempIsle_enter (TempIsle_init "7c9e") town)) "7c9e"
    = Some (mkEntry ConnectionOps.init None) /\
  TempIsle_exit (TempIsle_init "7c9e") (TempIsle_enter (TempIsle_init "7c9e") town) = Ok town /\
  TempIsle_exit (TempIsle_init "7c9e") town = Raise (mkExc KeyError "7c9e").
Proof.
  split; [reflexivity |].
  apply (TempIsle_enter_exit (TempIsle_init "7c9e") town). reflexivity.
Defined.

Lemma stop_notifies_witness :
  NoDup (map fst (isles town_denied_once)) /\
  let after := snd (stop bob_hangs ticket town_denied_once) in
  map fst (isles after) = map fst (isles town_denied_once) /\
  Forall2 (fun before after =>
             exists ident, got_packet (shutdown_packet town_denied_once ident (fst before))
                                      (snd before) (snd after))
          (isles town_denied_once) (isles after) /\
  (exists sent,
     logfile after ++ logbuffer after
     = (logfile town_denied_once ++ logbuffer town_denied_once) ++ sent /\
     map receiver sent = map (fun kv => VStr (fst kv)) (isles town_denied_once)) /\
  (nth 1 (open_fails town_denied_once) false = false -> logbuffer after = []) /\
  open_fails after = skipn 2 (open_fails town_denied_once).
Proof.
  split; [apply distinct_NoDup; reflexivity |].
  apply (stop_notifies bob_hangs ticket town_denied_once). apply distinct_NoDup. reflexivity.
Defined.

Lemma stop_completes_witness :
  NoDup (map fst (isles town)) /\
  fst (stop all_end ticket town) = Some (Ok tt) /\
  joined (snd (stop all_end ticket town)) = ["alice"; "bob"] /\
  fst (stop bob_hangs ticket town) = None.
Proof.
  split; [apply distinct_NoDup; reflexivity |].
  destruct (stop_completes all_end ticket town (distinct_NoDup (map fst (isles town)) eq_refl))
    as (Hiff & _ & Hjoined).
  destruct (stop_completes bob_hangs ticket town (distinct_NoDup (map fst (isles town)) eq_refl))
    as (_ & Hwait & _).
  assert (Hok : fst (stop all_end ticket town) = Some (Ok tt)).
  { apply Hiff. repeat (constructor; [eexists; split; reflexivity |]). constructor. }
  split; [exact Hok |]. split; [exact (Hjoined Hok) |].
  apply Hwait. exact I.
Defined.

Lemma incoming_answers_in_order_witness :
  let waiting := inbox MyIsle [request "r1" ["add"; "eiland"] [VInt 3; VInt 6];
                               request "r2" ["sub"; "eiland"] [VInt 3]] in
  let replies :=
    [mkPacket "r1" (VList [VStr "add"; VStr "eiland"]) (VList [VStr "Santa"])
              (VDict [("return", VInt 9)]);
     mkPacket "r2" (VList [VStr "sub"; VStr "eiland"]) (VList [VStr "Santa"])
              (VDict [("exception", VExc arity_error)])] in
  Forall2 (answers (routes waiting)) (toOwner (connection waiting)) replies /\
  exists self',
    handleIncomingPackets waiting = Some (Ok tt, self') /\
    toOwner (connection self') = [] /\
    toRouter (connection self') = toRouter (connection waiting) ++ replies /\
    running self' = running waiting.
Proof.
  intros waiting replies.
  assert (H : Forall2 (answers (routes waiting)) (toOwner (connection waiting)) replies).
  { constructor; [| constructor; [| constructor]].
    - split; [reflexivity |].
      exists "add"%string, add, (VTuple [VInt 3; VInt 6]), [VInt 3; VInt 6], (VDict []), [].
      repeat split. left. exists (VInt 9). split; reflexivity.
    - split; [reflexivity |].
      exists "sub"%string, sub, (VTuple [VInt 3]), [VInt 3], (VDict []), [].
      repeat split. right. exists arity_error. repeat split. }
  split; [exact H |].
  exact (incoming_answers_in_order waiting replies H).
Defined.

Lemma eventloop_until_shutdown_witness :
  toOwner (connection MyIsle) = [] /\
  String.length (isle_identifier MyIsle) <> 2%nat /\
  EventLoop.eventloop (repeat [] 2) MyIsle = None /\
  EventLoop.eventloop
    (repeat [] 2 ++ [shutdown_packet town "s0" (isle_identifier MyIsle)] :: [ask] :: [])
    MyIsle
  = Some (Ok tt, deliver (with_running MyIsle false) [ask]).
Proof.
  split; [reflexivity |]. split; [cbn; lia |].
  apply (eventloop_until_shutdown MyIsle town "s0" 2 [ask] []); [reflexivity | cbn; lia].
Defined.

Lemma eventloop_pass_delivers_witness :
  NoDup (map fst (isles (bob_sends [ask]))) /\
  islesToBeAdded (bob_sends [ask]) = [] /\
  forallb (fun sp => routable (bob_sends [ask]) (snd sp)) (traffic (isles (bob_sends [ask])))
    = true /\
  exists self',
    eventloop_pass render (bob_sends [ask]) = (Some (Ok tt), self') /\
    isles_get (isles self') "alice"
      = Some (mkEntry (mkConnection [] [ask]) (Some (mkThread "alice"))) /\
    logfile self' = [ask].
Proof.
  split; [apply distinct_NoDup; reflexivity |]. split; [reflexivity |].
  split; [reflexivity |].
  destruct (eventloop_pass_delivers render (bob_sends [ask]))
    as (self' & Hpass & _ & Hget & Hlog & Hbuf & _);
    [apply distinct_NoDup; reflexivity | reflexivity | reflexivity |].
  exists self'. split; [exact Hpass |]. split.
  - exact (Hget "alice"%string _ eq_refl).
  - rewrite (Hbuf ltac:(discriminate) eq_refl), app_nil_r in Hlog. exact Hlog.
Defined.

Lemma eventloop_pass_bounces_witness :
  NoDup (map fst (isles (bob_sends [stray]))) /\
  islesToBeAdded (bob_sends [stray]) = [] /\
  forallb (fun sp => understood (bob_sends [stray]) (snd sp))
          (traffic (isles (bob_sends [stray]))) = true /\
  In ("bob"%string, stray) (traffic (isles (bob_sends [stray]))) /\
  destination stray = Some "carol"%string /\
  "carol"%string <> mgr_identifier (bob_sends [stray]) /\
  isles_get (isles (bob_sends [stray])) "carol" = None /\
  exists self' e',
    eventloop_pass render (bob_sends [stray]) = (Some (Ok tt), self') /\
    isles_get (isles self') "bob" = Some e' /\
    In (mkPacket "q2" (VList [VStr "islemanager"]) (VList [VStr "bob"])
          (VDict [("exception",
                   VExc (mkExc KeyError "carol does not exist (anymore)"))]))
       (toOwner (entry_connection e')).
Proof.
  split; [apply distinct_NoDup; reflexivity |]. split; [reflexivity |].
  split; [reflexivity |]. split; [left; reflexivity |]. split; [reflexivity |].
  split; [discriminate |]. split; [reflexivity |].
  destruct (eventloop_pass_bounces render (bob_sends [stray]) "bob" "carol" stray)
    as (self' & e' & Hpass & Hget & Hin & _);
    [apply distinct_NoDup; reflexivity | reflexivity | reflexivity | left; reflexivity
     | reflexivity | discriminate | reflexivity |].
  exists self', e'. split; [exact Hpass |]. split; [exact Hget | exact Hin].
Defined.

Lemma eventloop_pass_shutdown_witness :
  NoDup (map fst (isles (bob_sends [ask; halt]))) /\
  islesToBeAdded (bob_sends [ask; halt]) = [] /\
  forallb (fun sp => understood (bob_sends [ask; halt]) (snd sp))
          (traffic (isles (bob_sends [ask; halt]))) = true /\
  exists self',
    eventloop_pass render (bob_sends [ask; halt]) = (Some (Ok tt), self') /\
    mgr_running self' = false /\
    traffic (isles self') = [].
Proof.
  split; [apply distinct_NoDup; reflexivity |]. split; [reflexivity |].
  split; [reflexivity |].
  destruct (eventloop_pass_shutdown render (bob_sends [ask; halt]))
    as (self' & Hpass & Hrun & Hempty);
    [apply distinct_NoDup; reflexivity | reflexivity | reflexivity |].
  exists self'. split; [exact Hpass |]. split; [| exact Hempty].
  rewrite Hrun. reflexivity.
Defined.

Lemma eventloop_pass_aborts_witness :
  NoDup (map fst (isles (bob_sends [ask; blank; stray]))) /\
  fatal (bob_sends [ask; blank; stray]) blank
    = Some (mkExc TypeError "argument is not iterable") /\
  fst (eventloop_pass render (bob_sends [ask; blank; stray]))
    = Some (Raise (mkExc TypeError "argument is not iterable")) /\
  exists e', isles_get (isles (snd (eventloop_pass render (bob_sends [ask; blank; stray])))) "bob"
             = Some e' /\
             toRouter (entry_connection e') = [stray].
Proof.
  split; [apply distinct_NoDup; reflexivity |]. split; [reflexivity |].
  apply (eventloop_pass_aborts render (bob_sends [ask; blank; stray])
           [("alice"%string, mkEntry ConnectionOps.init (Some (mkThread "alice")))] []
           "bob" (mkEntry (mkConnection [ask; blank; stray] []) (Some (mkThread "bob")))
           [ask] [stray] blank);
    [apply distinct_NoDup; reflexivity | reflexivity | reflexivity | reflexivity
     | reflexivity | reflexivity].
Defined.

Lemma requestResponse_requeues_witness :
  let waiting := inbox MyIsle [ask; createReply test_packet (VDict [("return", VInt 6)]); stray] in
  toOwner (connection waiting)
    = [ask] ++ createReply test_packet (VDict [("return", VInt 6)]) :: [stray] /\
  unrelated (identifier test_packet) [ask] /\
  within (0 + 3) (firstn 2 [mkTick 1 [halt]; mkTick 2 []]) /\
  toOwner (connection (snd (requestResponse show_path waiting test_packet 3 0
                              [mkTick 1 [halt]; mkTick 2 []])))
  = [stray; ask; halt].
Proof.
  intro waiting.
  assert (Hun : unrelated (identifier test_packet) [ask])
    by (repeat constructor; discriminate).
  assert (Hin : within (0 + 3) (firstn 2 [mkTick 1 [halt]; mkTick 2 []]))
    by (repeat constructor; cbn; lia).
  split; [reflexivity |]. split; [exact Hun |]. split; [exact Hin |].
  apply (requestResponse_requeues show_path waiting test_packet
           (createReply test_packet (VDict [("return", VInt 6)])) 3 0
           [mkTick 1 [halt]; mkTick 2 []] [ask] [stray]);
    [reflexivity | exact Hun | reflexivity | exact Hin | cbn; lia].
Defined.


Lemma late_replies_dropped_witness :
  let odd := mkPacket "r9" (VList [VStr "Santa"]) (VList [VStr "add"; VStr "eiland"])
                      (VDict [("args", VTuple [VInt 3; VInt 6]); ("kwargs", VDict []);
                              ("return", VNone)]) in
  let waiting := inbox MyIsle [createReply test_packet (VDict [("return", VInt 6)]); odd] in
  Forall (fun p => py_contains "return" (data p) = Ok true) (toOwner (connection waiting)) /\
  handleIncomingPackets waiting = Some (Ok tt, MyIsle).
Proof.
  intros odd waiting.
  assert (H : Forall (fun p => py_contains "return" (data p) = Ok true)
                     (toOwner (connection waiting)))
    by (repeat constructor).
  split; [exact H |].
  exact (late_replies_dropped waiting H).
Defined.

Lemma stop_ends_isle_witness :
  NoDup (map fst (isles town)) /\
  isles_get (isles town) (isle_identifier alice)
    = Some (mkEntry ConnectionOps.init (Some (mkThread "alice"))) /\
  String.length (isle_identifier alice) <> 2%nat /\
  let notified := with_running (attach alice (snd (stop bob_hangs ticket town))) true in
  let looped := snd (sendPacket notified greeting) in
  let last := deliver (with_running (with_connection looped (mkConnection [greeting] [])) false)
                      [ask] in
  toOwner (connection notified) = [shutdown_packet town "s0" "alice"] /\
  EventLoop.eventloop_with chatty ([ask] :: []) (attach alice (snd (stop bob_hangs ticket town)))
  = Some (Ok tt, last) /\
  running last = false /\
  connection last = mkConnection [greeting] [ask].
Proof.
  split; [apply distinct_NoDup; reflexivity |]. split; [reflexivity |].
  split; [cbn; lia |].
  intros notified looped last.
  split; [reflexivity |]. split; [| split; reflexivity].
  apply (stop_ends_isle bob_hangs ticket town chatty alice looped last
           (mkEntry ConnectionOps.init (Some (mkThread "alice"))) [ask] []);
    [apply distinct_NoDup; reflexivity | reflexivity | reflexivity | cbn; lia
     | reflexivity | reflexivity | reflexivity | reflexivity | reflexivity].
Defined.

End AtWork.
